(** * Scraping core of the webMethods scraper: a shallow embedding

  The development follows the backend sources:
  - [backend/models/Content.js]       (content store: hash, bulk upsert, cleanup)
  - [backend/models/ScrapingLog.js]   (run log and its terminal methods)
  - [backend/utils/robotsParser.js]   (robots cache, URL filter, robots.txt reader)
  - [backend/scrapers/baseScraper.js] (request/retry loop, relevance filter, run)
  - [backend/utils/rateLimiter.js]    (concurrency gate, request pacer)
  - [backend/middleware/errorHandler.js] (error classes and the error middleware)
  - [backend/scrapers/jobScraper.js]  (job title parser)

  Conventions.  JavaScript strings are modelled by their byte sequence
  ([string]); [toLowerCase] and [trim] are exact on ASCII text.  Dates are
  integers (milliseconds since the epoch).  [Math.random()] is a rational in
  [0,1) supplied by the environment.  Calls that leave the process (HTTP,
  the clock, the random source, the XML and robots parsers) are answered by
  an explicit environment record, indexed by the number of calls made so
  far, so that every function below is total and can be evaluated. *)

From Stdlib Require Import ZArith QArith Qpower Qround Lia Lqa Ascii String.
From stdpp Require Import gmap strings list fin_maps pretty.

Local Open Scope Z_scope.

(* ===================================================================== *)
(** ** JavaScript string helpers *)
(* ===================================================================== *)

Module JsString.

(** [String.prototype.toLowerCase], on the ASCII letters. *)
Definition lower_ascii (c : ascii) : ascii :=
  let n := N_of_ascii c in
  if ((65 <=? n) && (n <=? 90))%N then ascii_of_N (n + 32) else c.

Fixpoint toLowerCase (s : string) : string :=
  match s with
  | EmptyString => EmptyString
  | String c r => String (lower_ascii c) (toLowerCase r)
  end.

(** White space removed by [String.prototype.trim]: TAB, LF, VT, FF, CR
    and SPACE. *)
Definition is_ws (c : ascii) : bool :=
  let n := N_of_ascii c in
  (((9 <=? n) && (n <=? 13)) || (n =? 32))%N.

Fixpoint trimStart (s : string) : string :=
  match s with
  | EmptyString => EmptyString
  | String c r => if is_ws c then trimStart r else s
  end.

Fixpoint trimEnd (s : string) : string :=
  match s with
  | EmptyString => EmptyString
  | String c r =>
      match trimEnd r with
      | EmptyString => if is_ws c then EmptyString else String c EmptyString
      | r' => String c r'
      end
  end.

Definition trim (s : string) : string := trimEnd (trimStart s).

(** [haystack.includes(needle)]. *)
Fixpoint includes (haystack needle : string) : bool :=
  String.prefix needle haystack ||
  match haystack with
  | EmptyString => false
  | String _ r => includes r needle
  end.

(** [parts.join(sep)]. *)
Fixpoint join (sep : string) (parts : list string) : string :=
  match parts with
  | [] => EmptyString
  | [p] => p
  | p :: rest => p +:+ sep +:+ join sep rest
  end.

(** Truthiness of a string value: the empty string is falsy. *)
Definition truthy (s : string) : bool :=
  match s with EmptyString => false | _ => true end.

End JsString.

(* ===================================================================== *)
(** ** SHA-256 (FIPS 180-4), as computed by
     [crypto.createHash('sha256').update(data).digest('hex')] *)
(* ===================================================================== *)

Module SHA256.

Definition w32 (x : Z) : Z := x mod 2 ^ 32.
Definition add32 (x y : Z) : Z := w32 (x + y).
Definition rotr (n x : Z) : Z :=
  Z.lor (Z.shiftr x n) (w32 (Z.shiftl x (32 - n))).
Definition shr (n x : Z) : Z := Z.shiftr x n.

Definition Ch (x y z : Z) : Z :=
  Z.lxor (Z.land x y) (Z.land (Z.lnot x) z).
Definition Maj (x y z : Z) : Z :=
  Z.lxor (Z.lxor (Z.land x y) (Z.land x z)) (Z.land y z).
Definition Sigma0 (x : Z) := Z.lxor (Z.lxor (rotr 2 x) (rotr 13 x)) (rotr 22 x).
Definition Sigma1 (x : Z) := Z.lxor (Z.lxor (rotr 6 x) (rotr 11 x)) (rotr 25 x).
Definition sigma0 (x : Z) := Z.lxor (Z.lxor (rotr 7 x) (rotr 18 x)) (shr 3 x).
Definition sigma1 (x : Z) := Z.lxor (Z.lxor (rotr 17 x) (rotr 19 x)) (shr 10 x).

(** The primes below 312: the first 64 primes. *)
Definition isPrime (n : nat) : bool :=
  (2 <=? n)%nat && forallb (λ d, negb (n mod d =? 0)%nat) (seq 2 (n - 2)).

Definition primes : list Z := Z.of_nat <$> filter (λ n, isPrime n = true) (seq 2 310).

(** The integer cube root, by bisection on the bits below [bit]. *)
Fixpoint cbrtBits (n : Z) (bit : nat) (acc : Z) : Z :=
  match bit with
  | O => acc
  | S b =>
      let cand := acc + 2 ^ Z.of_nat b in
      if cand * cand * cand <=? n then cbrtBits n b cand else cbrtBits n b acc
  end.

(** The round constants: the first 32 bits of the fractional parts of the
    cube roots of the first 64 primes. *)
Definition K : list Z := (λ p, w32 (cbrtBits (p * 2 ^ 96) 36 0)) <$> primes.

(** The initial hash value: the first 32 bits of the fractional parts of
    the square roots of the first 8 primes. *)
Definition H0 : list Z := (λ p, w32 (Z.sqrt (p * 2 ^ 64))) <$> take 8 primes.

Definition bytes_of_string (s : string) : list Z :=
  (fun c => Z.of_N (N_of_ascii c)) <$> list_ascii_of_string s.

(** Big-endian encoding of [x] on [n] bytes. *)
Fixpoint be_bytes (n : nat) (x : Z) : list Z :=
  match n with
  | O => []
  | S n' => (Z.shiftr x (8 * Z.of_nat n')) mod 256 :: be_bytes n' x
  end.

Definition pad (msg : list Z) : list Z :=
  let len := Z.of_nat (length msg) in
  let zeros := Z.to_nat ((55 - len) mod 64) in
  msg ++ [0x80] ++ replicate zeros 0 ++ be_bytes 8 (8 * len).

Fixpoint words_of_bytes (bs : list Z) : list Z :=
  match bs with
  | a :: b :: c :: d :: rest =>
      (Z.shiftl a 24 + Z.shiftl b 16 + Z.shiftl c 8 + d) :: words_of_bytes rest
  | _ => []
  end.

Fixpoint chunks (n : nat) (ws : list Z) : list (list Z) :=
  match n with
  | O => []
  | S n' =>
      match ws with
      | [] => []
      | _ => take 16 ws :: chunks n' (drop 16 ws)
      end
  end.

(** The message schedule, most recent word first. *)
Fixpoint schedule_rev (n : nat) (acc : list Z) : list Z :=
  match n with
  | O => acc
  | S n' =>
      let w := add32 (add32 (sigma1 (nth 1 acc 0)) (nth 6 acc 0))
                     (add32 (sigma0 (nth 14 acc 0)) (nth 15 acc 0)) in
      schedule_rev n' (w :: acc)
  end.

Definition schedule (block : list Z) : list Z :=
  rev (schedule_rev 48 (rev block)).

Definition round (st : list Z) (kw : Z * Z) : list Z :=
  match st with
  | [a; b; c; d; e; f; g; h] =>
      let t1 := add32 (add32 (add32 h (Sigma1 e)) (add32 (Ch e f g) kw.1)) kw.2 in
      let t2 := add32 (Sigma0 a) (Maj a b c) in
      [add32 t1 t2; a; b; c; add32 d t1; e; f; g]
  | _ => st
  end.

Definition compress (h : list Z) (block : list Z) : list Z :=
  let st := fold_left round (zip K (schedule block)) h in
  zip_with add32 h st.

Definition digest_words (msg : list Z) : list Z :=
  let ws := words_of_bytes (pad msg) in
  fold_left compress (chunks (length ws) ws) H0.

Definition hex_digit (d : Z) : ascii :=
  if d <? 10 then ascii_of_N (Z.to_N (48 + d)) else ascii_of_N (Z.to_N (87 + d)).

Fixpoint hex_of_nibbles (n : nat) (x : Z) : string :=
  match n with
  | O => EmptyString
  | S n' => String (hex_digit ((Z.shiftr x (4 * Z.of_nat n')) mod 16))
                   (hex_of_nibbles n' x)
  end.

Definition hex (s : string) : string :=
  String.concat "" (hex_of_nibbles 8 <$> digest_words (bytes_of_string s)).

End SHA256.

(* ===================================================================== *)
(** ** Environment input: [parseInt(value, 10) || fallback] *)
(* ===================================================================== *)

Module JsNumber.

Definition digit_of (c : ascii) : option Z :=
  let n := Z.of_N (N_of_ascii c) in
  if (48 <=? n) && (n <=? 57) then Some (n - 48) else None.

(** The decimal digits at the head of [s], read left to right; [None]
    when [s] does not start with a digit. *)
Fixpoint digits (acc : option Z) (s : string) : option Z :=
  match s with
  | EmptyString => acc
  | String c r =>
      match digit_of c with
      | Some d => digits (Some (10 * default 0 acc + d)) r
      | None => acc
      end
  end.

(** [parseInt(s, 10)]: leading white space is skipped, one sign is
    accepted, parsing stops at the first character that is not a digit.
    [None] is NaN. *)
Definition parseInt (s : string) : option Z :=
  match JsString.trimStart s with
  | String "-" r => Z.opp <$> digits None r
  | String "+" r => digits None r
  | r => digits None r
  end.

(** [parseInt(process.env.X, 10) || fallback]: an unset variable, NaN and
    0 are all falsy. *)
Definition envInt (v : option string) (fallback : Z) : Z :=
  match v ≫= parseInt with
  | Some n => if n =? 0 then fallback else n
  | None => fallback
  end.

(** [list.slice(0, end)]. *)
Definition slice0 {A} (l : list A) (e : Z) : list A :=
  if e <? 0 then take (Z.to_nat (Z.of_nat (length l) + e)) l
  else take (Z.to_nat e) l.

End JsNumber.

(* ===================================================================== *)
(** ** Content store ([backend/models/Content.js]) *)
(* ===================================================================== *)

Module Content.

(** Field values of a stored document. *)
Inductive Value :=
| VNull
| VStr (s : string)
| VNum (n : Z)
| VBool (b : bool)
| VDate (t : Z)
| VStrs (l : list string)
| VJob (company location : option string) (applyUrl : string) (remote : bool).

#[global] Instance Value_eq_dec : EqDecision Value.
Proof. solve_decision. Defined.

(** A document is a finite map from field names to values. *)
Abbreviation Doc := (gmap string Value).

(** The collection.  [contentHash] carries a unique index, so the
    collection is a finite map from content hash to document; the filter
    [{ contentHash: hash }] is a lookup. *)
Abbreviation Store := (gmap string Doc).

Record JobDetails := {
  company : option string;
  location : option string;
  applyUrl : string;
  remote : bool
}.

(** A candidate item as the adapters build it.  [None] is [undefined],
    except for [description], where the adapters write [null]. *)
Record Item := {
  type_ : option string;
  title : option string;
  url : option string;
  description : option string;
  publishedAt : Z;
  source : option string;
  sourceName : option string;
  tags : list string;
  keywords : list string;
  relevanceScore : Z;
  jobDetails : option JobDetails;
  scrapedBy : option string
}.

Definition put (k : string) (v : option Value) (m : Doc) : Doc :=
  match v with
  | Some x => <[k := x]> m
  | None => m
  end.

Definition jobValue (j : JobDetails) : Value :=
  VJob (company j) (location j) (applyUrl j) (remote j).

(** The own properties of an item: what [...content] spreads. *)
Definition fieldsOf (c : Item) : Doc :=
  put "type" (VStr <$> type_ c)
    (put "title" (VStr <$> title c)
    (put "url" (VStr <$> url c)
    (put "description" (Some (from_option VStr VNull (description c)))
    (put "publishedAt" (Some (VDate (publishedAt c)))
    (put "source" (VStr <$> source c)
    (put "sourceName" (VStr <$> sourceName c)
    (put "tags" (Some (VStrs (tags c)))
    (put "keywords" (Some (VStrs (keywords c)))
    (put "relevanceScore" (Some (VNum (relevanceScore c)))
    (put "jobDetails" (jobValue <$> jobDetails c)
    (put "scrapedBy" (VStr <$> scrapedBy c) ∅))))))))))).

(** [generateHash(url, title)]. *)
Definition generateHash (url title : string) : string :=
  let data := JsString.trim (JsString.toLowerCase url) +:+ "|" +:+
              JsString.trim (JsString.toLowerCase title) in
  SHA256.hex data.

(** One [updateOne] operation of the bulk write. *)
Record UpdateOne := {
  filterHash : string;
  set_ : Doc;
  setOnInsert : Doc
}.

(** The operation built for one item; [tSet] and [tIns] are the two
    [new Date()] values.  [None] is the [TypeError] raised by
    [undefined.toLowerCase()]. *)
Definition operation (c : Item) (tSet tIns : Z) : option UpdateOne :=
  u ← url c;
  t ← title c;
  let hash := generateHash u t in
  Some {| filterHash := hash;
          set_ := <["lastUpdated" := VDate tSet]>
                    (<["contentHash" := VStr hash]> (fieldsOf c));
          setOnInsert := {["scrapedAt" := VDate tIns]} |}.

(** The timestamps come from a clock [clk], read twice per item starting
    at read number [tick]. *)
Fixpoint operations (clk : nat → Z) (tick : nat) (contents : list Item)
  : option (list UpdateOne) :=
  match contents with
  | [] => Some []
  | c :: rest =>
      match operation c (clk tick) (clk (S tick)) with
      | Some op => cons op <$> operations clk (S (S tick)) rest
      | None => None
      end
  end.

Inductive Outcome := Upserted | Modified | Unchanged.

#[global] Instance Outcome_eq_dec : EqDecision Outcome.
Proof. solve_decision. Defined.

(** [updateOne] with [upsert: true].  A matched document receives the
    [$set] fields; it counts as modified only when that changes it.
    Without a match the new document is made of the filter, [$set] and
    [$setOnInsert]. *)
Definition updateOne (op : UpdateOne) (s : Store) : Store * Outcome :=
  match s !! filterHash op with
  | Some d =>
      let d' := set_ op ∪ d in
      (<[filterHash op := d']> s, if decide (d' = d) then Unchanged else Modified)
  | None =>
      let d' := set_ op ∪ (setOnInsert op ∪ {["contentHash" := VStr (filterHash op)]}) in
      (<[filterHash op := d']> s, Upserted)
  end.

(** [bulkWrite(operations, { ordered: false })]: the operations are
    applied one after the other, in batch order. *)
Fixpoint bulkWrite (ops : list UpdateOne) (s : Store) : Store * list Outcome :=
  match ops with
  | [] => (s, [])
  | op :: rest =>
      let '(s1, o) := updateOne op s in
      let '(s2, os) := bulkWrite rest s1 in
      (s2, o :: os)
  end.

Definition count (o : Outcome) (os : list Outcome) : Z :=
  Z.of_nat (length (filter (λ x, x = o) os)).

Record UpsertResult := {
  inserted : Z;
  modified : Z;
  total : Z
}.

(** [bulkUpsert(contents)]; [None] when building the operations throws
    (nothing is written then). *)
Definition bulkUpsert (clk : nat → Z) (tick : nat) (contents : list Item) (s : Store)
  : option (Store * UpsertResult) :=
  ops ← operations clk tick contents;
  let '(s', os) := bulkWrite ops s in
  Some (s', {| inserted := count Upserted os;
               modified := count Modified os;
               total := Z.of_nat (length contents) |}).

Definition msPerDay : Z := 86400000.

(** The [deleteMany] filter of [cleanup]: [scrapedAt < cutoff] and
    [status != 'flagged']. *)
Definition expired (cutoff : Z) (d : Doc) : bool :=
  match d !! "scrapedAt" with
  | Some (VDate t) => t <? cutoff
  | _ => false
  end.

Definition flagged (d : Doc) : bool :=
  bool_decide (d !! "status" = Some (VStr "flagged")).

Definition doomed (cutoff : Z) (d : Doc) : bool :=
  expired cutoff d && negb (flagged d).

(** [cleanup(maxAgeDays)] at time [now]; [setDate(getDate() - maxAgeDays)]
    moves the cutoff back by whole days. *)
Definition cleanup (maxAgeDays : Z) (now : Z) (s : Store) : Store * Z :=
  let cutoff := now - maxAgeDays * msPerDay in
  (filter (λ kd, doomed cutoff kd.2 = false) s,
   Z.of_nat (size (filter (λ kd, doomed cutoff kd.2 = true) s))).

End Content.

(* ===================================================================== *)
(** ** Errors ([backend/middleware/errorHandler.js]) *)
(* ===================================================================== *)

Module Errors.

(** An [Error] object: the properties the scraping core reads. *)
Record JsError := {
  name : string;
  message : string;
  statusCode : option Z;
  errorCode : option string;
  errSource : option string
}.

Definition APIError (msg : string) (status : Z) (code : option string) : JsError :=
  {| name := "Error"; message := msg; statusCode := Some status;
     errorCode := code; errSource := None |}.

Definition ScrapingError (msg : string) (src : option string) : JsError :=
  {| name := "Error"; message := msg; statusCode := Some 500;
     errorCode := Some "SCRAPING_ERROR"; errSource := src |}.

Definition DatabaseError (msg : string) : JsError :=
  {| name := "Error"; message := msg; statusCode := Some 500;
     errorCode := Some "DATABASE_ERROR"; errSource := None |}.

(** An error raised by the runtime or a library: no status or code. *)
Definition plainError (nm msg : string) : JsError :=
  {| name := nm; message := msg; statusCode := None;
     errorCode := None; errSource := None |}.

(** [error?.errorCode === 'ROBOTS_DISALLOWED' || error?.statusCode === 403] *)
Definition isRobotsDisallowed (e : JsError) : bool :=
  bool_decide (errorCode e = Some "ROBOTS_DISALLOWED") ||
  bool_decide (statusCode e = Some 403).

End Errors.

(* ===================================================================== *)
(** ** Run log ([backend/models/ScrapingLog.js]) *)
(* ===================================================================== *)

Module ScrapingLog.

Inductive Status := Pending | Running | Completed | Failed | Cancelled | Partial.

#[global] Instance Status_eq_dec : EqDecision Status.
Proof. solve_decision. Defined.

Definition terminal (s : Status) : bool :=
  match s with
  | Completed | Failed | Cancelled | Partial => true
  | Pending | Running => false
  end.

Record Results := {
  found : Z;
  inserted : Z;
  updated : Z;
  duplicates : Z;
  failed : Z;
  urlsProcessed : Z;
  urlsFailed : Z
}.

(** The argument of [complete] and [updateResults]: every counter may be
    [undefined]. *)
Record ResultsArg := {
  a_found : option Z;
  a_inserted : option Z;
  a_updated : option Z;
  a_duplicates : option Z;
  a_failed : option Z;
  a_urlsProcessed : option Z;
  a_urlsFailed : option Z
}.

Record ErrorEntry := {
  e_timestamp : Z;
  e_type : string;
  e_message : string;
  e_url : option string;
  e_retryCount : Z
}.

Record WarningEntry := {
  w_timestamp : Z;
  w_message : string;
  w_url : option string
}.

(** The fields fixed by [startSession]. *)
Record Session := {
  sessionId : string;
  scraperName : string;
  source : string;
  sourceUrl : option string;
  triggeredBy : string;
  configMaxItems : Z;
  configKeywords : list string
}.

Record Log := {
  session : Session;
  status : Status;
  startedAt : Z;
  endedAt : option Z;
  duration : Z;
  results : Results;
  avgTimePerItem : Q;
  errorLogs : list ErrorEntry;
  warnings : list WarningEntry
}.

Definition zeroResults : Results :=
  {| found := 0; inserted := 0; updated := 0; duplicates := 0; failed := 0;
     urlsProcessed := 0; urlsFailed := 0 |}.

(** [startSession(data)], with the session id and the start time. *)
Definition startSession (s : Session) (now : Z) : Log :=
  {| session := s; status := Running; startedAt := now; endedAt := None;
     duration := 0; results := zeroResults; avgTimePerItem := 0;
     errorLogs := []; warnings := [] |}.

(** [if (results.x !== undefined) this.results.x = results.x] *)
Definition mergeResults (r : Results) (a : ResultsArg) : Results :=
  {| found := default (found r) (a_found a);
     inserted := default (inserted r) (a_inserted a);
     updated := default (updated r) (a_updated a);
     duplicates := default (duplicates r) (a_duplicates a);
     failed := default (failed r) (a_failed a);
     urlsProcessed := default (urlsProcessed r) (a_urlsProcessed a);
     urlsFailed := default (urlsFailed r) (a_urlsFailed a) |}.

(** [complete(results)] at time [now]. *)
Definition complete (a : ResultsArg) (now : Z) (l : Log) : Log :=
  let d := now - startedAt l in
  let r := mergeResults (results l) a in
  {| session := session l; status := Completed; startedAt := startedAt l;
     endedAt := Some now; duration := d; results := r;
     avgTimePerItem :=
       if 0 <? found r then (d # Z.to_pos (found r))%Q else avgTimePerItem l;
     errorLogs := errorLogs l; warnings := warnings l |}.

(** [fail(error)]; [now] is the end time, [now'] the time stamp of the
    error entry. *)
Definition fail (e : Errors.JsError) (now now' : Z) (l : Log) : Log :=
  {| session := session l; status := Failed; startedAt := startedAt l;
     endedAt := Some now; duration := now - startedAt l; results := results l;
     avgTimePerItem := avgTimePerItem l;
     errorLogs := errorLogs l ++
       [{| e_timestamp := now';
           e_type := if JsString.truthy (Errors.name e) then Errors.name e else "Error";
           e_message := Errors.message e; e_url := None; e_retryCount := 0 |}];
     warnings := warnings l |}.

(** [cancel()]. *)
Definition cancel (now : Z) (l : Log) : Log :=
  {| session := session l; status := Cancelled; startedAt := startedAt l;
     endedAt := Some now; duration := now - startedAt l; results := results l;
     avgTimePerItem := avgTimePerItem l; errorLogs := errorLogs l;
     warnings := warnings l |}.

(** The argument of [addError]. *)
Record ErrorData := {
  d_type : string;
  d_message : string;
  d_url : option string;
  d_retryCount : Z
}.

Definition addError (d : ErrorData) (now : Z) (l : Log) : Log :=
  {| session := session l; status := status l; startedAt := startedAt l;
     endedAt := endedAt l; duration := duration l; results := results l;
     avgTimePerItem := avgTimePerItem l;
     errorLogs := errorLogs l ++
       [{| e_timestamp := now;
           e_type := if JsString.truthy (d_type d) then d_type d else "Error";
           e_message := d_message d; e_url := d_url d;
           e_retryCount := d_retryCount d |}];
     warnings := warnings l |}.

Definition addWarning (msg : string) (u : option string) (now : Z) (l : Log) : Log :=
  {| session := session l; status := status l; startedAt := startedAt l;
     endedAt := endedAt l; duration := duration l; results := results l;
     avgTimePerItem := avgTimePerItem l; errorLogs := errorLogs l;
     warnings := warnings l ++
       [{| w_timestamp := now; w_message := msg; w_url := u |}] |}.

(** [if (updates.x) this.results.x += updates.x]: [undefined] and 0 add
    nothing. *)
Definition bump (x : Z) (u : option Z) : Z := x + default 0 u.

Definition updateResults (a : ResultsArg) (l : Log) : Log :=
  let r := results l in
  {| session := session l; status := status l; startedAt := startedAt l;
     endedAt := endedAt l; duration := duration l;
     results :=
       {| found := bump (found r) (a_found a);
          inserted := bump (inserted r) (a_inserted a);
          updated := bump (updated r) (a_updated a);
          duplicates := bump (duplicates r) (a_duplicates a);
          failed := bump (failed r) (a_failed a);
          urlsProcessed := bump (urlsProcessed r) (a_urlsProcessed a);
          urlsFailed := bump (urlsFailed r) (a_urlsFailed a) |};
     avgTimePerItem := avgTimePerItem l; errorLogs := errorLogs l;
     warnings := warnings l |}.

(** A call of one of the log's methods, with the clock values it reads. *)
Inductive Call :=
| CComplete (a : ResultsArg) (now : Z)
| CFail (e : Errors.JsError) (now now' : Z)
| CCancel (now : Z)
| CAddError (d : ErrorData) (now : Z)
| CAddWarning (msg : string) (u : option string) (now : Z)
| CUpdateResults (a : ResultsArg).

Definition apply (l : Log) (c : Call) : Log :=
  match c with
  | CComplete a now => complete a now l
  | CFail e now now' => fail e now now' l
  | CCancel now => cancel now l
  | CAddError d now => addError d now l
  | CAddWarning m u now => addWarning m u now l
  | CUpdateResults a => updateResults a l
  end.

Definition isTerminalCall (c : Call) : bool :=
  match c with
  | CComplete _ _ | CFail _ _ _ | CCancel _ => true
  | _ => false
  end.

End ScrapingLog.

(* ===================================================================== *)
(** ** The environment and the state of the process *)
(* ===================================================================== *)

Module Sys.

(** What an axios call produces: a response, or an error raised before
    any status is known. *)
Inductive HttpOutcome :=
| Response (status : Z) (body : string)
| NetworkError (e : Errors.JsError).

(** Answers of the outside world.  The n-th call of a kind gets the
    answer at index n. *)
Record Env := {
  clock : nat → Z;
  random : nat → Q;
  pageHttp : nat → string → HttpOutcome;
  robotsHttp : nat → string → HttpOutcome;
  (** [new URL(url).origin]; [None] when the constructor throws. *)
  url_origin : string → option string;
  (** [robotsParser(robotsUrl, text)] returns ([true]) or throws. *)
  robots_parses : string → string → bool;
  (** [robotsParser(robotsUrl, text).isAllowed(url, userAgent)]. *)
  robots_isAllowed : string → string → string → string → bool;
  (** The session id built from [Date.now()] and [Math.random()]. *)
  session_token : Z → Q → string
}.

Inductive Event :=
| EvRobotsFetch (robotsUrl : string)
| EvAcquire (url : string)
| EvRequest (url : string)
| EvBackoff (ms : Q).

(** A cached robots entry.  The parser object is represented by the
    arguments it was built from. *)
Record RobotsEntry := {
  origin : string;
  parser : option (string * string);
  content : option string;
  fetchedAt : Z;
  exists_ : bool;
  error : option string
}.

Record RobotsStats := {
  hits : Z;
  misses : Z;
  fetchErrors : Z;
  urlsChecked : Z
}.

(** A [RobotsCache] instance; the [Map] keeps insertion order. *)
Record RobotsCache := {
  cache : list (string * RobotsEntry);
  ttl : Z;
  maxSize : Z;
  userAgent : string;
  stats : RobotsStats
}.

(** The mutable fields of a [BaseScraper] instance. *)
Record Scraper := {
  initialUrls : list string;
  scrapedItems : list Content.Item;
  processedUrls : gset string;
  failedUrls : gset string;
  retryAttempts : gmap string Z;
  scrapingLog : option ScrapingLog.Log
}.

Record Calls := {
  ticks : nat;
  draws : nat;
  pageCalls : nat;
  robotsCalls : nat
}.

Record World := {
  scraper : Scraper;
  robotsCache : RobotsCache;
  store : Content.Store;
  calls : Calls;
  trace : list Event
}.

Inductive Result (A : Type) :=
| Ok (a : A)
| Throw (e : Errors.JsError).
Arguments Ok {A} a.
Arguments Throw {A} e.

(** Computations over the world that return or throw. *)
Definition M (A : Type) : Type := World → Result A * World.

Definition ret {A} (a : A) : M A := λ w, (Ok a, w).

Definition bind {A B} (m : M A) (k : A → M B) : M B :=
  λ w, match m w with
       | (Ok a, w') => k a w'
       | (Throw e, w') => (Throw e, w')
       end.

Definition throw {A} (e : Errors.JsError) : M A := λ w, (Throw e, w).

(** [try { m } catch (error) { h error }] *)
Definition try_catch {A} (m : M A) (h : Errors.JsError → M A) : M A :=
  λ w, match m w with
       | (Ok a, w') => (Ok a, w')
       | (Throw e, w') => h e w'
       end.

(** [try { m } finally { f }] *)
Definition finally {A} (m : M A) (f : M unit) : M A :=
  λ w, match m w with
       | (r, w') =>
           match f w' with
           | (Ok _, w'') => (r, w'')
           | (Throw e, w'') => (Throw e, w'')
           end
       end.

Definition get : M World := λ w, (Ok w, w).
Definition modify (f : World → World) : M unit := λ w, (Ok tt, f w).

Definition on_scraper (f : Scraper → Scraper) (w : World) : World :=
  {| scraper := f (scraper w); robotsCache := robotsCache w; store := store w;
     calls := calls w; trace := trace w |}.
Definition on_robots (f : RobotsCache → RobotsCache) (w : World) : World :=
  {| scraper := scraper w; robotsCache := f (robotsCache w); store := store w;
     calls := calls w; trace := trace w |}.
Definition on_store (f : Content.Store → Content.Store) (w : World) : World :=
  {| scraper := scraper w; robotsCache := robotsCache w; store := f (store w);
     calls := calls w; trace := trace w |}.
Definition on_calls (f : Calls → Calls) (w : World) : World :=
  {| scraper := scraper w; robotsCache := robotsCache w; store := store w;
     calls := f (calls w); trace := trace w |}.
Definition emit (ev : Event) : M unit :=
  modify (λ w, {| scraper := scraper w; robotsCache := robotsCache w;
                  store := store w; calls := calls w;
                  trace := trace w ++ [ev] |}).

Definition tick (c : Calls) : Calls :=
  {| ticks := S (ticks c); draws := draws c; pageCalls := pageCalls c;
     robotsCalls := robotsCalls c |}.
Definition draw (c : Calls) : Calls :=
  {| ticks := ticks c; draws := S (draws c); pageCalls := pageCalls c;
     robotsCalls := robotsCalls c |}.
Definition pageCall (c : Calls) : Calls :=
  {| ticks := ticks c; draws := draws c; pageCalls := S (pageCalls c);
     robotsCalls := robotsCalls c |}.
Definition robotsCall (c : Calls) : Calls :=
  {| ticks := ticks c; draws := draws c; pageCalls := pageCalls c;
     robotsCalls := S (robotsCalls c) |}.

(** [Date.now()] / [new Date()] *)
Definition now (env : Env) : M Z :=
  λ w, (Ok (clock env (ticks (calls w))), on_calls tick w).

(** [Math.random()] *)
Definition mathRandom (env : Env) : M Q :=
  λ w, (Ok (random env (draws (calls w))), on_calls draw w).

End Sys.

Declare Scope js_scope.
Delimit Scope js_scope with js.
Notation "x <- m ;; k" := (Sys.bind m (λ x, k))
(at level 100, m at next level, right associativity) : js_scope.
Notation "m ;;; k" := (Sys.bind m (λ _, k))
(at level 100, right associativity) : js_scope.

(* ===================================================================== *)
(** ** Robots cache ([backend/utils/robotsParser.js]) *)
(* ===================================================================== *)

Module Robots.
Import Sys.
Local Open Scope js_scope.

(** Insertion-ordered [Map] operations. *)
Definition mapGet {V} (k : string) (m : list (string * V)) : option V :=
  (λ iv, iv.2.2) <$> list_find (λ kv, kv.1 = k) m.

Definition mapDelete {V} (k : string) (m : list (string * V)) : list (string * V) :=
  filter (λ kv, kv.1 ≠ k) m.

Definition mapSet {V} (k : string) (v : V) (m : list (string * V)) : list (string * V) :=
  match list_find (λ kv, kv.1 = k) m with
  | Some (i, _) => <[i := (k, v)]> m
  | None => m ++ [(k, v)]
  end.

Definition stripPrefix (p s : string) : string :=
  if String.prefix p s then String.substring (String.length p) (String.length s - String.length p) s
  else s.

(** [url.replace(/^(https?:\/\/)?(www\.)?/, '')] *)
Definition stripSchemeWww (url : string) : string :=
  let s := if String.prefix "https://" url then stripPrefix "https://" url
           else stripPrefix "http://" url in
  stripPrefix "www." s.

Definition getCacheKey (env : Env) (url : string) : string :=
  match url_origin env url with
  | Some o => o
  | None => "https://" +:+ stripSchemeWww url
  end.

Definition getRobotsUrl (env : Env) (baseUrl : string) : string :=
  getCacheKey env baseUrl +:+ "/robots.txt".

Definition bumpFetchErrors (c : RobotsCache) : RobotsCache :=
  {| cache := cache c; ttl := ttl c; maxSize := maxSize c; userAgent := userAgent c;
     stats := {| hits := hits (stats c); misses := misses (stats c);
                 fetchErrors := fetchErrors (stats c) + 1;
                 urlsChecked := urlsChecked (stats c) |} |}.
Definition bumpHits (c : RobotsCache) : RobotsCache :=
  {| cache := cache c; ttl := ttl c; maxSize := maxSize c; userAgent := userAgent c;
     stats := {| hits := hits (stats c) + 1; misses := misses (stats c);
                 fetchErrors := fetchErrors (stats c);
                 urlsChecked := urlsChecked (stats c) |} |}.
Definition bumpMisses (c : RobotsCache) : RobotsCache :=
  {| cache := cache c; ttl := ttl c; maxSize := maxSize c; userAgent := userAgent c;
     stats := {| hits := hits (stats c); misses := misses (stats c) + 1;
                 fetchErrors := fetchErrors (stats c);
                 urlsChecked := urlsChecked (stats c) |} |}.
Definition bumpUrlsChecked (c : RobotsCache) : RobotsCache :=
  {| cache := cache c; ttl := ttl c; maxSize := maxSize c; userAgent := userAgent c;
     stats := {| hits := hits (stats c); misses := misses (stats c);
                 fetchErrors := fetchErrors (stats c);
                 urlsChecked := urlsChecked (stats c) + 1 |} |}.
Definition onCache (f : list (string * RobotsEntry) → list (string * RobotsEntry))
    (c : RobotsCache) : RobotsCache :=
  {| cache := f (cache c); ttl := ttl c; maxSize := maxSize c;
     userAgent := userAgent c; stats := stats c |}.

(** The axios call of [fetch]: [validateStatus] accepts every status
    below 500; anything else is thrown. *)
Definition axiosGetRobots (env : Env) (robotsUrl : string) : M (Z * string) :=
  emit (EvRobotsFetch robotsUrl) ;;;
  w <- get ;;
  modify (on_calls robotsCall) ;;;
  match robotsHttp env (robotsCalls (calls w)) robotsUrl with
  | Response st body =>
      if st <? 500 then ret (st, body)
      else throw (Errors.plainError "AxiosError"
                    ("Request failed with status code " +:+ pretty st))
  | NetworkError e => throw e
  end.

(** [robotsParser(robotsUrl, robotsTxt)] *)
Definition robotsParser (env : Env) (robotsUrl txt : string) : M (string * string) :=
  if robots_parses env robotsUrl txt then ret (robotsUrl, txt)
  else throw (Errors.plainError "Error" "robots.txt could not be parsed").

(** [fetch(url)] *)
Definition fetch (env : Env) (url : string) : M RobotsEntry :=
  let origin := getCacheKey env url in
  let robotsUrl := getRobotsUrl env url in
  try_catch
    (response <- axiosGetRobots env robotsUrl ;;
     if response.1 =? 200 then
       p <- robotsParser env robotsUrl response.2 ;;
       t <- now env ;;
       ret {| origin := origin; parser := Some p; content := Some response.2;
              fetchedAt := t; exists_ := true; error := None |}
     else
       t <- now env ;;
       ret {| origin := origin; parser := None; content := None;
              fetchedAt := t; exists_ := false; error := None |})
    (λ err,
       modify (on_robots bumpFetchErrors) ;;;
       t <- now env ;;
       ret {| origin := origin; parser := None; content := None;
              fetchedAt := t; exists_ := false;
              error := Some (Errors.message err) |}).

(** The tail of [get(url)] after a miss. *)
Definition getMiss (env : Env) (url key : string) : M RobotsEntry :=
  modify (on_robots bumpMisses) ;;;
  w <- get ;;
  (if Z.of_nat (length (cache (robotsCache w))) >=? maxSize (robotsCache w) then
     match cache (robotsCache w) with
     | (oldestKey, _) :: _ => modify (on_robots (onCache (mapDelete oldestKey)))
     | [] => ret tt
     end
   else ret tt) ;;;
  robots <- fetch env url ;;
  modify (on_robots (onCache (mapSet key robots))) ;;;
  ret robots.

(** [get(url)] *)
Definition get_ (env : Env) (url : string) : M RobotsEntry :=
  let key := getCacheKey env url in
  w <- get ;;
  match mapGet key (cache (robotsCache w)) with
  | Some cached =>
      t <- now env ;;
      if t - fetchedAt cached <? ttl (robotsCache w) then
        modify (on_robots bumpHits) ;;;
        ret cached
      else
        modify (on_robots (onCache (mapDelete key))) ;;;
        getMiss env url key
  | None => getMiss env url key
  end.

(** [isAllowed(url, userAgent)] *)
Definition isAllowed (env : Env) (url : string) (ua : option string) : M bool :=
  modify (on_robots bumpUrlsChecked) ;;;
  robots <- get_ env url ;;
  match exists_ robots, parser robots with
  | true, Some (robotsUrl, txt) =>
      w <- get ;;
      let ua' := match ua with
                 | Some u => if JsString.truthy u then u else userAgent (robotsCache w)
                 | None => userAgent (robotsCache w)
                 end in
      ret (robots_isAllowed env robotsUrl txt url ua')
  | _, _ => ret true
  end.

End Robots.

(* ===================================================================== *)
(** ** The scraper ([backend/scrapers/baseScraper.js]) *)
(* ===================================================================== *)

Module BaseScraper.
Import Sys.
Local Open Scope js_scope.

(** The environment variables the module reads. *)
Record ProcessEnv := {
  env_MAX_RETRIES : option string;
  env_MAX_ITEMS_PER_CATEGORY : option string;
  env_SEARCH_KEYWORDS : option string;
  env_ROBOTS_USER_AGENT : option string
}.

(** [parseInt(process.env.MAX_RETRIES, 10) || 3] *)
Definition MAX_RETRIES (pe : ProcessEnv) : Z :=
  JsNumber.envInt (env_MAX_RETRIES pe) 3.

(** [s.split(',')] *)
Fixpoint splitComma (cur : string) (s : string) : list string :=
  match s with
  | EmptyString => [cur]
  | String c r =>
      if Ascii.eqb c "," then cur :: splitComma EmptyString r
      else splitComma (cur +:+ String c EmptyString) r
  end.

Definition SEARCH_KEYWORDS (pe : ProcessEnv) : list string :=
  match env_SEARCH_KEYWORDS pe with
  | Some s =>
      if JsString.truthy s then
        filter (λ k, JsString.truthy k = true)
               ((λ k, JsString.toLowerCase (JsString.trim k)) <$> splitComma EmptyString s)
      else ["webmethods"]
  | None => ["webmethods"]
  end.

(** The constants of an instance, fixed by the constructor. *)
Record Config := {
  name : string;
  type : string;
  sourceName : string;
  maxItems : Z;
  keywords : list string;
  robotsUserAgent : string;
  defaultMaxRetries : Z
}.

(** The constructor, called without a [config] override as the adapters
    do; [None] when it throws. *)
Definition construct (pe : ProcessEnv) (nm ty src : string) (urls : list string)
  : option (Config * Scraper) :=
  if JsString.truthy nm && JsString.truthy ty && JsString.truthy src &&
     negb (bool_decide (urls = []))
  then Some
    ({| name := nm; type := ty; sourceName := src;
        maxItems := JsNumber.envInt (env_MAX_ITEMS_PER_CATEGORY pe) 500;
        keywords := SEARCH_KEYWORDS pe;
        robotsUserAgent :=
          match env_ROBOTS_USER_AGENT pe with
          | Some u => if JsString.truthy u then u else "WebMethodsScraper/1.0"
          | None => "WebMethodsScraper/1.0"
          end;
        defaultMaxRetries := MAX_RETRIES pe |},
     {| initialUrls := urls; scrapedItems := []; processedUrls := ∅;
        failedUrls := ∅; retryAttempts := ∅; scrapingLog := None |})
  else None.

(** Updates of the instance fields. *)
Definition setLog (l : option ScrapingLog.Log) (s : Scraper) : Scraper :=
  {| initialUrls := initialUrls s; scrapedItems := scrapedItems s;
     processedUrls := processedUrls s; failedUrls := failedUrls s;
     retryAttempts := retryAttempts s; scrapingLog := l |}.
Definition setInitialUrls (us : list string) (s : Scraper) : Scraper :=
  {| initialUrls := us; scrapedItems := scrapedItems s;
     processedUrls := processedUrls s; failedUrls := failedUrls s;
     retryAttempts := retryAttempts s; scrapingLog := scrapingLog s |}.
Definition pushItem (c : Content.Item) (s : Scraper) : Scraper :=
  {| initialUrls := initialUrls s; scrapedItems := scrapedItems s ++ [c];
     processedUrls := processedUrls s; failedUrls := failedUrls s;
     retryAttempts := retryAttempts s; scrapingLog := scrapingLog s |}.
Definition markProcessed (u : string) (s : Scraper) : Scraper :=
  {| initialUrls := initialUrls s; scrapedItems := scrapedItems s;
     processedUrls := {[u]} ∪ processedUrls s; failedUrls := failedUrls s;
     retryAttempts := delete u (retryAttempts s); scrapingLog := scrapingLog s |}.
Definition markFailed (u : string) (s : Scraper) : Scraper :=
  {| initialUrls := initialUrls s; scrapedItems := scrapedItems s;
     processedUrls := processedUrls s; failedUrls := {[u]} ∪ failedUrls s;
     retryAttempts := retryAttempts s; scrapingLog := scrapingLog s |}.
Definition setAttempts (u : string) (n : Z) (s : Scraper) : Scraper :=
  {| initialUrls := initialUrls s; scrapedItems := scrapedItems s;
     processedUrls := processedUrls s; failedUrls := failedUrls s;
     retryAttempts := <[u := n]> (retryAttempts s); scrapingLog := scrapingLog s |}.
Definition resetRun (s : Scraper) : Scraper :=
  {| initialUrls := initialUrls s; scrapedItems := [];
     processedUrls := ∅; failedUrls := ∅;
     retryAttempts := retryAttempts s; scrapingLog := scrapingLog s |}.

(** A method call on [this.scrapingLog]; a [TypeError] when it is null. *)
Definition withLog (f : ScrapingLog.Log → M ScrapingLog.Log) : M unit :=
  w <- get ;;
  match scrapingLog (scraper w) with
  | Some l => l' <- f l ;; modify (on_scraper (setLog (Some l')))
  | None => throw (Errors.plainError "TypeError" "Cannot read properties of null")
  end.

Definition logAddWarning (env : Env) (msg : string) (u : option string) : M unit :=
  withLog (λ l, t <- now env ;; ret (ScrapingLog.addWarning msg u t l)).

Definition logAddError (env : Env) (d : ScrapingLog.ErrorData) : M unit :=
  withLog (λ l, t <- now env ;; ret (ScrapingLog.addError d t l)).

Definition logComplete (env : Env) (a : ScrapingLog.ResultsArg) : M unit :=
  withLog (λ l, t <- now env ;; ret (ScrapingLog.complete a t l)).

Definition logFail (env : Env) (e : Errors.JsError) : M unit :=
  withLog (λ l, t <- now env ;; t' <- now env ;; ret (ScrapingLog.fail e t t' l)).

(** The axios call of [request]: [validateStatus] accepts 200..399. *)
Definition axiosPage (env : Env) (url : string) : M string :=
  emit (EvRequest url) ;;;
  w <- get ;;
  modify (on_calls pageCall) ;;;
  match pageHttp env (pageCalls (calls w)) url with
  | Response st body =>
      if (200 <=? st) && (st <? 400) then ret body
      else throw (Errors.plainError "AxiosError"
                    ("Request failed with status code " +:+ pretty st))
  | NetworkError e => throw e
  end.

(** The [try] block of [request]. *)
Definition attempt (env : Env) (cfg : Config) (url : string) : M string :=
  allowed <- Robots.isAllowed env url (Some (robotsUserAgent cfg)) ;;
  if negb allowed then
    logAddWarning env "Robots blocked URL (skipped)" (Some url) ;;;
    throw (Errors.APIError ("Robots disallowed: " +:+ url) 403 (Some "ROBOTS_DISALLOWED"))
  else
    emit (EvAcquire url) ;;;
    body <- axiosPage env url ;;
    modify (on_scraper (markProcessed url)) ;;;
    ret body.

(** [Math.pow(2, attempts) * 1000 + Math.random() * 500] *)
Definition backoff (attempts : Z) (r : Q) : Q :=
  ((2 ^ attempts) * 1000 + r * 500)%Q.

Definition fetchErrorMessage (url : string) (maxRetries : Z) (msg : string) : string :=
  "Failed to fetch " +:+ url +:+ " after " +:+ pretty maxRetries +:+
  " attempts: " +:+ msg.

(** The [while (attempts < maxRetries)] loop of [request].  [fuel] bounds
    the number of iterations; [None] is the [undefined] returned when the
    loop ends without a fetch. *)
Fixpoint requestLoop (env : Env) (cfg : Config) (url : string) (maxRetries : Z)
    (fuel : nat) (attempts : Z) : M (option string) :=
  match fuel with
  | O => ret None
  | S fuel' =>
      if attempts <? maxRetries then
        try_catch
          (html <- attempt env cfg url ;; ret (Some html))
          (λ error,
             let attempts' := attempts + 1 in
             modify (on_scraper (setAttempts url attempts')) ;;;
             if Errors.isRobotsDisallowed error then
               modify (on_scraper (markFailed url)) ;;;
               throw error
             else
               logAddError env
                 {| ScrapingLog.d_type :=
                      if JsString.truthy (Errors.name error) then Errors.name error
                      else "RequestError";
                    ScrapingLog.d_message := Errors.message error;
                    ScrapingLog.d_url := Some url;
                    ScrapingLog.d_retryCount := attempts' |} ;;;
               if attempts' >=? maxRetries then
                 modify (on_scraper (markFailed url)) ;;;
                 throw (Errors.ScrapingError
                          (fetchErrorMessage url maxRetries (Errors.message error))
                          (Some url))
               else
                 r <- mathRandom env ;;
                 emit (EvBackoff (backoff attempts' r)) ;;;
                 requestLoop env cfg url maxRetries fuel' attempts')
      else ret None
  end.

(** [options.maxRetries || MAX_RETRIES] *)
Definition effectiveMaxRetries (cfg : Config) (optMaxRetries : option Z) : Z :=
  match optMaxRetries with
  | Some n => if n =? 0 then defaultMaxRetries cfg else n
  | None => defaultMaxRetries cfg
  end.

(** [request(url, options)] *)
Definition request (env : Env) (cfg : Config) (url : string) (optMaxRetries : option Z)
  : M (option string) :=
  let maxRetries := effectiveMaxRetries cfg optMaxRetries in
  w <- get ;;
  let attempts := default 0 (retryAttempts (scraper w) !! url) in
  requestLoop env cfg url maxRetries (Z.to_nat (maxRetries - attempts)) attempts.

Definition truthyOpt (o : option string) : bool :=
  match o with
  | Some s => JsString.truthy s
  | None => false
  end.

(** [x || fallback] on an optional string. *)
Definition orElse (o : option string) (fallback : string) : option string :=
  if truthyOpt o then o else Some fallback.

(** The text scanned by the relevance filter. *)
Definition corpus (item : Content.Item) : string :=
  JsString.toLowerCase
    (JsString.join " "
       (filter (λ s, JsString.truthy s = true)
          (default "" (Content.title item) ::
           default "" (Content.description item) ::
           Content.tags item ++ Content.keywords item ++
           [default "" (Content.source item);
            default "" (Content.sourceName item)]))).

Definition isRelevant (cfg : Config) (item : Content.Item) : bool :=
  existsb (λ k, JsString.includes (corpus item) k) (keywords cfg).

Definition stamp (cfg : Config) (item : Content.Item) : Content.Item :=
  {| Content.type_ := orElse (Content.type_ item) (type cfg);
     Content.title := Content.title item;
     Content.url := Content.url item;
     Content.description := Content.description item;
     Content.publishedAt := Content.publishedAt item;
     Content.source := Content.source item;
     Content.sourceName := orElse (Content.sourceName item) (sourceName cfg);
     Content.tags := Content.tags item;
     Content.keywords := Content.keywords item;
     Content.relevanceScore := Content.relevanceScore item;
     Content.jobDetails := Content.jobDetails item;
     Content.scrapedBy := Some (name cfg) |}.

(** [addItem(item)] *)
Definition addItem (cfg : Config) (item : Content.Item) : M unit :=
  if negb (truthyOpt (Content.title item)) || negb (truthyOpt (Content.url item)) then
    ret tt
  else if negb (isRelevant cfg item) then ret tt
  else modify (on_scraper (pushItem (stamp cfg item))).

Record Saved := {
  s_inserted : Z;
  s_modified : Z;
  s_total : Z;
  s_failed : Z
}.

(** The number of leading items that have both a url and a title. *)
Fixpoint hashable (contents : list Content.Item) : nat :=
  match contents with
  | [] => O
  | c :: rest =>
      match Content.url c, Content.title c with
      | Some _, Some _ => S (hashable rest)
      | _, _ => O
      end
  end.

(** [Content.bulkUpsert(contents)] against the store of the world. *)
Definition contentBulkUpsert (env : Env) (contents : list Content.Item)
  : M Content.UpsertResult :=
  w <- get ;;
  match Content.bulkUpsert (clock env) (ticks (calls w)) contents (store w) with
  | Some (s', r) =>
      modify (λ w, on_store (λ _, s') (Nat.iter (2 * length contents) (on_calls tick) w)) ;;;
      ret r
  | None =>
      (* the clock was read for the items before the one without url or title *)
      modify (Nat.iter (2 * hashable contents) (on_calls tick)) ;;;
      throw (Errors.plainError "TypeError" "Cannot read properties of undefined")
  end.

(** [_processAndSaveItems(items)] *)
Definition processAndSaveItems (env : Env) (cfg : Config) (items : list Content.Item)
  : M Saved :=
  match items with
  | [] => ret {| s_inserted := 0; s_modified := 0; s_total := 0; s_failed := 0 |}
  | _ =>
      try_catch
        (let limited := JsNumber.slice0 items (maxItems cfg) in
         result <- contentBulkUpsert env limited ;;
         ret {| s_inserted := Content.inserted result;
                s_modified := Content.modified result;
                s_total := Content.total result; s_failed := 0 |})
        (λ error, throw (Errors.DatabaseError
                           ("Failed saving items: " +:+ Errors.message error)))
  end.

(** The robots pre-check of the initial URLs in [run]. *)
Fixpoint precheck (env : Env) (cfg : Config) (urls : list string) : M (list string) :=
  match urls with
  | [] => ret []
  | url :: rest =>
      allowed <- Robots.isAllowed env url (Some (robotsUserAgent cfg)) ;;
      if negb allowed then
        logAddWarning env "Robots blocked initial URL (skipped)" (Some url) ;;;
        precheck env cfg rest
      else
        more <- precheck env cfg rest ;;
        ret (url :: more)
  end.

Record Details := {
  itemsFound : Z;
  itemsInserted : Z;
  itemsUpdated : Z;
  itemsSkipped : Z;
  d_urlsProcessed : Z;
  d_urlsFailed : Z;
  durationMs : Z
}.

Inductive RunResult :=
| Success (d : Details)
| Failure (error : string).

(** [ScrapingLog.startSession] as [run] calls it. *)
Definition startSession (env : Env) (cfg : Config) (triggeredBy : string)
  : M ScrapingLog.Log :=
  w <- get ;;
  t <- now env ;;
  r <- mathRandom env ;;
  started <- now env ;;
  ret (ScrapingLog.startSession
         {| ScrapingLog.sessionId := session_token env t r;
            ScrapingLog.scraperName := name cfg;
            ScrapingLog.source := sourceName cfg;
            ScrapingLog.sourceUrl := head (initialUrls (scraper w));
            ScrapingLog.triggeredBy :=
              if JsString.truthy triggeredBy then triggeredBy else "manual";
            ScrapingLog.configMaxItems := maxItems cfg;
            ScrapingLog.configKeywords := keywords cfg |}
         started).

Definition setSize (s : gset string) : Z := Z.of_nat (size s).

(** [run(triggeredBy)]; [scrapeSource] is the adapter's method. *)
Definition run (env : Env) (cfg : Config) (scrapeSource : M unit) (triggeredBy : string)
  : M RunResult :=
  startTime <- now env ;;
  modify (on_scraper resetRun) ;;;
  log <- startSession env cfg triggeredBy ;;
  modify (on_scraper (setLog (Some log))) ;;;
  finally
    (try_catch
       (w <- get ;;
        allowedInitial <- precheck env cfg (initialUrls (scraper w)) ;;
        match allowedInitial with
        | [] => throw (Errors.APIError
                         "All initial URLs are blocked by robots.txt. Nothing to scrape."
                         403 (Some "ROBOTS_DISALLOWED"))
        | _ =>
            modify (on_scraper (setInitialUrls allowedInitial)) ;;;
            scrapeSource ;;;
            w1 <- get ;;
            saved <- processAndSaveItems env cfg (scrapedItems (scraper w1)) ;;
            t <- now env ;;
            let duration := t - startTime in
            w2 <- get ;;
            let items := Z.of_nat (length (scrapedItems (scraper w2))) in
            let skipped := s_total saved - s_inserted saved - s_modified saved in
            logComplete env
              {| ScrapingLog.a_found := Some items;
                 ScrapingLog.a_inserted := Some (s_inserted saved);
                 ScrapingLog.a_updated := Some (s_modified saved);
                 ScrapingLog.a_duplicates := Some skipped;
                 ScrapingLog.a_failed := Some (s_failed saved);
                 ScrapingLog.a_urlsProcessed := Some (setSize (processedUrls (scraper w2)));
                 ScrapingLog.a_urlsFailed := Some (setSize (failedUrls (scraper w2))) |} ;;;
            w3 <- get ;;
            ret (Success
                   {| itemsFound := Z.of_nat (length (scrapedItems (scraper w3)));
                      itemsInserted := s_inserted saved;
                      itemsUpdated := s_modified saved;
                      itemsSkipped := skipped;
                      d_urlsProcessed := setSize (processedUrls (scraper w3));
                      d_urlsFailed := setSize (failedUrls (scraper w3));
                      durationMs := duration |})
        end)
       (λ error,
          w <- get ;;
          (match scrapingLog (scraper w) with
           | Some _ => logFail env error
           | None => ret tt
           end) ;;;
          ret (Failure (Errors.message error))))
    (ret tt).

(** The shape shared by the RSS adapters ([newsScraper.js],
    [jobScraper.js]): every source is requested in turn, the payload is
    parsed into candidate items, and each candidate goes to [addItem]. *)
Record Adapter := {
  sources : list (string * string);
  (** The candidates built from the payload of a source; parsing may
      throw. *)
  candidates : string * string → option string → Result (list Content.Item)
}.

Fixpoint addItems (cfg : Config) (items : list Content.Item) : M unit :=
  match items with
  | [] => ret tt
  | item :: rest => addItem cfg item ;;; addItems cfg rest
  end.

Fixpoint scrapeSources (env : Env) (cfg : Config) (a : Adapter)
    (srcs : list (string * string)) : M unit :=
  match srcs with
  | [] => ret tt
  | src :: rest =>
      xml <- request env cfg src.2 None ;;
      match candidates a src xml with
      | Ok items => addItems cfg items ;;; scrapeSources env cfg a rest
      | Throw e => throw e
      end
  end.

Definition scrapeSource (env : Env) (cfg : Config) (a : Adapter) : M unit :=
  scrapeSources env cfg a (sources a).

End BaseScraper.

(* ===================================================================== *)
(** ** Reference definitions, worded as the specification words them *)
(* ===================================================================== *)

Module Spec.

(** [SHA-256(lc(trim(url)) || "|" || lc(trim(title)))], in hex. *)
Definition contentHash (url title : string) : string :=
  SHA256.hex (JsString.toLowerCase (JsString.trim url) +:+ "|" +:+
              JsString.toLowerCase (JsString.trim title)).

(** The record stored under the hash of [op] existed before [op] was
    applied to [s] and is the same afterwards. *)
Definition existedUnchanged (op : Content.UpdateOne) (s : Content.Store) : bool :=
  match s !! Content.filterHash op with
  | Some d => bool_decide ((Content.updateOne op s).1 !! Content.filterHash op = Some d)
  | None => false
  end.

(** The number of operations of a bulk write that met an existing record
    and left it as it was. *)
Fixpoint duplicates (ops : list Content.UpdateOne) (s : Content.Store) : Z :=
  match ops with
  | [] => 0
  | op :: rest =>
      (if existedUnchanged op s then 1 else 0) + duplicates rest (Content.updateOne op s).1
  end.

(** Two stores hold the same records when [lastUpdated] is left out. *)
Definition sameModuloLastUpdated (s1 s2 : Content.Store) : Prop :=
  delete "lastUpdated" <$> s1 = delete "lastUpdated" <$> s2.

(** A record is older than [maxAgeDays] at time [now]. *)
Definition olderThan (maxAgeDays now : Z) (d : Content.Doc) : Prop :=
  ∃ t, d !! "scrapedAt" = Some (Content.VDate t) ∧ t < now - maxAgeDays * 86400000.

Definition isFlagged (d : Content.Doc) : Prop :=
  d !! "status" = Some (Content.VStr "flagged").

End Spec.

(* ===================================================================== *)
(** ** Vocabulary of the proofs *)
(* ===================================================================== *)

Module Aux.
Import Content Sys Robots BaseScraper.

(** What an operation built by [operation] writes. *)
Definition wfOp (op : UpdateOne) : Prop :=
  ∃ u t, set_ op !! "url" = Some (VStr u) ∧
         set_ op !! "title" = Some (VStr t) ∧
         set_ op !! "contentHash" = Some (VStr (filterHash op)) ∧
         filterHash op = generateHash u t.

Definition applyDoc (op : UpdateOne) (od : option Doc) : Doc :=
  match od with
  | Some d => set_ op ∪ d
  | None => set_ op ∪ (setOnInsert op ∪ {["contentHash" := VStr (filterHash op)]})
  end.

(** The fields written under hash [k] by a list of operations, the
    latest operation first. *)
Fixpoint written (k : string) (ops : list UpdateOne) : Doc :=
  match ops with
  | [] => ∅
  | op :: rest => written k rest ∪ (if decide (filterHash op = k) then set_ op else ∅)
  end.

(** Two operations built for the same item at different times. *)
Definition sameOp (o1 o2 : UpdateOne) : Prop :=
  filterHash o1 = filterHash o2 ∧
  delete "lastUpdated" (set_ o1) = delete "lastUpdated" (set_ o2).



Definition isRobotsFetch (ev : Event) : Prop :=
  match ev with EvRobotsFetch _ => True | _ => False end.

(** What a robots check may change: the cache, the call counters of the
    clock and of the robots requests, and the trace, by robots fetches. *)
Definition robotsFrame (w w' : World) : Prop :=
  scraper w' = scraper w ∧ store w' = store w ∧
  draws (calls w') = draws (calls w) ∧
  pageCalls (calls w') = pageCalls (calls w) ∧
  (ticks (calls w) ≤ ticks (calls w'))%nat ∧
  ttl (robotsCache w') = ttl (robotsCache w) ∧
  maxSize (robotsCache w') = maxSize (robotsCache w) ∧
  userAgent (robotsCache w') = userAgent (robotsCache w) ∧
  ∃ evs, trace w' = trace w ++ evs ∧ Forall isRobotsFetch evs.

(** An entry without rules: everything is allowed. *)
Definition permissive (e : RobotsEntry) : Prop :=
  exists_ e = false ∧ parser e = None.

(** The n-th robots request fails: a network error, a status the request
    rejects, or a body the parser rejects. *)
Definition robotsFetchFails (env : Env) (n : nat) (robotsUrl : string) : Prop :=
  match robotsHttp env n robotsUrl with
  | NetworkError _ => True
  | Response st body => 500 ≤ st ∨ (st = 200 ∧ robots_parses env robotsUrl body = false)
  end.

(** The entry produced by the n-th robots request, and what it adds to
    [fetchErrors]. *)
Definition fetched (env : Env) (url : string) (n : nat) (e : RobotsEntry) (errs : Z) : Prop :=
  origin e = getCacheKey env url ∧
  ((robotsFetchFails env n (getRobotsUrl env url) ∧ permissive e ∧
    is_Some (error e) ∧ errs = 1) ∨
   (¬ robotsFetchFails env n (getRobotsUrl env url) ∧ error e = None ∧ errs = 0 ∧
    (permissive e ∨
     ∃ body, robotsHttp env n (getRobotsUrl env url) = Response 200 body ∧
             robots_parses env (getRobotsUrl env url) body = true ∧
             exists_ e = true ∧ parser e = Some (getRobotsUrl env url, body)))).

(** The cached entry for [url], if it is still fresh at the next clock
    read. *)
Definition freshEntry (env : Env) (url : string) (w : World) : option RobotsEntry :=
  match mapGet (getCacheKey env url) (cache (robotsCache w)) with
  | Some e =>
      if clock env (ticks (calls w)) - fetchedAt e <? ttl (robotsCache w)
      then Some e else None
  | None => None
  end.

(** [userAgent || this.userAgent] *)
Definition effectiveUA (ua : option string) (rc : RobotsCache) : string :=
  match ua with
  | Some u => if JsString.truthy u then u else userAgent rc
  | None => userAgent rc
  end.

(** The verdict of [isAllowed] on an entry. *)
Definition entryAllows (env : Env) (url ua : string) (e : RobotsEntry) : bool :=
  match exists_ e, parser e with
  | true, Some (robotsUrl, txt) => robots_isAllowed env robotsUrl txt url ua
  | _, _ => true
  end.

(** How a call of [get] turns the cache of [w] into that of [w'] and
    returns [e]: a hit on a fresh entry, or a fetch whose result is
    stored. *)
Definition getOutcome (env : Env) (url : string) (w w' : World) (e : RobotsEntry) : Prop :=
  (freshEntry env url w = Some e ∧
   cache (robotsCache w') = cache (robotsCache w) ∧
   robotsCalls (calls w') = robotsCalls (calls w) ∧
   fetchErrors (stats (robotsCache w')) = fetchErrors (stats (robotsCache w))) ∨
  (freshEntry env url w = None ∧
   mapGet (getCacheKey env url) (cache (robotsCache w')) = Some e ∧
   (∀ k e0, k ≠ getCacheKey env url →
      mapGet k (cache (robotsCache w')) = Some e0 →
      mapGet k (cache (robotsCache w)) = Some e0) ∧
   robotsCalls (calls w') = S (robotsCalls (calls w)) ∧
   ∃ errs, fetched env url (robotsCalls (calls w)) e errs ∧
     fetchErrors (stats (robotsCache w')) = fetchErrors (stats (robotsCache w)) + errs).

(** The robots rules in force never deny [url]: neither the cached entry
    of its origin, nor any robots.txt the origin may still serve. *)
Definition robotsPermits (env : Env) (url : string) (ua : option string) (w : World) : Prop :=
  (∀ e, mapGet (getCacheKey env url) (cache (robotsCache w)) = Some e →
        entryAllows env url (effectiveUA ua (robotsCache w)) e = true) ∧
  (∀ n body, robotsHttp env n (getRobotsUrl env url) = Response 200 body →
        robots_isAllowed env (getRobotsUrl env url) body url
          (effectiveUA ua (robotsCache w)) = true).

(** The sleeps and the page requests recorded in a trace. *)
Definition backoffs (tr : list Event) : list Q :=
  omap (λ ev, match ev with EvBackoff q => Some q | _ => None end) tr.

Definition requests (tr : list Event) : list string :=
  omap (λ ev, match ev with EvRequest u => Some u | _ => None end) tr.

(** The error thrown by the n-th page request, if it fails. *)
Definition pageFails (env : Env) (n : nat) (url : string) : option Errors.JsError :=
  match pageHttp env n url with
  | Response st body =>
      if (200 <=? st) && (st <? 400) then None
      else Some (Errors.plainError "AxiosError"
                   ("Request failed with status code " +:+ pretty st))
  | NetworkError e => Some e
  end.

(** The entry [request] adds to the log for a failed attempt. *)
Definition errorData (url : string) (e : Errors.JsError) (retryCount : Z)
  : ScrapingLog.ErrorData :=
  {| ScrapingLog.d_type :=
       if JsString.truthy (Errors.name e) then Errors.name e else "RequestError";
     ScrapingLog.d_message := Errors.message e;
     ScrapingLog.d_url := Some url;
     ScrapingLog.d_retryCount := retryCount |}.

(** The world after an attempt on [url] failed with [e] and the [catch]
    block stored the new attempt count [a + 1] and logged the error. *)
Definition failedAttempt (env : Env) (url : string) (a : Z) (e : Errors.JsError)
    (l : ScrapingLog.Log) (w w' : World) : Prop :=
  (∃ t, scrapingLog (scraper w') =
          Some (ScrapingLog.addError (errorData url e (a + 1)) t l)) ∧
  retryAttempts (scraper w') = <[url := a + 1]> (retryAttempts (scraper w)) ∧
  failedUrls (scraper w') = failedUrls (scraper w) ∧
  processedUrls (scraper w') = processedUrls (scraper w) ∧
  scrapedItems (scraper w') = scrapedItems (scraper w) ∧
  initialUrls (scraper w') = initialUrls (scraper w) ∧
  store w' = store w ∧
  pageCalls (calls w') = S (pageCalls (calls w)) ∧
  draws (calls w') = draws (calls w) ∧
  ∃ evs, trace w' = trace w ++ evs ∧ backoffs evs = [] ∧ requests evs = [url].

(** The world after the rate limiter and the page request. *)
Definition afterFetch (url : string) (w : World) : World :=
  on_calls pageCall
    {| scraper := scraper w; robotsCache := robotsCache w; store := store w;
       calls := calls w; trace := (trace w ++ [EvAcquire url]) ++ [EvRequest url] |}.

Definition sleep (ms : Q) (w : World) : World :=
  {| scraper := scraper w; robotsCache := robotsCache w; store := store w;
     calls := calls w; trace := trace w ++ [EvBackoff ms] |}.

(** Every page request for [url] fails, with an error that is not the
    robots-disallowed error. *)
Definition allFail (env : Env) (url : string) : Prop :=
  ∀ n, ∃ e, pageFails env n url = Some e ∧ Errors.isRobotsDisallowed e = false.

(** The [n] sleeps that follow attempt counts [a+1], [a+2], ..., with the
    random draws numbered from [d]. *)
Fixpoint expectedBackoffs (env : Env) (a : Z) (d : nat) (n : nat) : list Q :=
  match n with
  | O => []
  | S n' => backoff (a + 1) (random env d) :: expectedBackoffs env (a + 1) (S d) n'
  end.

(** [a+1; a+2; ...; a+n] *)
Fixpoint countsFrom (a : Z) (n : nat) : list Z :=
  match n with
  | O => []
  | S n' => (a + 1) :: countsFrom (a + 1) n'
  end.

(** A computation that leaves [scrapedItems] and the content store as
    they are, whether it returns or throws. *)
Definition keepsItems {A} (m : M A) : Prop :=
  ∀ w r w', m w = (r, w') →
    scrapedItems (scraper w') = scrapedItems (scraper w) ∧ store w' = store w.

End Aux.

(* ===================================================================== *)
(** ** Concrete inputs for the examples *)
(* ===================================================================== *)

Module Demo.
Import Sys BaseScraper.

Definition session : ScrapingLog.Session :=
  {| ScrapingLog.sessionId := "scrape_demo"; ScrapingLog.scraperName := "NewsScraper";
     ScrapingLog.source := "News (RSS)"; ScrapingLog.sourceUrl := None;
     ScrapingLog.triggeredBy := "manual";
     ScrapingLog.configMaxItems := 500; ScrapingLog.configKeywords := ["webmethods"] |}.

Definition noResults : ScrapingLog.ResultsArg :=
  {| ScrapingLog.a_found := None; ScrapingLog.a_inserted := None;
     ScrapingLog.a_updated := None; ScrapingLog.a_duplicates := None;
     ScrapingLog.a_failed := None; ScrapingLog.a_urlsProcessed := None;
     ScrapingLog.a_urlsFailed := None |}.

(** An environment variable setting with [MAX_RETRIES=0]. *)
Definition pe0 : ProcessEnv :=
  {| env_MAX_RETRIES := Some "0"; env_MAX_ITEMS_PER_CATEGORY := None;
     env_SEARCH_KEYWORDS := None; env_ROBOTS_USER_AGENT := None |}.

Definition feed : string := "https://ex.com/feed".

(** The instance built by [new BaseScraper(...)] under [pe0]. *)
Definition cfg : Config :=
  {| name := "NewsScraper"; type := "news"; sourceName := "News (RSS)";
     maxItems := 500; keywords := ["webmethods"];
     robotsUserAgent := "WebMethodsScraper/1.0"; defaultMaxRetries := 3 |}.

Definition scraper0 : Scraper :=
  {| initialUrls := [feed]; scrapedItems := []; processedUrls := ∅;
     failedUrls := ∅; retryAttempts := ∅; scrapingLog := None |}.

Definition robots0 : RobotsCache :=
  {| cache := []; ttl := 3600000; maxSize := 100;
     userAgent := "WebMethodsScraper/1.0";
     stats := {| hits := 0; misses := 0; fetchErrors := 0; urlsChecked := 0 |} |}.

Definition world (s : Scraper) : World :=
  {| scraper := s; robotsCache := robots0; store := ∅;
     calls := {| ticks := 0; draws := 0; pageCalls := 0; robotsCalls := 0 |};
     trace := [] |}.

(** A world in which the run log has been opened. *)
Definition w0 : World :=
  world (setLog (Some (ScrapingLog.startSession session 0)) scraper0).

(** The site has no robots.txt and every page request gets a 503. *)
Definition envDown : Env :=
  {| clock := λ n, 1000 * Z.of_nat n;
     random := λ _, (1 # 2)%Q;
     pageHttp := λ _ _, Response 503 "";
     robotsHttp := λ _ _, Response 404 "";
     url_origin := λ _, Some "https://ex.com";
     robots_parses := λ _ _, true;
     robots_isAllowed := λ _ _ _ _, true;
     session_token := λ _ _, "scrape_demo" |}.

(** The site serves a robots.txt that disallows everything. *)
Definition envDenied : Env :=
  {| clock := λ n, 1000 * Z.of_nat n;
     random := λ _, (1 # 2)%Q;
     pageHttp := λ _ _, Response 200 "<rss/>";
     robotsHttp := λ _ _, Response 200 "User-agent: *
Disallow: /";
     url_origin := λ _, Some "https://ex.com";
     robots_parses := λ _ _, true;
     robots_isAllowed := λ _ _ _ _, false;
     session_token := λ _ _, "scrape_demo" |}.

(** [MAX_RETRIES=1]. *)
Definition pe1 : ProcessEnv :=
  {| env_MAX_RETRIES := Some "1"; env_MAX_ITEMS_PER_CATEGORY := None;
     env_SEARCH_KEYWORDS := None; env_ROBOTS_USER_AGENT := None |}.

(** The site has no robots.txt and serves its feed. *)
Definition envUp : Env :=
  {| clock := λ n, 1000 * Z.of_nat n;
     random := λ _, (1 # 2)%Q;
     pageHttp := λ _ _, Response 200 "<rss/>";
     robotsHttp := λ _ _, Response 404 "";
     url_origin := λ _, Some "https://ex.com";
     robots_parses := λ _ _, true;
     robots_isAllowed := λ _ _ _ _, true;
     session_token := λ _ _, "scrape_demo" |}.

(** The robots.txt request of the site fails. *)
Definition envRobotsDown : Env :=
  {| clock := λ n, 1000 * Z.of_nat n;
     random := λ _, (1 # 2)%Q;
     pageHttp := λ _ _, Response 200 "<rss/>";
     robotsHttp := λ _ _, NetworkError (Errors.plainError "Error" "connect ECONNREFUSED");
     url_origin := λ _, Some "https://ex.com";
     robots_parses := λ _ _, true;
     robots_isAllowed := λ _ _ _ _, false;
     session_token := λ _ _, "scrape_demo" |}.

Definition item (title url : string) (tags keywords : list string) : Content.Item :=
  {| Content.type_ := Some "news"; Content.title := Some title;
     Content.url := Some url; Content.description := None;
     Content.publishedAt := 0; Content.source := Some "ex.com";
     Content.sourceName := Some "Ex"; Content.tags := tags;
     Content.keywords := keywords; Content.relevanceScore := 50;
     Content.jobDetails := None; Content.scrapedBy := None |}.

(** A relevant item, a second one, and an item without any keyword. *)
Definition itemA : Content.Item :=
  item "webMethods X" "https://ex.com/a" ["news"; "webmethods"; "rss"] ["webmethods"].
Definition itemC : Content.Item :=
  item "webMethods Y" "https://ex.com/c" ["news"; "webmethods"; "rss"] ["webmethods"].
Definition itemB : Content.Item := item "Unrelated" "https://ex.com/b" [] [].

Definition adapterOf (items : list Content.Item) : Adapter :=
  {| sources := [("Ex", feed)]; candidates := λ _ _, Ok items |}.

(** The same instance with [MAX_ITEMS_PER_CATEGORY=1]. *)
Definition cfgOne : Config :=
  {| name := "NewsScraper"; type := "news"; sourceName := "News (RSS)";
     maxItems := 1; keywords := ["webmethods"];
     robotsUserAgent := "WebMethodsScraper/1.0"; defaultMaxRetries := 3 |}.

Definition ticks0 : nat → Z := λ n, 1000 * Z.of_nat n.

Definition upserted : option (Content.Store * Content.UpsertResult) :=
  Content.bulkUpsert ticks0 0 [itemA; itemB] ∅.
Definition storeAfter : Content.Store := default ∅ (fst <$> upserted).
Definition resultAfter : Content.UpsertResult :=
  default {| Content.inserted := 0; Content.modified := 0; Content.total := 0 |}
          (snd <$> upserted).

Definition okSome {A} (x : option A) : bool :=
  match x with Some _ => true | None => false end.

Definition succeeded (r : Result RunResult * World) : bool :=
  match r.1 with Ok (Success _) => true | _ => false end.

Definition noDetails : Details :=
  {| itemsFound := 0; itemsInserted := 0; itemsUpdated := 0; itemsSkipped := 0;
     d_urlsProcessed := 0; d_urlsFailed := 0; durationMs := 0 |}.

Definition detailsOf (r : Result RunResult * World) : Details :=
  match r.1 with
  | Ok (Success d) => d
  | _ => noDetails
  end.

(** A run in which the only candidate fails the relevance filter. *)
Abbreviation runFiltered :=
  (run envUp cfg (scrapeSource envUp cfg (adapterOf [itemB])) "manual" (world scraper0))
  (only parsing).

(** A run with two relevant candidates and [maxItems = 1]. *)
Abbreviation runTruncated :=
  (run envUp cfgOne (scrapeSource envUp cfgOne (adapterOf [itemA; itemC])) "manual"
       (world scraper0))
  (only parsing).

(** The world after the robots check of [feed] was denied. *)
Definition wDenied : World :=
  (Robots.isAllowed envDenied feed (Some (robotsUserAgent cfg)) w0).2.

End Demo.

(* ===================================================================== *)
(** ** Run log: virtual properties and vocabulary *)
(* ===================================================================== *)

Module LogView.
Import ScrapingLog.

(** The virtual [errorCount]: [this.errorLogs ? this.errorLogs.length : 0]. *)
Definition errorCount (l : Log) : Z := Z.of_nat (length (errorLogs l)).

(** The virtual [hasErrors]. *)
Definition hasErrors (l : Log) : bool := 0 <? Z.of_nat (length (errorLogs l)).

(** [status], [endedAt] and [duration] agree: an open log is running with
    duration 0, a closed one is completed, failed or cancelled and its
    duration is [endedAt - startedAt]. *)
Definition coherent (l : Log) : Prop :=
  match endedAt l with
  | Some t => status l ∈ [Completed; Failed; Cancelled] ∧ duration l = t - startedAt l
  | None => status l = Running ∧ duration l = 0
  end.

(** The calls that append to [errorLogs], and those that append to
    [warnings]. *)
Definition logsError (c : Call) : bool :=
  match c with CAddError _ _ | CFail _ _ _ => true | _ => false end.

Definition logsWarning (c : Call) : bool :=
  match c with CAddWarning _ _ _ => true | _ => false end.

(** What a call adds to the [found] counter when it is an
    [updateResults]. *)
Definition foundDelta (c : Call) : Z :=
  match c with CUpdateResults a => default 0 (a_found a) | _ => 0 end.

Definition isComplete (c : Call) : bool :=
  match c with CComplete _ _ => true | _ => false end.

End LogView.

(* ===================================================================== *)
(** ** Content: virtual properties and paging ([backend/models/Content.js]) *)
(* ===================================================================== *)

Module ContentView.

(** The virtual [shortDescription]. *)
Definition shortDescription (description : option string) : string :=
  match description with
  | Some d =>
      if JsString.truthy d then
        if (200 <? String.length d)%nat then String.substring 0 200 d +:+ "..." else d
      else ""
  | None => ""
  end.

(** The virtual [age] at time [now]; [None] is [null]. *)
Definition age (now : Z) (publishedAt : option Z) : option string :=
  match publishedAt with
  | None => None
  | Some published =>
      let diffMs := now - published in
      let diffDays := diffMs / (1000 * 60 * 60 * 24) in
      Some (if diffDays =? 0 then "Today"
            else if diffDays =? 1 then "Yesterday"
            else if diffDays <? 7 then pretty diffDays +:+ " days ago"
            else if diffDays <? 30 then pretty (diffDays / 7) +:+ " weeks ago"
            else if diffDays <? 365 then pretty (diffDays / 30) +:+ " months ago"
            else pretty (diffDays / 365) +:+ " years ago")
  end.

(** A JavaScript number that may be infinite or NaN. *)
Inductive JsNum := Num (z : Z) | Infinity | NegInfinity | NaN.

(** [Math.ceil(total / limit)] on integers. *)
Definition ceilDiv (total limit : Z) : JsNum :=
  if limit =? 0 then
    if total =? 0 then NaN else if 0 <? total then Infinity else NegInfinity
  else Num (- ((- total) / limit)).

(** [page < pages] *)
Definition ltNum (page : Z) (pages : JsNum) : bool :=
  match pages with
  | Num z => page <? z
  | Infinity => true
  | NegInfinity | NaN => false
  end.

Record Pagination := {
  page : Z;
  limit : Z;
  total : Z;
  pages : JsNum;
  hasNext : bool;
  hasPrev : bool
}.

(** The [pagination] object built by [findByType], [search] and
    [ScrapingLog.getRecent]. *)
Definition pagination (page limit total : Z) : Pagination :=
  {| page := page; limit := limit; total := total;
     pages := ceilDiv total limit;
     hasNext := ltNum page (ceilDiv total limit);
     hasPrev := 1 <? page |}.

(** [(page - 1) * limit] *)
Definition skipOf (page limit : Z) : Z := (page - 1) * limit.

(** What [.skip(skip).limit(limit)] keeps of the matching documents in
    sort order, for a non-negative [skip] and a positive [limit]. *)
Definition window {A} (matches : list A) (page limit : Z) : list A :=
  take (Z.to_nat limit) (drop (Z.to_nat (skipOf page limit)) matches).

End ContentView.

Module StoreTerms.
Import Content.

(** The hash [bulkUpsert] files an item under. *)
Definition hashOf (c : Item) : option string :=
  u ← url c; t ← title c; Some (generateHash u t).

Definition hashes (contents : list Item) : list string := omap hashOf contents.

End StoreTerms.

Module StoreDemo.

(** The hash and the stored record of [Demo.itemA] after the first upsert,
    and the result of upserting the same batch again later. *)
Definition hashA : string := Content.generateHash "https://ex.com/a" "webMethods X".
Definition docA : Content.Doc := default ∅ (Demo.storeAfter !! hashA).

Definition upsertedAgain : option (Content.Store * Content.UpsertResult) :=
  Content.bulkUpsert Demo.ticks0 7 [Demo.itemA; Demo.itemB] Demo.storeAfter.
Definition storeAgain : Content.Store := default ∅ (fst <$> upsertedAgain).
Definition resultAgain : Content.UpsertResult :=
  default {| Content.inserted := 0; Content.modified := 0; Content.total := 0 |}
          (snd <$> upsertedAgain).

End StoreDemo.

Module FilterDemo.
Import Sys BaseScraper.

(** An item whose text does not mention the keyword, carrying the
    configured keywords as the adapters attach them. *)
Definition itemU : Content.Item :=
  Demo.item "Unrelated" "https://ex.com/u" [] (keywords Demo.cfg).

(** [SEARCH_KEYWORDS] set to commas and blanks. *)
Definition peBlank : ProcessEnv :=
  {| env_MAX_RETRIES := None; env_MAX_ITEMS_PER_CATEGORY := None;
     env_SEARCH_KEYWORDS := Some " , ,"; env_ROBOTS_USER_AGENT := None |}.

Definition cfgBlank : Config :=
  {| name := "NewsScraper"; type := "news"; sourceName := "News (RSS)";
     maxItems := 500; keywords := [];
     robotsUserAgent := "WebMethodsScraper/1.0"; defaultMaxRetries := 3 |}.

End FilterDemo.

Module RetryTerms.
Import Sys Aux.

(** The page requests numbered [p], [p+1], ..., [p+k-1] for [url] fail,
    with errors other than robots-disallowed. *)
Definition failsFrom (env : Env) (url : string) (p k : nat) : Prop :=
  ∀ i, (i < k)%nat →
    ∃ e, pageFails env (p + i)%nat url = Some e ∧ Errors.isRobotsDisallowed e = false.

(** The page request numbered [n] for [url] is answered with [body] and a
    status the request accepts. *)
Definition succeedsAt (env : Env) (url : string) (n : nat) (body : string) : Prop :=
  ∃ st, pageHttp env n url = Response st body ∧ 200 ≤ st < 400.

End RetryTerms.

Module RetryDemo.
Import Sys.

(** The site has no robots.txt; its first two page requests fail with a
    503 and the third is served. *)
Definition envFlaky : Env :=
  {| clock := λ n, 1000 * Z.of_nat n;
     random := λ _, (1 # 2)%Q;
     pageHttp := λ n _, if (n <? 2)%nat then Response 503 "" else Response 200 "<rss/>";
     robotsHttp := λ _ _, Response 404 "";
     url_origin := λ _, Some "https://ex.com";
     robots_parses := λ _ _, true;
     robots_isAllowed := λ _ _ _ _, true;
     session_token := λ _ _, "scrape_demo" |}.

End RetryDemo.

(* ===================================================================== *)
(** ** Robots cache: the URL filter ([filterUrlsByRobots]) *)
(* ===================================================================== *)

Module RobotsFilter.
Import Sys Robots.
Local Open Scope js_scope.

(** [cache.isDisallowed(url, userAgent)] *)
Definition isDisallowed (env : Env) (url : string) (ua : option string) : M bool :=
  allowed <- isAllowed env url ua ;;
  ret (negb allowed).

(** The loop of [filterUrlsByRobots], with the two arrays it fills. *)
Fixpoint filterLoop (env : Env) (ua : option string) (urls : list string)
    (allowed disallowed : list string) : M (list string * list string) :=
  match urls with
  | [] => ret (allowed, disallowed)
  | url :: rest =>
      lists <- try_catch
                 (ok <- isAllowed env url ua ;;
                  if ok then ret (allowed ++ [url], disallowed)
                  else ret (allowed, disallowed ++ [url]))
                 (λ error, ret (allowed ++ [url], disallowed)) ;;
      filterLoop env ua rest lists.1 lists.2
  end.

(** [filterUrlsByRobots(urls, cache, userAgent)] *)
Definition filterUrlsByRobots (env : Env) (urls : list string) (ua : option string)
  : M (list string * list string) :=
  filterLoop env ua urls [] [].

End RobotsFilter.

Module RobotsTerms.
Import Sys Robots Aux.

(** How one call of [get] moves the counters and the trace: a hit adds one
    to [hits]; a miss adds one to [misses] and makes one robots request. *)
Definition usage (hit : bool) (robotsUrl : string) (w w' : World) : Prop :=
  hits (stats (robotsCache w')) = hits (stats (robotsCache w)) + (if hit then 1 else 0) ∧
  misses (stats (robotsCache w')) = misses (stats (robotsCache w)) + (if hit then 0 else 1) ∧
  urlsChecked (stats (robotsCache w')) = urlsChecked (stats (robotsCache w)) ∧
  robotsCalls (calls w') = (robotsCalls (calls w) + (if hit then 0 else 1))%nat ∧
  trace w' = trace w ++ (if hit then [] else [EvRobotsFetch robotsUrl]) ∧
  maxSize (robotsCache w') = maxSize (robotsCache w).

(** The capacity the cache respects: [maxSize], and one entry at least. *)
Definition capacity (c : RobotsCache) : Z := Z.max 1 (maxSize c).

Definition cacheSize (c : RobotsCache) : Z := Z.of_nat (length (cache c)).

End RobotsTerms.

(* ===================================================================== *)
(** ** The robots.txt reader ([parseRobotsTxtContent]) *)
(* ===================================================================== *)

Module RobotsTxt.
Import JsString.

(** [s.split(c)] for a one-character separator. *)
Fixpoint splitAt (c : ascii) (cur : string) (s : string) : list string :=
  match s with
  | EmptyString => [cur]
  | String x r =>
      if Ascii.eqb x c then cur :: splitAt c EmptyString r
      else splitAt c (cur +:+ String x EmptyString) r
  end.

(** [s.split(c)[0]]: the text before the first [c]. *)
Definition firstPiece (c : ascii) (s : string) : string :=
  match splitAt c EmptyString s with
  | p :: _ => p
  | [] => EmptyString
  end.

(** [s.indexOf(c)]; [None] is -1. *)
Fixpoint indexOf (c : ascii) (s : string) : option nat :=
  match s with
  | EmptyString => None
  | String x r => if Ascii.eqb x c then Some O else S <$> indexOf c r
  end.

(** The agent names that a plain object answers without having been
    given them: the lower-case property names of [Object.prototype]. *)
Definition inherited (key : string) : bool :=
  bool_decide (key = "constructor") || bool_decide (key = "__proto__").

Section Reader.
(** The numbers [parseFloat] produces are left abstract. *)
Context {F : Type} (parseFloat : string → F).

Record Rules := {
  userAgents : gmap string (list string * list string);  (* allow, disallow *)
  sitemaps : list string;
  host : option string;
  crawlDelays : gmap string F
}.

Definition noRules : Rules :=
  {| userAgents := ∅; sitemaps := []; host := None; crawlDelays := ∅ |}.

(** The directive and the value of a line that has a colon. *)
Definition fields (line : string) : option (string * string) :=
  match indexOf ":" line with
  | None => None
  | Some colonIndex =>
      Some (toLowerCase (trim (String.substring 0 colonIndex line)),
            trim (String.substring (S colonIndex) (String.length line) line))
  end.

(** What is left of a raw line once the comment is cut off. *)
Definition clean (raw : string) : string := trim (firstPiece "#" raw).

Definition setAgents (f : gmap string (list string * list string) →
                          gmap string (list string * list string)) (r : Rules) : Rules :=
  {| userAgents := f (userAgents r); sitemaps := sitemaps r; host := host r;
     crawlDelays := crawlDelays r |}.

(** [rules.userAgents[agent].allow.push(value)], and the same for
    [disallow]; a [TypeError] when [rules.userAgents[agent]] has no such
    list. *)
Definition pushRule (allow : bool) (agent value : string) (r : Rules) : Sys.Result Rules :=
  match userAgents r !! agent with
  | Some (al, dl) =>
      Sys.Ok (setAgents (<[agent := if allow then (al ++ [value], dl)
                                     else (al, dl ++ [value])]>) r)
  | None => Sys.Throw (Errors.plainError "TypeError"
                         "Cannot read properties of undefined (reading 'push')")
  end.

(** The body of the loop: one line, with the rules and the current agent
    ([None] is [null]). *)
Definition step (st : Rules * option string) (raw : string)
  : Sys.Result (Rules * option string) :=
  let '(r, current) := st in
  let line := clean raw in
  if negb (truthy line) then Sys.Ok st
  else
    match fields line with
    | None => Sys.Ok st
    | Some (directive, value) =>
        if String.eqb directive "user-agent" then
          let agent := toLowerCase value in
          Sys.Ok (if inherited agent || bool_decide (is_Some (userAgents r !! agent))
                  then r else setAgents (<[agent := ([], [])]>) r,
                  Some agent)
        else if String.eqb directive "disallow" then
          match current with
          | Some agent =>
              if truthy agent && truthy value then
                match pushRule false agent value r with
                | Sys.Ok r' => Sys.Ok (r', current)
                | Sys.Throw e => Sys.Throw e
                end
              else Sys.Ok st
          | None => Sys.Ok st
          end
        else if String.eqb directive "allow" then
          match current with
          | Some agent =>
              if truthy agent && truthy value then
                match pushRule true agent value r with
                | Sys.Ok r' => Sys.Ok (r', current)
                | Sys.Throw e => Sys.Throw e
                end
              else Sys.Ok st
          | None => Sys.Ok st
          end
        else if String.eqb directive "sitemap" then
          if truthy value then
            Sys.Ok ({| userAgents := userAgents r; sitemaps := sitemaps r ++ [value];
                       host := host r; crawlDelays := crawlDelays r |}, current)
          else Sys.Ok st
        else if String.eqb directive "host" then
          Sys.Ok ({| userAgents := userAgents r; sitemaps := sitemaps r;
                     host := Some value; crawlDelays := crawlDelays r |}, current)
        else if String.eqb directive "crawl-delay" then
          match current with
          | Some agent =>
              if truthy agent then
                Sys.Ok ({| userAgents := userAgents r; sitemaps := sitemaps r;
                           host := host r;
                           crawlDelays :=
                             if bool_decide (agent = "__proto__") then crawlDelays r
                             else <[agent := parseFloat value]> (crawlDelays r) |},
                        current)
              else Sys.Ok st
          | None => Sys.Ok st
          end
        else Sys.Ok st
    end.

(** The loop over the lines. *)
Fixpoint readLines (st : Rules * option string) (lines : list string)
  : Sys.Result (Rules * option string) :=
  match lines with
  | [] => Sys.Ok st
  | raw :: rest =>
      match step st raw with
      | Sys.Ok st' => readLines st' rest
      | Sys.Throw e => Sys.Throw e
      end
  end.

(** [parseRobotsTxtContent(content)]; [Ok None] is [null]. *)
Definition parseRobotsTxtContent (content : option string) : Sys.Result (option Rules) :=
  match content with
  | None => Sys.Ok None
  | Some text =>
      if negb (truthy text) then Sys.Ok None
      else
        match readLines (noRules, None) (splitAt "010" EmptyString text) with
        | Sys.Ok (r, _) => Sys.Ok (Some r)
        | Sys.Throw e => Sys.Throw e
        end
  end.

End Reader.

Arguments Rules : clear implicits.

End RobotsTxt.

Module RobotsTxtTerms.
Import JsString RobotsTxt.

(** The agent a raw line names, if it is a [User-agent] line. *)
Definition agentOf (raw : string) : option string :=
  match fields (clean raw) with
  | Some (directive, value) =>
      if truthy (clean raw) && String.eqb directive "user-agent"
      then Some (toLowerCase value) else None
  | None => None
  end.

(** A rule value as the reader records it: not empty, and without blanks
    at either end. *)
Definition recorded (v : string) : Prop := truthy v = true ∧ trim v = v.

(** What the reader guarantees about the rules it has built. *)
Definition tidy {F} (r : Rules F) : Prop :=
  (∀ agent al dl, userAgents r !! agent = Some (al, dl) →
     toLowerCase agent = agent ∧ inherited agent = false ∧
     Forall recorded al ∧ Forall recorded dl) ∧
  (∀ agent, is_Some (crawlDelays r !! agent) →
     toLowerCase agent = agent ∧ truthy agent = true ∧ agent ≠ "__proto__") ∧
  Forall recorded (sitemaps r).

(** What holds between the rules and the current agent while the reader
    runs: the agent is in lower case and, unless every object answers to
    its name, has its entry. *)
Definition agentKnown {F} (st : Rules F * option string) : Prop :=
  match st.2 with
  | Some agent =>
      toLowerCase agent = agent ∧
      (inherited agent = false → is_Some (userAgents st.1 !! agent))
  | None => True
  end.

(** A small robots.txt, and one with a group named "constructor". *)
Definition sample : string := "User-agent: *
Disallow: /private  # staff only
Sitemap: https://ex.com/sitemap.xml".

Definition hostile : string := "User-agent: Constructor
Disallow: /x".

End RobotsTxtTerms.

(* ===================================================================== *)
(** ** The concurrency gate ([ConcurrentLimiter], [backend/utils/rateLimiter.js]) *)
(* ===================================================================== *)

Module ConcurrentLimiter.

(** An instance.  The queue holds the callers whose promise is pending,
    each standing for the closure that will take a slot and resolve it. *)
Record Limiter := {
  maxConcurrent : Z;
  currentCount : Z;
  queue : list nat
}.

(** The instance after the constructor, with [maxConcurrent] as read. *)
Definition fresh (maxConcurrent : Z) : Limiter :=
  {| maxConcurrent := maxConcurrent; currentCount := 0; queue := [] |}.

(** [acquire()] called by [who]: [true] when the slot is given at once,
    [false] when the caller is queued. *)
Definition acquire (who : nat) (l : Limiter) : Limiter * bool :=
  if currentCount l <? maxConcurrent l then
    ({| maxConcurrent := maxConcurrent l; currentCount := currentCount l + 1;
        queue := queue l |}, true)
  else
    ({| maxConcurrent := maxConcurrent l; currentCount := currentCount l;
        queue := queue l ++ [who] |}, false).

(** [release()]: the caller at the head of the queue, if any, takes the
    slot. *)
Definition release (l : Limiter) : Limiter * option nat :=
  match queue l with
  | next :: rest =>
      ({| maxConcurrent := maxConcurrent l; currentCount := currentCount l - 1 + 1;
          queue := rest |}, Some next)
  | [] =>
      ({| maxConcurrent := maxConcurrent l; currentCount := currentCount l - 1;
          queue := [] |}, None)
  end.

(** [reset()] *)
Definition reset (l : Limiter) : Limiter :=
  {| maxConcurrent := maxConcurrent l; currentCount := 0; queue := [] |}.

(** What the callers do: ask for a slot, or give back the one they hold. *)
Inductive Op := Acquire (who : nat) | Release (who : nat).

(** One operation on the limiter, with the list of the callers that hold
    a slot. *)
Definition step (st : Limiter * list nat) (op : Op) : Limiter * list nat :=
  match op with
  | Acquire who =>
      let '(l, now) := acquire who st.1 in
      (l, if now then st.2 ++ [who] else st.2)
  | Release who =>
      let '(l, next) := release st.1 in
      (l, filter (λ h, h ≠ who) st.2 ++ option_list next)
  end.

(** The callers follow the protocol of [execute]: a caller releases only
    a slot it holds, and asks for one only when it neither holds one nor
    waits for one. *)
Fixpoint disciplined (ops : list Op) (st : Limiter * list nat) : Prop :=
  match ops with
  | [] => True
  | op :: rest =>
      (match op with
       | Acquire who => (who ∉ snd st) ∧ (who ∉ queue (fst st))
       | Release who => who ∈ snd st
       end) ∧ disciplined rest (step st op)
  end.

(** The limiter and its holders agree, and the gate is respected. *)
Definition safe (st : Limiter * list nat) : Prop :=
  currentCount st.1 = Z.of_nat (length st.2) ∧
  currentCount st.1 ≤ maxConcurrent st.1 ∧
  (queue st.1 ≠ [] → currentCount st.1 = maxConcurrent st.1) ∧
  NoDup (st.2 ++ queue st.1).

(** The callers that get a slot through one operation, and through a
    sequence of operations, in the order they get it. *)
Definition grantedBy (st : Limiter * list nat) (op : Op) : list nat :=
  match op with
  | Acquire who => if (acquire who st.1).2 then [who] else []
  | Release _ => option_list (release st.1).2
  end.

Fixpoint grants (ops : list Op) (st : Limiter * list nat) : list nat :=
  match ops with
  | [] => []
  | op :: rest => grantedBy st op ++ grants rest (step st op)
  end.

(** The callers that asked for a slot, in the order they asked. *)
Definition asked (ops : list Op) : list nat :=
  omap (λ op, match op with Acquire who => Some who | Release _ => None end) ops.

End ConcurrentLimiter.

(* ===================================================================== *)
(** ** The request pacer ([ScrapingRateLimiter], [backend/utils/rateLimiter.js]) *)
(* ===================================================================== *)

Module RateLimiter.

Record BucketConfig := {
  c_maxTokens : Q;
  c_refillRate : Q;
  c_minDelay : Z;
  c_maxDelay : Z
}.

(** A per-domain bucket: [{ tokens, lastRefill, ...config }]. *)
Record Bucket := {
  tokens : Q;
  lastRefill : Z;
  maxTokens : Q;
  refillRate : Q;
  minDelay : Z;
  maxDelay : Z
}.

Record Stats := {
  totalRequests : Z;
  throttledRequests : Z;
  averageWaitTime : Q;
  requestsByDomain : gmap string Z
}.

(** The fields of an instance that [acquire] uses. *)
Record Limiter := {
  l_minDelay : Z;
  l_maxDelay : Z;
  domainBuckets : gmap string Bucket;
  stats : Stats
}.

(** What the outside answers, and what has been asked of it so far. *)
Record Clock := {
  clock : nat → Z;
  random : nat → Q;
  (** [new URL(url).hostname]; [None] when the constructor throws. *)
  hostnameOf : string → option string
}.

Record Run := {
  limiter : Limiter;
  ticks : nat;
  draws : nat;
  (** The sleeps, in milliseconds, in the order they were made. *)
  sleeps : list Q
}.

Definition defaultConfig : BucketConfig :=
  {| c_maxTokens := 5; c_refillRate := 0.5; c_minDelay := 2000; c_maxDelay := 5000 |}.

(** The table [this.domainConfig] of the constructor. *)
Definition domainConfig : list (string * BucketConfig) :=
  [("default", defaultConfig);
   ("google.com",
    {| c_maxTokens := 3; c_refillRate := 0.3; c_minDelay := 3000; c_maxDelay := 8000 |});
   ("linkedin.com",
    {| c_maxTokens := 2; c_refillRate := 0.2; c_minDelay := 5000; c_maxDelay := 10000 |});
   ("indeed.com",
    {| c_maxTokens := 3; c_refillRate := 0.3; c_minDelay := 3000; c_maxDelay := 7000 |});
   ("twitter.com",
    {| c_maxTokens := 2; c_refillRate := 0.2; c_minDelay := 4000; c_maxDelay := 8000 |});
   ("github.com",
    {| c_maxTokens := 5; c_refillRate := 0.5; c_minDelay := 2000; c_maxDelay := 4000 |})].

(** The property names every object answers to.  Under such a name
    [this.domainConfig[name]] is not a configuration; these domains are
    left out of the model. *)
Definition objectPrototypeNames : list string :=
  ["constructor"; "__defineGetter__"; "__defineSetter__"; "hasOwnProperty";
   "__lookupGetter__"; "__lookupSetter__"; "isPrototypeOf"; "propertyIsEnumerable";
   "toString"; "valueOf"; "__proto__"; "toLocaleString"].

(** [this.domainConfig[baseDomain] || this.domainConfig.default] *)
Definition configFor (baseDomain : string) : option BucketConfig :=
  if bool_decide (baseDomain ∈ objectPrototypeNames) then None
  else Some (default defaultConfig (Robots.mapGet baseDomain domainConfig)).

(** [parts.slice(-2)] *)
Definition lastTwo (parts : list string) : list string :=
  drop (length parts - 2) parts.

(** [extractBaseDomain(urlOrDomain)] *)
Definition extractBaseDomain (c : Clock) (urlOrDomain : string) : string :=
  match (if JsString.includes urlOrDomain "://" then hostnameOf c urlOrDomain
         else Some urlOrDomain) with
  | None => "unknown"
  | Some hostname =>
      let hostname := Robots.stripPrefix "www." hostname in
      let parts := RobotsTxt.splitAt "." EmptyString hostname in
      if (2 <=? length parts)%nat then JsString.join "." (lastTwo parts) else hostname
  end.

(** [Math.min(a, b)] and [a < b] on rationals. *)
Definition qmin (a b : Q) : Q := if Qle_bool a b then a else b.
Definition qlt (a b : Q) : bool := negb (Qle_bool b a).

(** [Math.min(bucket.maxTokens, bucket.tokens + added)] written back to
    the bucket, with the time of the refill. *)
Definition topUp (added : Q) (lastRefill : Z) (b : Bucket) : Bucket :=
  {| tokens := qmin (maxTokens b) (tokens b + added); lastRefill := lastRefill;
     maxTokens := maxTokens b; refillRate := refillRate b;
     minDelay := minDelay b; maxDelay := maxDelay b |}.

Definition tick (r : Run) : Run :=
  {| limiter := limiter r; ticks := S (ticks r); draws := draws r; sleeps := sleeps r |}.

Definition onLimiter (f : Limiter → Limiter) (r : Run) : Run :=
  {| limiter := f (limiter r); ticks := ticks r; draws := draws r; sleeps := sleeps r |}.

Definition setBucket (key : string) (b : Bucket) (l : Limiter) : Limiter :=
  {| l_minDelay := l_minDelay l; l_maxDelay := l_maxDelay l;
     domainBuckets := <[key := b]> (domainBuckets l); stats := stats l |}.

Definition setStats (s : Stats) (l : Limiter) : Limiter :=
  {| l_minDelay := l_minDelay l; l_maxDelay := l_maxDelay l;
     domainBuckets := domainBuckets l; stats := s |}.

Definition delay (ms : Q) (r : Run) : Run :=
  {| limiter := limiter r; ticks := ticks r; draws := draws r; sleeps := sleeps r ++ [ms] |}.

(** [getDomainBucket(domain)]: the key of the bucket, the bucket after
    its refill, and the run; [None] for a domain outside the model. *)
Definition getDomainBucket (c : Clock) (domain : string) (r : Run)
  : option (string * Bucket * Run) :=
  let baseDomain := extractBaseDomain c domain in
  match
    match domainBuckets (limiter r) !! baseDomain with
    | Some b => Some (b, r)
    | None =>
        config ← configFor baseDomain;
        Some ({| tokens := c_maxTokens config; lastRefill := clock c (ticks r);
                 maxTokens := c_maxTokens config; refillRate := c_refillRate config;
                 minDelay := c_minDelay config; maxDelay := c_maxDelay config |},
              tick r)
    end
  with
  | Some (bucket, r1) =>
      let now := clock c (ticks r1) in
      let elapsed := (inject_Z (now - lastRefill bucket) / 1000)%Q in
      let bucket' := topUp (elapsed * refillRate bucket)%Q now bucket in
      Some (baseDomain, bucket', onLimiter (setBucket baseDomain bucket') (tick r1))
  | None => None
  end.

(** [getRandomDelay(bucket)], with the random number drawn. *)
Definition getRandomDelay (l : Limiter) (bucket : Bucket) (rnd : Q) : Z :=
  let minDelay := if minDelay bucket =? 0 then l_minDelay l else minDelay bucket in
  let maxDelay := if maxDelay bucket =? 0 then l_maxDelay l else maxDelay bucket in
  Qfloor (rnd * inject_Z (maxDelay - minDelay + 1)) + minDelay.

(** [acquire(url)] *)
Definition acquire (c : Clock) (url : string) (r : Run) : option Run :=
  let startTime := clock c (ticks r) in
  let r := tick r in
  let domain := extractBaseDomain c url in
  '(key, bucket, r) ← getDomainBucket c domain r;
  let s := stats (limiter r) in
  let total := totalRequests s + 1 in
  let domainCount := default 0 (requestsByDomain s !! domain) in
  let byDomain := <[domain := domainCount + 1]> (requestsByDomain s) in
  let throttled := qlt (tokens bucket) 1 in
  let waitTime := (((1 - tokens bucket) / refillRate bucket) * 1000)%Q in
  let bucket1 :=
    if throttled then topUp ((waitTime / 1000) * refillRate bucket)%Q (lastRefill bucket) bucket
    else bucket in
  let r := if throttled then delay waitTime r else r in
  let bucket2 :=
    {| tokens := tokens bucket1 - 1; lastRefill := lastRefill bucket1;
       maxTokens := maxTokens bucket1; refillRate := refillRate bucket1;
       minDelay := minDelay bucket1; maxDelay := maxDelay bucket1 |} in
  let randomDelay := getRandomDelay (limiter r) bucket2 (random c (draws r)) in
  let r := delay (inject_Z randomDelay)
             {| limiter := limiter r; ticks := ticks r; draws := S (draws r);
                sleeps := sleeps r |} in
  let totalWaitTime := clock c (ticks r) - startTime in
  let r := tick r in
  Some (onLimiter
          (λ l, setStats
                  {| totalRequests := total;
                     throttledRequests :=
                       if throttled then throttledRequests s + 1 else throttledRequests s;
                     averageWaitTime :=
                       ((averageWaitTime s * inject_Z (total - 1) + inject_Z totalWaitTime)
                        / inject_Z total)%Q;
                     requestsByDomain := byDomain |}
                  (setBucket key bucket2 l))
          r).

(** [resetStats()] *)
Definition resetStats (l : Limiter) : Limiter :=
  setStats {| totalRequests := 0; throttledRequests := 0; averageWaitTime := 0;
              requestsByDomain := ∅ |} l.

(** The sum of the per-domain counters. *)
Definition domainTotal (m : gmap string Z) : Z := map_fold (λ _ n acc, n + acc) 0 m.

(** The counters agree: the total is the sum over the domains, every
    domain listed was requested, and no more requests were throttled than
    were made. *)
Definition consistent (s : Stats) : Prop :=
  totalRequests s = domainTotal (requestsByDomain s) ∧
  0 ≤ throttledRequests s ≤ totalRequests s ∧
  map_Forall (λ _ n, 1 ≤ n) (requestsByDomain s).

(** Every bucket refills at a positive rate and holds no more than its
    capacity. *)
Definition capped (l : Limiter) : Prop :=
  map_Forall (λ _ b, (0 < refillRate b)%Q ∧ (tokens b <= maxTokens b)%Q) (domainBuckets l).

End RateLimiter.

Module LimiterDemo.
Import RateLimiter.

Definition clock0 : Clock :=
  {| clock := λ n, 1000 * Z.of_nat n; random := λ _, (1 # 2)%Q;
     hostnameOf := λ _, Some "www.indeed.com" |}.

Definition limiter0 : Limiter :=
  resetStats {| l_minDelay := 2000; l_maxDelay := 5000; domainBuckets := ∅;
                stats := {| totalRequests := 0; throttledRequests := 0;
                            averageWaitTime := 0; requestsByDomain := ∅ |} |}.

Definition run0 : Run := {| limiter := limiter0; ticks := 0; draws := 0; sleeps := [] |}.

Definition indeedBucket : Bucket :=
  {| tokens := 3; lastRefill := 0; maxTokens := 3; refillRate := 0.3;
     minDelay := 3000; maxDelay := 7000 |}.

End LimiterDemo.

(* ===================================================================== *)
(** ** The error middleware ([backend/middleware/errorHandler.js]) *)
(* ===================================================================== *)

Module ErrorHandler.
Import JsString.

(** An element of an [errors] collection: the properties the middleware
    reads ([path], [message], [value]) or writes ([field], [message],
    [value]). *)
Record Item := {
  i_path : option string;
  i_field : option string;
  i_message : option string;
  i_value : option string
}.

(** [error.errors]: absent, an object keyed by path (mongoose), or an
    array. *)
Inductive ErrorsProp :=
  | NoErrors
  | ErrorsObject (l : list Item)
  | ErrorsArray (l : list Item).

(** [error.status]: absent, a number (body-parser) or a text ([APIError]). *)
Inductive StatusProp :=
  | NoStatus
  | StatusNum (n : Z)
  | StatusText (s : string).

#[global] Instance StatusProp_eq_dec : EqDecision StatusProp.
Proof. solve_decision. Defined.

(** [error.response] of an axios error, with [data?.message]. *)
Record AxiosResponse := {
  r_status : Z;
  r_dataMessage : option string
}.

(** What reaches the middleware, by the properties it reads.  A property
    that is absent is [None] (or [false] where only its truth is read);
    [code] is [None] also when it is not a number. *)
Record Err := {
  name : option string;
  message : option string;
  stack : option string;
  statusCode : option Z;
  errorCode : option string;
  status : StatusProp;
  isOperational : bool;
  errors : ErrorsProp;
  source : option string;
  code : option Z;
  keyValue : option (list (string * string));
  path : option string;
  value : option string;
  isAxiosError : bool;
  response : option AxiosResponse;
  request : bool;
  configUrl : option string;
  isSyntaxError : bool;
  hasBody : bool
}.

Record Env := {
  NODE_ENV : option string;
  (** The trace [Error.captureStackTrace] records for a new error with
      this message. *)
  captureStackTrace : string → string
}.

(** [a || b] on strings that may be absent. *)
Definition orElse (a b : option string) : option string :=
  match a with
  | Some s => if truthy s then a else b
  | None => b
  end.

(** [a || d] with a text for [d]. *)
Definition orText (a : option string) (d : string) : string :=
  match a with
  | Some s => if truthy s then s else d
  | None => d
  end.

(** [n || d] on numbers. *)
Definition orNum (n : option Z) (d : Z) : Z :=
  match n with
  | Some k => if k =? 0 then d else k
  | None => d
  end.

(** The text of a template literal's hole. *)
Definition render (v : option string) : string := default "undefined" v.

(** [new APIError(message, statusCode, errorCode = null)] *)
Definition APIError (env : Env) (msg : option string) (statusCode : Z)
    (errorCode : option string) : Err :=
  let text := default "" msg in
  {| name := Some "Error"; message := Some text;
     stack := Some (captureStackTrace env text);
     statusCode := Some statusCode; errorCode := errorCode;
     status := StatusText (if String.prefix "4" (pretty statusCode) then "fail" else "error");
     isOperational := true; errors := NoErrors; source := None;
     code := None; keyValue := None; path := None; value := None;
     isAxiosError := false; response := None; request := false; configUrl := None;
     isSyntaxError := false; hasBody := false |}.

Definition withErrors (l : list Item) (e : Err) : Err :=
  {| name := name e; message := message e; stack := stack e;
     statusCode := statusCode e; errorCode := errorCode e; status := status e;
     isOperational := isOperational e; errors := ErrorsArray l; source := source e;
     code := code e; keyValue := keyValue e; path := path e; value := value e;
     isAxiosError := isAxiosError e; response := response e; request := request e;
     configUrl := configUrl e; isSyntaxError := isSyntaxError e; hasBody := hasBody e |}.

Definition withSource (src : option string) (e : Err) : Err :=
  {| name := name e; message := message e; stack := stack e;
     statusCode := statusCode e; errorCode := errorCode e; status := status e;
     isOperational := isOperational e; errors := errors e; source := src;
     code := code e; keyValue := keyValue e; path := path e; value := value e;
     isAxiosError := isAxiosError e; response := response e; request := request e;
     configUrl := configUrl e; isSyntaxError := isSyntaxError e; hasBody := hasBody e |}.

(** [new ValidationError(message, errors = [])] *)
Definition ValidationError (env : Env) (msg : string) (errs : list Item) : Err :=
  withErrors errs (APIError env (Some msg) 400 (Some "VALIDATION_ERROR")).

(** [new NotFoundError(resource)] *)
Definition NotFoundError (env : Env) (resource : string) : Err :=
  APIError env (Some (resource +:+ " not found")) 404 (Some "NOT_FOUND").

(** [new ConflictError(message)] *)
Definition ConflictError (env : Env) (msg : string) : Err :=
  APIError env (Some msg) 409 (Some "CONFLICT").

(** [new RateLimitError(message)] *)
Definition RateLimitError (env : Env) (msg : string) : Err :=
  APIError env (Some msg) 429 (Some "RATE_LIMIT_EXCEEDED").

(** [new ScrapingError(message, source = null)] *)
Definition ScrapingError (env : Env) (msg : string) (src : option string) : Err :=
  withSource src (APIError env (Some msg) 500 (Some "SCRAPING_ERROR")).

(** [new DatabaseError(message = 'Database operation failed')] *)
Definition DatabaseError (env : Env) (msg : option string) : Err :=
  APIError env (Some (default "Database operation failed" msg)) 500 (Some "DATABASE_ERROR").

(** The body of the response, under [error]; [success] is always false. *)
Record Body := {
  b_message : string;
  b_code : string;
  b_status : Z;
  b_details : option (list Item);
  b_source : option string;
  b_stack : option (option string)
}.

(** [formatErrorResponse(error, includeStack)] *)
Definition formatErrorResponse (env : Env) (error : Err) (includeStack : bool) : Body :=
  {| b_message := orText (message error) "An unexpected error occurred";
     b_code := orText (errorCode error) "INTERNAL_ERROR";
     b_status := orNum (statusCode error) 500;
     b_details := match errors error with ErrorsArray l => Some l | _ => None end;
     b_source := match source error with
                 | Some s => if truthy s then Some s else None
                 | None => None
                 end;
     b_stack := if includeStack && bool_decide (NODE_ENV env = Some "development")
                then Some (stack error) else None |}.

(** The elements of [Object.values(error.errors || {})]. *)
Definition errorItems (e : ErrorsProp) : list Item :=
  match e with
  | NoErrors => []
  | ErrorsObject l | ErrorsArray l => l
  end.

(** [handleMongoDBError(error)] *)
Definition handleMongoDBError (env : Env) (error : Err) : Err :=
  if bool_decide (code error = Some 11000) then
    let field := orText (head (fst <$> default [] (keyValue error))) "field" in
    let value := match keyValue error with
                 | Some kv => render (Robots.mapGet field kv)
                 | None => "value"
                 end in
    ConflictError env ("Duplicate value for " +:+ field +:+ ": " +:+ value)
  else if bool_decide (name error = Some "ValidationError") then
    ValidationError env "Validation failed"
      ((λ err, {| i_path := None; i_field := i_path err; i_message := i_message err;
                  i_value := i_value err |}) <$> errorItems (errors error))
  else if bool_decide (name error = Some "CastError") then
    ValidationError env ("Invalid " +:+ render (path error) +:+ ": " +:+ render (value error)) []
  else if bool_decide (name error = Some "DocumentNotFoundError") then
    NotFoundError env "Document"
  else DatabaseError env (message error).

(** [handleAxiosError(error)] *)
Definition handleAxiosError (env : Env) (error : Err) : Err :=
  match response error with
  | Some r =>
      let status := r_status r in
      let msg := orElse (r_dataMessage r) (message error) in
      if status =? 404 then NotFoundError env "External resource"
      else if status =? 429 then RateLimitError env "Rate limited by external service"
      else if 500 <=? status then
        ScrapingError env ("External service error: " +:+ render msg) (configUrl error)
      else APIError env msg status None
  | None =>
      if request error then
        ScrapingError env "No response from external service" (configUrl error)
      else ScrapingError env ("Request failed: " +:+ render (message error)) None
  end.

Definition mongoNames : list string :=
  ["MongoError"; "MongoServerError"; "ValidationError"; "CastError";
   "DocumentNotFoundError"].

(** [err.name && [...].includes(err.name)] *)
Definition isMongo (err : Err) : bool :=
  match name err with
  | Some n => truthy n && bool_decide (n ∈ mongoNames)
  | None => false
  end.

(** [err instanceof SyntaxError && err.status === 400 && 'body' in err] *)
Definition isBadJson (err : Err) : bool :=
  isSyntaxError err && bool_decide (status err = StatusNum 400) && hasBody err.

(** The error the middleware answers for, after the four translations. *)
Definition translate (env : Env) (err : Err) : Err :=
  let error := err in
  let error := if isMongo err then handleMongoDBError env err else error in
  let error := if isAxiosError err then handleAxiosError env err else error in
  let error := if isBadJson err
               then ValidationError env "Invalid JSON in request body" [] else error in
  let error := if bool_decide (name err = Some "MongooseServerSelectionError")
               then DatabaseError env (Some "Database connection timeout") else error in
  error.

(** [errorHandler(err, req, res, next)]: the status and the body passed to
    [res.status(...).json(...)]. *)
Definition errorHandler (env : Env) (err : Err) : Z * Body :=
  let error := translate env err in
  let statusCode := orNum (statusCode error) 500 in
  let error :=
    if (statusCode =? 500) && bool_decide (NODE_ENV env = Some "production")
       && negb (isOperational error)
    then APIError env (Some "An unexpected error occurred") 500 None
    else error in
  let includeStack := bool_decide (NODE_ENV env = Some "development") in
  (statusCode, formatErrorResponse env error includeStack).

(** [notFoundHandler]: the error passed to [next]. *)
Definition notFoundHandler (env : Env) (originalUrl : string) : Err :=
  NotFoundError env ("Route " +:+ originalUrl).

(** An error that none of the four translations applies to. *)
Definition foreign (err : Err) : Prop :=
  isMongo err = false ∧ isAxiosError err = false ∧ isBadJson err = false ∧
  name err ≠ Some "MongooseServerSelectionError".

(** The body that tells nothing. *)
Definition blandBody : Body :=
  {| b_message := "An unexpected error occurred"; b_code := "INTERNAL_ERROR";
     b_status := 500; b_details := None; b_source := None; b_stack := None |}.

End ErrorHandler.

Module ErrorDemo.
Import ErrorHandler.

Definition production : Env :=
  {| NODE_ENV := Some "production"; captureStackTrace := λ m, "Error: " +:+ m |}.

(** A plain [TypeError] thrown by a route. *)
Definition typeError : Err :=
  {| name := Some "TypeError"; message := Some "Cannot read properties of undefined";
     stack := Some "TypeError: Cannot read properties of undefined at getContent";
     statusCode := None; errorCode := None; status := NoStatus; isOperational := false;
     errors := NoErrors; source := None; code := None; keyValue := None; path := None;
     value := None; isAxiosError := false; response := None; request := false;
     configUrl := None; isSyntaxError := false; hasBody := false |}.

(** An error of the database driver. *)
Definition mongoError : Err :=
  {| name := Some "MongoServerError";
     message := Some "user is not allowed to do action [find] on [scraper.contents]";
     stack := Some "MongoServerError: user is not allowed"; statusCode := None;
     errorCode := None; status := NoStatus; isOperational := false; errors := NoErrors;
     source := None; code := Some 13; keyValue := None; path := None; value := None;
     isAxiosError := false; response := None; request := false; configUrl := None;
     isSyntaxError := false; hasBody := false |}.

End ErrorDemo.

(* ===================================================================== *)
(** ** The job adapter ([backend/scrapers/jobScraper.js]) *)
(* ===================================================================== *)

Module JobScraper.
Import JsString.

(** [s.split(sep)] for a separator of one or more characters: [skip]
    counts the characters of a separator just found that are still to be
    passed over. *)
Fixpoint splitOn (sep : string) (skip : nat) (cur : string) (s : string) : list string :=
  match s with
  | EmptyString => [cur]
  | String c r =>
      match skip with
      | S k => splitOn sep k cur r
      | O =>
          if String.prefix sep s
          then cur :: splitOn sep (String.length sep - 1) EmptyString r
          else splitOn sep 0 (cur +:+ String c EmptyString) r
      end
  end.

Definition split (sep s : string) : list string := splitOn sep 0 EmptyString s.

Record JobTitle := {
  role : string;
  company : option string;
  location : option string
}.

(** [part || null] *)
Definition orNull (part : option string) : option string :=
  match part with
  | Some s => if truthy s then Some s else None
  | None => None
  end.

(** [parseJobTitle(title)] *)
Definition parseJobTitle (title : string) : JobTitle :=
  let parts := filter (λ s, truthy s = true) (trim <$> split " - " title) in
  {| role := match parts !! 0%nat with
             | Some s => if truthy s then s else title
             | None => title
             end;
     company := orNull (parts !! 1%nat);
     location := orNull (parts !! 2%nat) |}.

(** A part of a title as the parser gives it back: not empty, no blank
    at either end. *)
Definition neat (s : string) : Prop := truthy s = true ∧ trim s = s.

(** A part that can be written into a title: neat, and without a blank
    followed by a hyphen. *)
Definition writable (s : string) : Prop := neat s ∧ includes s " -" = false.

End JobScraper.

(* ===================================================================== *)
(** * Properties *)
(* ===================================================================== *)

(** ** Strings *)

Section StringFacts.
Import JsString.

Lemma is_ws_lower (c : ascii) : is_ws (lower_ascii c) = is_ws c.
Proof. by destruct c as [[] [] [] [] [] [] [] []]. Qed.

Lemma toLowerCase_trimStart (s : string) :
  toLowerCase (trimStart s) = trimStart (toLowerCase s).
Proof.
  induction s as [|c r IH]; simpl; [done|].
  rewrite is_ws_lower. by destruct (is_ws c).
Qed.

Lemma toLowerCase_trimEnd (s : string) :
  toLowerCase (trimEnd s) = trimEnd (toLowerCase s).
Proof.
  induction s as [|c r IH]; simpl; [done|].
  rewrite <- IH, is_ws_lower.
  destruct (trimEnd r); simpl; [by destruct (is_ws c)|done].
Qed.

(** Lower-casing and trimming commute. *)
Lemma toLowerCase_trim (s : string) :
  toLowerCase (trim s) = trim (toLowerCase s).
Proof. unfold trim. by rewrite toLowerCase_trimEnd, toLowerCase_trimStart. Qed.

Lemma trimStart_idem (s : string) : trimStart (trimStart s) = trimStart s.
Proof.
  induction s as [|c r IH]; simpl; [done|].
  destruct (is_ws c) eqn:E; [done|]. simpl. by rewrite E.
Qed.

End StringFacts.

(** ** Test vectors *)

Example sha256_abc :
  SHA256.hex "abc" = "ba7816bf8f01cfea414140de5dae2223b00361a396177a9cb410ff61f20015ad".
Proof. by vm_compute. Qed.

Example sha256_two_blocks :
  SHA256.hex "abcdbcdecdefdefgefghfghighijhijkijkljklmklmnlmnomnopnopq"
    = "248d6a61d20638b8e5c026930c3e6039a33ce45964ff2167f6ecedd419db06c1".
Proof. by vm_compute. Qed.

Example generateHash_example :
  Content.generateHash "  HTTPS://ex.com/a " "webMethods X"
    = "de74b0462b1f96b73560ebdc9bf88417f9fc078bfef5e4f07084e2580b2dcd6e".
Proof. by vm_compute. Qed.

Example parseInt_examples :
  JsNumber.parseInt " 42px" = Some 42 ∧ JsNumber.parseInt "-7" = Some (-7) ∧
  JsNumber.parseInt "abc" = None ∧ JsNumber.envInt (Some "0") 3 = 3 ∧
  JsNumber.envInt None 500 = 500 ∧ JsNumber.envInt (Some "25") 500 = 25.
Proof. by vm_compute. Qed.

Example slice0_examples :
  JsNumber.slice0 [1; 2; 3; 4] 2 = [1; 2] ∧ JsNumber.slice0 [1; 2; 3; 4] 9 = [1; 2; 3; 4] ∧
  JsNumber.slice0 [1; 2; 3; 4] (-1) = [1; 2; 3].
Proof. by vm_compute. Qed.

Example keywords_examples :
  BaseScraper.SEARCH_KEYWORDS Demo.pe0 = ["webmethods"] ∧
  BaseScraper.isRelevant Demo.cfg Demo.itemA = true ∧
  BaseScraper.isRelevant Demo.cfg Demo.itemB = false.
Proof. by vm_compute. Qed.

(** ** Content store *)

Section ContentFacts.
Import Content Aux.

Lemma generateHash_spec (u t : string) :
  generateHash u t = Spec.contentHash u t.
Proof.
  unfold generateHash, Spec.contentHash.
  by rewrite !toLowerCase_trim.
Qed.

Lemma lookup_put_ne k k' v (m : Doc) : k ≠ k' → put k v m !! k' = m !! k'.
Proof. intros. destruct v; simpl; [by rewrite lookup_insert_ne|done]. Qed.

Lemma lookup_put_fresh k v (m : Doc) : m !! k = None → put k v m !! k = v.
Proof. intros. destruct v; simpl; [by rewrite lookup_insert_eq|done]. Qed.

Lemma fieldsOf_url (c : Item) : fieldsOf c !! "url" = VStr <$> url c.
Proof.
  unfold fieldsOf. do 2 rewrite lookup_put_ne by done.
  apply lookup_put_fresh. by rewrite !lookup_put_ne by done.
Qed.

Lemma fieldsOf_title (c : Item) : fieldsOf c !! "title" = VStr <$> title c.
Proof.
  unfold fieldsOf. rewrite lookup_put_ne by done.
  apply lookup_put_fresh. by rewrite !lookup_put_ne by done.
Qed.

Lemma operation_wf c t1 t2 op : operation c t1 t2 = Some op → wfOp op.
Proof.
  unfold operation. destruct (url c) as [u|] eqn:Hu; [|done].
  destruct (title c) as [t|] eqn:Ht; [|done]. simpl.
  intros [= <-]. exists u, t. simpl.
  rewrite !lookup_insert_ne by done.
  rewrite lookup_insert_eq, fieldsOf_url, fieldsOf_title, Hu, Ht. done.
Qed.

Lemma updateOne_store op (s : Store) :
  (updateOne op s).1 = <[filterHash op := applyDoc op (s !! filterHash op)]> s.
Proof. unfold updateOne, applyDoc. by destruct (s !! filterHash op). Qed.

Lemma bulkWrite_cons op ops (s : Store) :
  bulkWrite (op :: ops) s =
    ((bulkWrite ops (updateOne op s).1).1,
     (updateOne op s).2 :: (bulkWrite ops (updateOne op s).1).2).
Proof. simpl. destruct (updateOne op s), (bulkWrite ops _). done. Qed.

Lemma written_miss k ops : k ∉ filterHash <$> ops → written k ops = ∅.
Proof.
  induction ops as [|op ops IH]; [done|].
  intros Hk. rewrite fmap_cons in Hk. apply not_elem_of_cons in Hk as [Hne Hk].
  cbn [written]. rewrite IH by done. rewrite decide_False by congruence. by rewrite (left_id_L ∅ (∪)).
Qed.

Lemma bulkWrite_lookup_Some ops : ∀ (s : Store) k d,
  s !! k = Some d → (bulkWrite ops s).1 !! k = Some (written k ops ∪ d).
Proof.
  induction ops as [|op ops IH]; intros s k d Hd.
  - simpl. by rewrite (left_id_L ∅ (∪)).
  - rewrite bulkWrite_cons. cbn [fst written].
    destruct (decide (filterHash op = k)) as [<-|Hne].
    + erewrite IH; [|rewrite updateOne_store, lookup_insert_eq; reflexivity].
      rewrite Hd. simpl. by rewrite (assoc_L (∪)).
    + erewrite IH; [|rewrite updateOne_store, lookup_insert_ne; done].
      by rewrite (right_id_L ∅ (∪)).
Qed.

Lemma bulkWrite_lookup_miss ops : ∀ (s : Store) k,
  k ∉ filterHash <$> ops → (bulkWrite ops s).1 !! k = s !! k.
Proof.
  induction ops as [|op ops IH]; intros s k Hk; [done|].
  rewrite fmap_cons in Hk. apply not_elem_of_cons in Hk as [Hne Hk].
  rewrite bulkWrite_cons. cbn [fst]. rewrite IH by done.
  rewrite updateOne_store. by rewrite lookup_insert_ne.
Qed.

Lemma bulkWrite_lookup_hit ops : ∀ (s : Store) k,
  k ∈ filterHash <$> ops →
  ∃ base, (bulkWrite ops s).1 !! k = Some (written k ops ∪ base).
Proof.
  induction ops as [|op ops IH]; intros s k Hk.
  - by apply elem_of_nil in Hk.
  - destruct (s !! k) as [d|] eqn:Hs.
    { exists d. by apply bulkWrite_lookup_Some. }
    rewrite bulkWrite_cons. cbn [fst written].
    destruct (decide (filterHash op = k)) as [<-|Hne].
    + eexists. erewrite bulkWrite_lookup_Some;
        [|rewrite updateOne_store, lookup_insert_eq; reflexivity].
      rewrite Hs. cbn [applyDoc]. by rewrite (assoc_L (∪)).
    + rewrite fmap_cons in Hk. apply elem_of_cons in Hk as [?|Hk]; [congruence|].
      destruct (IH (updateOne op s).1 k Hk) as [base Hb].
      exists base. by rewrite Hb, (right_id_L ∅ (∪)).
Qed.

Lemma written_wf k ops :
  Forall wfOp ops → k ∈ filterHash <$> ops →
  ∃ u t, written k ops !! "url" = Some (VStr u) ∧
         written k ops !! "title" = Some (VStr t) ∧
         written k ops !! "contentHash" = Some (VStr k) ∧
         k = generateHash u t.
Proof.
  induction 1 as [|op ops Hop Hops IH]; intros Hk.
  - by apply elem_of_nil in Hk.
  - cbn [written].
    destruct (decide (k ∈ filterHash <$> ops)) as [Hin|Hout].
    + destruct (IH Hin) as (u & t & H1 & H2 & H3 & H4).
      exists u, t. split_and!; [by apply lookup_union_Some_l..|done].
    + rewrite fmap_cons in Hk. apply elem_of_cons in Hk as [->|?]; [|done].
      rewrite written_miss by done. rewrite decide_True by done.
      rewrite (left_id_L ∅ (∪)). destruct Hop as (u & t & ? & ? & ? & ?). by exists u, t.
Qed.

Lemma operations_Forall2 clk : ∀ contents tick ops,
  operations clk tick contents = Some ops →
  Forall2 (λ c op, ∃ t1 t2, operation c t1 t2 = Some op) contents ops.
Proof.
  induction contents as [|c cs IH]; intros tick ops; simpl.
  - intros [= <-]. constructor.
  - destruct (operation c _ _) as [op|] eqn:Hop; [|done].
    destruct (operations clk (S (S tick)) cs) as [ops'|] eqn:Hops; [|done].
    simpl. intros [= <-]. constructor; eauto.
Qed.

Lemma operation_hash c t1 t2 op u t :
  operation c t1 t2 = Some op → url c = Some u → title c = Some t →
  filterHash op = generateHash u t.
Proof.
  unfold operation. intros H Hu Ht. rewrite Hu, Ht in H. simpl in H.
  by injection H as <-.
Qed.

Lemma operation_Some c t1 t2 op :
  operation c t1 t2 = Some op → ∃ u t, url c = Some u ∧ title c = Some t.
Proof.
  unfold operation. destruct (url c), (title c); try done. eauto.
Qed.

Lemma bulkUpsert_inv clk tick contents (s s' : Store) r :
  bulkUpsert clk tick contents s = Some (s', r) →
  ∃ ops, operations clk tick contents = Some ops ∧
         s' = (bulkWrite ops s).1 ∧
         r = {| inserted := count Upserted (bulkWrite ops s).2;
                modified := count Modified (bulkWrite ops s).2;
                total := Z.of_nat (length contents) |}.
Proof.
  unfold bulkUpsert. destruct (operations clk tick contents) as [ops|]; [|done].
  simpl. destruct (bulkWrite ops s) as [s1 os] eqn:E. intros [= <- <-].
  exists ops. by rewrite E.
Qed.


(** *** Idempotence *)

Lemma operation_sameOp c a b a' b' o1 :
  operation c a b = Some o1 →
  ∃ o2, operation c a' b' = Some o2 ∧ sameOp o1 o2.
Proof.
  unfold operation. destruct (url c) as [u|]; [|done].
  destruct (title c) as [t|]; [|done]. simpl. intros [= <-].
  eexists. split; [done|]. split; simpl; [done|].
  by rewrite !delete_insert_eq.
Qed.

Lemma operations_sameOp clk clk' : ∀ contents tick tick' ops,
  operations clk tick contents = Some ops →
  ∃ ops', operations clk' tick' contents = Some ops' ∧ Forall2 sameOp ops ops'.
Proof.
  induction contents as [|c cs IH]; intros tick tick' ops; simpl.
  - intros [= <-]. exists []. split; [done|constructor].
  - destruct (operation c (clk tick) _) as [o1|] eqn:Ho; [|done].
    destruct (operations clk _ cs) as [os|] eqn:Hos; [|done].
    simpl. intros [= <-].
    destruct (operation_sameOp _ _ _ (clk' tick') (clk' (S tick')) _ Ho) as (o2 & -> & ?).
    destruct (IH _ (S (S tick')) _ Hos) as (os' & -> & ?).
    simpl. eexists. split; [done|]. by constructor.
Qed.

Lemma written_sameOp k ops ops' :
  Forall2 sameOp ops ops' →
  delete "lastUpdated" (written k ops) = delete "lastUpdated" (written k ops').
Proof.
  induction 1 as [|o1 o2 ops ops' [Hh Hs] _ IH]; [done|].
  cbn [written]. rewrite !delete_union, IH, Hh.
  destruct (decide (filterHash o2 = k)); by rewrite ?Hs.
Qed.

Lemma sameOp_hashes ops ops' :
  Forall2 sameOp ops ops' → filterHash <$> ops = filterHash <$> ops'.
Proof.
  induction 1 as [|o1 o2 ops ops' [Hh _] _ IH]; [done|].
  by rewrite !fmap_cons, Hh, IH.
Qed.

Lemma bulkWrite_no_insert ops : ∀ (s : Store),
  (∀ k, k ∈ filterHash <$> ops → is_Some (s !! k)) →
  count Upserted (bulkWrite ops s).2 = 0.
Proof.
  induction ops as [|op ops IH]; intros s Hs; [done|].
  rewrite bulkWrite_cons. cbn [snd].
  destruct (Hs (filterHash op)) as [d Hd]; [rewrite fmap_cons; left|].
  assert (Ho : (updateOne op s).2 ≠ Upserted).
  { unfold updateOne. rewrite Hd. simpl. by case_decide. }
  unfold count in *. rewrite filter_cons_False by done.
  apply IH. intros k Hk. rewrite updateOne_store.
  destruct (decide (filterHash op = k)) as [<-|]; [by rewrite lookup_insert_eq|].
  rewrite lookup_insert_ne by done. apply Hs. rewrite fmap_cons. by right.
Qed.

Lemma bulkWrite_idempotent ops ops' (s : Store) :
  Forall2 sameOp ops ops' →
  Spec.sameModuloLastUpdated (bulkWrite ops' (bulkWrite ops s).1).1 (bulkWrite ops s).1.
Proof.
  intros Hsame. unfold Spec.sameModuloLastUpdated. apply map_eq. intros k.
  rewrite !lookup_fmap.
  destruct (decide (k ∈ filterHash <$> ops)) as [Hin|Hout].
  - destruct (bulkWrite_lookup_hit ops s k Hin) as [base Hb].
    rewrite (bulkWrite_lookup_Some ops' _ k _ Hb), Hb. simpl. f_equal.
    rewrite !delete_union, <- (written_sameOp k _ _ Hsame).
    rewrite (assoc_L (∪)). by rewrite (idemp_L (∪)).
  - rewrite bulkWrite_lookup_miss; [done|].
    by rewrite <- (sameOp_hashes _ _ Hsame).
Qed.

(** *** The duplicates counter *)

Lemma bulkWrite_length ops : ∀ (s : Store), length (bulkWrite ops s).2 = length ops.
Proof.
  induction ops as [|op ops IH]; intros s; [done|].
  rewrite bulkWrite_cons. simpl. by rewrite IH.
Qed.

Lemma count_total (os : list Outcome) :
  count Upserted os + count Modified os + count Unchanged os = Z.of_nat (length os).
Proof.
  unfold count. induction os as [|o os IH]; [done|].
  destruct o;
    repeat (first [rewrite filter_cons_True by done | rewrite filter_cons_False by done]);
    simpl length; lia.
Qed.

Lemma existedUnchanged_outcome op (s : Store) :
  Spec.existedUnchanged op s = bool_decide ((updateOne op s).2 = Unchanged).
Proof.
  unfold Spec.existedUnchanged, updateOne.
  destruct (s !! filterHash op) as [d|] eqn:Hd; simpl; [|done].
  rewrite lookup_insert_eq. case_decide as Heq.
  - rewrite Heq. by rewrite !bool_decide_eq_true_2.
  - rewrite !bool_decide_eq_false_2; [done|done|]. by intros [= ?].
Qed.

Lemma duplicates_count ops : ∀ (s : Store),
  Spec.duplicates ops s = count Unchanged (bulkWrite ops s).2.
Proof.
  induction ops as [|op ops IH]; intros s; [done|].
  rewrite bulkWrite_cons. cbn [Spec.duplicates snd].
  rewrite IH, existedUnchanged_outcome. unfold count.
  case_bool_decide as Ho.
  - rewrite filter_cons_True by done. simpl length. lia.
  - rewrite filter_cons_False by done. lia.
Qed.

Lemma operations_length clk : ∀ contents tick ops,
  operations clk tick contents = Some ops → length ops = length contents.
Proof.
  intros contents tick ops H. symmetry.
  by eapply Forall2_length, operations_Forall2.
Qed.


(** *** Cleanup *)

Lemma expired_spec cutoff (d : Doc) :
  expired cutoff d = true ↔ ∃ t, d !! "scrapedAt" = Some (VDate t) ∧ t < cutoff.
Proof.
  unfold expired. split.
  - destruct (d !! "scrapedAt") as [[]|]; try done.
    intros H%Z.ltb_lt. eauto.
  - intros (t & -> & H). by apply Z.ltb_lt.
Qed.

Lemma doomed_spec maxAgeDays now (d : Doc) :
  doomed (now - maxAgeDays * msPerDay) d = true ↔
  Spec.olderThan maxAgeDays now d ∧ ¬ Spec.isFlagged d.
Proof.
  unfold doomed, flagged, Spec.olderThan, Spec.isFlagged.
  rewrite andb_true_iff, expired_spec, negb_true_iff, bool_decide_eq_false.
  done.
Qed.

End ContentFacts.

(** ** Robots cache *)


Section RobotsFacts.
Import Sys Robots Aux.

Lemma robotsFrame_refl w : robotsFrame w w.
Proof. unfold robotsFrame. split_and!; try done. exists []. by rewrite app_nil_r. Qed.

Lemma robotsFrame_trans w1 w2 w3 :
  robotsFrame w1 w2 → robotsFrame w2 w3 → robotsFrame w1 w3.
Proof.
  intros (?&?&?&?&?&?&?&?&evs&He&?) (?&?&?&?&?&?&?&?&evs'&He'&?).
  unfold robotsFrame. split_and!; try congruence; try lia.
  exists (evs ++ evs'). split; [by rewrite He', He, app_assoc|by apply Forall_app].
Qed.

Lemma mapGet_cons {V} k (x : string * V) m :
  mapGet k (x :: m) = if decide (x.1 = k) then Some x.2 else mapGet k m.
Proof.
  unfold mapGet. cbn [list_find]. case_decide; [done|].
  by destruct (list_find _ m) as [[??]|].
Qed.

Lemma mapSet_cons {V} k (v : V) (x : string * V) m :
  mapSet k v (x :: m) = if decide (x.1 = k) then (k, v) :: m else x :: mapSet k v m.
Proof.
  unfold mapSet. cbn [list_find]. case_decide; [done|].
  by destruct (list_find _ m) as [[??]|].
Qed.

Lemma mapGet_mapSet {V} k k' (v : V) m :
  mapGet k' (mapSet k v m) = if decide (k = k') then Some v else mapGet k' m.
Proof.
  induction m as [|x m IH].
  - unfold mapSet, mapGet. cbn. by repeat case_decide.
  - rewrite mapSet_cons. destruct (decide (x.1 = k)) as [Hx|Hx].
    + rewrite !mapGet_cons. simpl. repeat case_decide; congruence.
    + rewrite !mapGet_cons, IH. repeat case_decide; congruence.
Qed.

Lemma mapGet_mapDelete {V} k k' (m : list (string * V)) :
  mapGet k' (mapDelete k m) = if decide (k = k') then None else mapGet k' m.
Proof.
  unfold mapDelete. induction m as [|x m IH].
  - by case_decide.
  - rewrite filter_cons. destruct (decide (x.1 ≠ k)) as [Hx|Hx].
    + rewrite !mapGet_cons, IH. repeat case_decide; congruence.
    + rewrite mapGet_cons, IH. apply dec_stable in Hx.
      repeat case_decide; congruence.
Qed.

Ltac unfold_m :=
  unfold try_catch, finally, bind, emit, modify, get, ret, throw, now, mathRandom.

Lemma fetch_spec env url w :
  ∃ e w' errs, fetch env url w = (Ok e, w') ∧ robotsFrame w w' ∧
    cache (robotsCache w') = cache (robotsCache w) ∧
    robotsCalls (calls w') = S (robotsCalls (calls w)) ∧
    fetched env url (robotsCalls (calls w)) e errs ∧
    fetchErrors (stats (robotsCache w')) = fetchErrors (stats (robotsCache w)) + errs.
Proof.
  unfold fetch, axiosGetRobots, robotsParser. unfold_m. simpl.
  unfold fetched, robotsFetchFails, permissive, robotsFrame.
  destruct (robotsHttp env (robotsCalls (calls w)) (getRobotsUrl env url))
    as [st body|err] eqn:Hhttp.
  - destruct (st <? 500) eqn:Hst; simpl.
    + destruct (st =? 200) eqn:H200; simpl.
      * apply Z.eqb_eq in H200 as ->.
        destruct (robots_parses env (getRobotsUrl env url) body) eqn:Hp; simpl.
        -- eexists _, _, 0. split; [reflexivity|]. simpl.
           split_and!; try done; try lia.
           { eexists [_]. split; [reflexivity|]. repeat constructor. }
           right. split_and!; try done; [|right; eauto]. intros [?|[_ ?]]; [lia|congruence].
        -- eexists _, _, 1. split; [reflexivity|]. simpl.
           split_and!; try done; try lia.
           { eexists [_]. split; [reflexivity|]. repeat constructor. }
           left. split_and!; eauto.
      * eexists _, _, 0. split; [reflexivity|]. simpl.
        split_and!; try done; try lia.
        { eexists [_]. split; [reflexivity|]. repeat constructor. }
        right. apply Z.ltb_lt in Hst. apply Z.eqb_neq in H200.
        split_and!; try done; [|by left]. intros [?|[? _]]; [lia|congruence].
    + eexists _, _, 1. split; [reflexivity|]. simpl.
      split_and!; try done; try lia.
      { eexists [_]. split; [reflexivity|]. repeat constructor. }
      left. apply Z.ltb_ge in Hst. split_and!; eauto.
  - eexists _, _, 1. split; [reflexivity|]. simpl.
    split_and!; try done; try lia.
    { eexists [_]. split; [reflexivity|]. repeat constructor. }
    left. split_and!; eauto.
Qed.

Lemma robotsFrame_on_robots f w :
  ttl (f (robotsCache w)) = ttl (robotsCache w) →
  maxSize (f (robotsCache w)) = maxSize (robotsCache w) →
  userAgent (f (robotsCache w)) = userAgent (robotsCache w) →
  robotsFrame w (on_robots f w).
Proof.
  intros. unfold robotsFrame. simpl. split_and!; try done.
  exists []. by rewrite app_nil_r.
Qed.

Lemma robotsFrame_tick w : robotsFrame w (on_calls tick w).
Proof.
  unfold robotsFrame. simpl. split_and!; try done; try lia.
  exists []. by rewrite app_nil_r.
Qed.

Lemma getMiss_spec env url w :
  ∃ e w' errs, getMiss env url (getCacheKey env url) w = (Ok e, w') ∧
    robotsFrame w w' ∧
    mapGet (getCacheKey env url) (cache (robotsCache w')) = Some e ∧
    (∀ k e0, k ≠ getCacheKey env url →
       mapGet k (cache (robotsCache w')) = Some e0 →
       mapGet k (cache (robotsCache w)) = Some e0) ∧
    robotsCalls (calls w') = S (robotsCalls (calls w)) ∧
    fetched env url (robotsCalls (calls w)) e errs ∧
    fetchErrors (stats (robotsCache w')) = fetchErrors (stats (robotsCache w)) + errs.
Proof.
  unfold getMiss. unfold_m. cbn -[fetch mapSet mapDelete].
  set (key := getCacheKey env url).
  assert (Hgen : ∀ w1,
    robotsFrame w w1 →
    (∀ k e0, mapGet k (cache (robotsCache w1)) = Some e0 →
             mapGet k (cache (robotsCache w)) = Some e0) →
    robotsCalls (calls w1) = robotsCalls (calls w) →
    fetchErrors (stats (robotsCache w1)) = fetchErrors (stats (robotsCache w)) →
    ∃ e w' errs,
      match fetch env url w1 with
      | (Ok a, w'0) => (Ok a, on_robots (onCache (mapSet key a)) w'0)
      | (Throw e, w'0) => (Throw e, w'0)
      end = (Ok e, w') ∧ robotsFrame w w' ∧
      mapGet key (cache (robotsCache w')) = Some e ∧
      (∀ k e0, k ≠ key → mapGet k (cache (robotsCache w')) = Some e0 →
         mapGet k (cache (robotsCache w)) = Some e0) ∧
      robotsCalls (calls w') = S (robotsCalls (calls w)) ∧
      fetched env url (robotsCalls (calls w)) e errs ∧
      fetchErrors (stats (robotsCache w')) = fetchErrors (stats (robotsCache w)) + errs).
  { intros w1 Hfr Hsub Hrc Hfe.
    destruct (fetch_spec env url w1) as (e & w' & errs & -> & Hfr' & Hc & Hrc' & Hf & Hfe').
    exists e, (on_robots (onCache (mapSet key e)) w'), errs.
    split; [done|]. split_and!.
    - eapply robotsFrame_trans; [exact Hfr|]. eapply robotsFrame_trans; [exact Hfr'|].
      by apply robotsFrame_on_robots.
    - simpl. rewrite mapGet_mapSet. by rewrite decide_True.
    - simpl. intros k e0 Hk. rewrite mapGet_mapSet, decide_False by done.
      rewrite Hc. apply Hsub.
    - simpl. by rewrite Hrc', Hrc.
    - by rewrite <- Hrc.
    - simpl. by rewrite Hfe', Hfe. }
  destruct (Z.of_nat (length (cache (robotsCache w))) >=? maxSize (robotsCache w)).
  - destruct (cache (robotsCache w)) as [|[k0 e0] rest] eqn:Hc.
    + apply Hgen; try done.
      * by apply robotsFrame_on_robots.
      * simpl. by rewrite Hc.
    + apply Hgen; try done.
      * eapply robotsFrame_trans; by apply robotsFrame_on_robots.
      * cbn -[mapDelete mapGet]. rewrite Hc. intros k e1.
        rewrite mapGet_mapDelete. by case_decide.
  - apply Hgen; try done. by apply robotsFrame_on_robots.
Qed.

Lemma get_spec env url w :
  ∃ e w', get_ env url w = (Ok e, w') ∧ robotsFrame w w' ∧ getOutcome env url w w' e.
Proof.
  unfold get_, getOutcome, freshEntry. unfold_m. cbn -[getMiss mapDelete mapGet].
  destruct (mapGet (getCacheKey env url) (cache (robotsCache w))) as [cached|] eqn:Hget.
  - cbn -[getMiss mapDelete mapGet].
    destruct (clock env (ticks (calls w)) - fetchedAt cached <? ttl (robotsCache w)) eqn:Hfresh.
    + eexists _, _. split; [reflexivity|]. split.
      * eapply robotsFrame_trans; [apply robotsFrame_tick|]. by apply robotsFrame_on_robots.
      * by left.
    + match goal with |- context [getMiss env url _ ?w1] =>
        destruct (getMiss_spec env url w1) as (e & w' & errs & -> & Hfr & Hk & Hsub & Hrc & Hf & Hfe)
      end.
      exists e, w'. split; [done|]. split.
      * eapply robotsFrame_trans; [apply robotsFrame_tick|].
        eapply robotsFrame_trans; [|exact Hfr]. by apply (robotsFrame_on_robots _ (on_calls tick w)).
      * right. split_and!; try done.
        -- intros k e0 Hne Hk0. specialize (Hsub k e0 Hne Hk0).
           cbn -[mapDelete mapGet] in Hsub. rewrite mapGet_mapDelete in Hsub.
           by case_decide.
        -- exists errs. split; [exact Hf|exact Hfe].
  - destruct (getMiss_spec env url w) as (e & w' & errs & -> & Hfr & Hk & Hsub & Hrc & Hf & Hfe).
    exists e, w'. split; [done|]. split; [done|].
    right. split_and!; try done. by exists errs.
Qed.

Lemma isAllowed_spec env url ua w :
  ∃ e w', isAllowed env url ua w =
            (Ok (entryAllows env url (effectiveUA ua (robotsCache w)) e), w') ∧
    robotsFrame w w' ∧ getOutcome env url w w' e.
Proof.
  unfold isAllowed. unfold_m. cbn -[get_].
  match goal with |- context [get_ env url ?w1] =>
    destruct (get_spec env url w1) as (e & w' & -> & Hfr & Hout)
  end.
  exists e, w'. split_and!.
  - unfold entryAllows, effectiveUA.
    destruct Hfr as (_&_&_&_&_&_&_&Hua&_). simpl in Hua.
    destruct (exists_ e); [|done]. destruct (parser e) as [[??]|]; [|done].
    simpl. by rewrite Hua.
  - eapply robotsFrame_trans; [|exact Hfr]. by apply robotsFrame_on_robots.
  - exact Hout.
Qed.

Lemma freshEntry_Some env url w e :
  freshEntry env url w = Some e →
  mapGet (getCacheKey env url) (cache (robotsCache w)) = Some e.
Proof.
  unfold freshEntry. destruct (mapGet _ _) as [e'|]; [|done].
  by case_match.
Qed.

Lemma entryAllows_permissive env url ua e : permissive e → entryAllows env url ua e = true.
Proof. intros [He Hp]. unfold entryAllows. by rewrite He. Qed.

(** C7.  When the robots.txt request of an origin fails, or its body is
    rejected by the parser, [isAllowed] returns [true], adds one to
    [fetchErrors] and caches a permissive entry; as long as that entry is
    the fresh entry of the origin, [isAllowed] returns [true] for every URL
    of the origin without another request.  Nothing is thrown. *)
Theorem C7_allow_on_robots_error env url ua w :
  freshEntry env url w = None →
  robotsFetchFails env (robotsCalls (calls w)) (getRobotsUrl env url) →
  ∃ w1 e,
    isAllowed env url ua w = (Ok true, w1) ∧
    fetchErrors (stats (robotsCache w1)) = fetchErrors (stats (robotsCache w)) + 1 ∧
    mapGet (getCacheKey env url) (cache (robotsCache w1)) = Some e ∧
    permissive e ∧ is_Some (error e) ∧
    scraper w1 = scraper w ∧ store w1 = store w ∧
    ∀ url' ua' w2,
      getCacheKey env url' = getCacheKey env url →
      freshEntry env url' w2 = Some e →
      ∃ w3, isAllowed env url' ua' w2 = (Ok true, w3) ∧
            robotsCalls (calls w3) = robotsCalls (calls w2) ∧
            fetchErrors (stats (robotsCache w3)) = fetchErrors (stats (robotsCache w2)).
Proof.
  intros Hmiss Hfail.
  destruct (isAllowed_spec env url ua w) as (e & w1 & Hrun & Hfr & Hout).
  destruct Hout as [(Hhit & _)|(_ & Hk & _ & _ & errs & (_ & Hf) & Hfe)]; [congruence|].
  destruct Hf as [(_ & Hperm & Herr & ->)|(Hnot & _)]; [|done].
  exists w1, e. rewrite Hrun, (entryAllows_permissive _ _ _ _ Hperm).
  destruct Hfr as (Hs & Hst & _).
  split_and!; try done.
  intros url' ua' w2 Hkey Hfresh.
  destruct (isAllowed_spec env url' ua' w2) as (e' & w3 & Hrun' & _ & Hout').
  destruct Hout' as [(Hhit & _ & Hrc & Hfe')|(Hno & _)]; [|congruence].
  assert (e' = e) as -> by congruence.
  exists w3. by rewrite Hrun', (entryAllows_permissive _ _ _ _ Hperm).
Qed.

Lemma isAllowed_permits env url ua w :
  robotsPermits env url ua w →
  ∃ w', isAllowed env url ua w = (Ok true, w') ∧ robotsFrame w w' ∧
        robotsPermits env url ua w'.
Proof.
  intros [Hcache Hserve].
  destruct (isAllowed_spec env url ua w) as (e & w' & Hrun & Hfr & Hout).
  assert (Hua : effectiveUA ua (robotsCache w') = effectiveUA ua (robotsCache w)).
  { destruct Hfr as (_&_&_&_&_&_&_&Hua&_). unfold effectiveUA. by rewrite Hua. }
  assert (He : entryAllows env url (effectiveUA ua (robotsCache w)) e = true).
  { destruct Hout as [(Hhit & _)|(_ & _ & _ & _ & errs & (_ & Hf) & _)].
    - by apply Hcache, freshEntry_Some.
    - destruct Hf as [(_ & Hperm & _)|(_ & _ & _ & [Hperm|(body & Hb & _ & Hex & Hp)])];
        try by apply entryAllows_permissive.
      unfold entryAllows. rewrite Hex, Hp. by eapply Hserve. }
  exists w'. rewrite Hrun, He. split_and!; [done..|].
  split; rewrite Hua; [|done].
  destruct Hout as [(Hhit & Hc & _)|(_ & Hk & _)].
  - rewrite Hc. apply Hcache.
  - intros e0 He0. by assert (e0 = e) as -> by congruence.
Qed.
End RobotsFacts.

(** ** Run log *)

Section LogFacts.
Import ScrapingLog.

Lemma apply_terminal (l : Log) (c : Call) :
  terminal (status l) = true → terminal (status (apply l c)) = true.
Proof. by destruct c. Qed.

Lemma apply_startedAt (l : Log) (c : Call) : startedAt (apply l c) = startedAt l.
Proof. by destruct c. Qed.

Lemma fold_apply_terminal (cs : list Call) : ∀ l,
  terminal (status l) = true → terminal (status (fold_left apply cs l)) = true.
Proof.
  induction cs as [|c cs IH]; intros l Hl; [done|].
  simpl. by apply IH, apply_terminal.
Qed.

(** C3, as the code has it.  [complete], [fail] and [cancel] are not
    guarded: whatever the status before, each sets the status to
    completed, failed or cancelled, [endedAt] to the time of the call and
    [duration] to [endedAt - startedAt].  The other methods leave these
    three fields alone.  No sequence of calls changes [startedAt], takes a
    terminal log back to pending or running, or produces partial. *)
Theorem C3_terminal_calls_overwrite (l : Log) :
  (∀ a now, status (complete a now l) = Completed ∧
            endedAt (complete a now l) = Some now ∧
            duration (complete a now l) = now - startedAt l) ∧
  (∀ e now now', status (fail e now now' l) = Failed ∧
                 endedAt (fail e now now' l) = Some now ∧
                 duration (fail e now now' l) = now - startedAt l) ∧
  (∀ now, status (cancel now l) = Cancelled ∧
          endedAt (cancel now l) = Some now ∧
          duration (cancel now l) = now - startedAt l) ∧
  (∀ c, isTerminalCall c = false →
        status (apply l c) = status l ∧ endedAt (apply l c) = endedAt l ∧
        duration (apply l c) = duration l) ∧
  (∀ cs, startedAt (fold_left apply cs l) = startedAt l ∧
         (terminal (status l) = true →
          terminal (status (fold_left apply cs l)) = true) ∧
         (status l ≠ Partial → status (fold_left apply cs l) ≠ Partial)).
Proof.
  split_and!; try done.
  - by intros [].
  - intros cs. split_and!.
    + revert l. induction cs as [|c cs IH]; intros l; [done|].
      simpl. by rewrite IH, apply_startedAt.
    + apply fold_apply_terminal.
    + revert l. induction cs as [|c cs IH]; intros l Hl; [done|].
      simpl. apply IH. by destruct c.
Qed.

(** Counterexample to C3 as the specification states it: a log completed
    at time 10 and then failed at time 25 ends up failed, with the later
    end time and duration. *)
Lemma C3_counterexample :
  ¬ (∀ l c, terminal (status l) = true → isTerminalCall c = true →
            status (apply l c) = status l ∧
            endedAt (apply l c) = endedAt l ∧
            duration (apply l c) = duration l).
Proof.
  intros H.
  destruct (H (complete Demo.noResults 10 (startSession Demo.session 0))
              (CFail (Errors.plainError "Error" "late failure") 25 25))
    as [Hs _]; [done..|].
  discriminate Hs.
Qed.
End LogFacts.

(** ** The request loop *)

Section RequestFacts.
Import Sys Robots BaseScraper Aux Aux.

Ltac unfold_m :=
  unfold try_catch, finally, bind, emit, modify, get, ret, throw, now, mathRandom.

Lemma robots_events_silent evs :
  Forall isRobotsFetch evs → backoffs evs = [] ∧ requests evs = [].
Proof.
  induction 1 as [|ev evs Hev _ [IH1 IH2]]; [done|].
  by destruct ev.
Qed.

Lemma logAddWarning_run env msg u w l :
  scrapingLog (scraper w) = Some l →
  logAddWarning env msg u w =
    (Ok tt, on_scraper (setLog (Some (ScrapingLog.addWarning msg u
                                        (clock env (ticks (calls w))) l)))
                       (on_calls tick w)).
Proof. intros Hl. unfold logAddWarning, withLog. unfold_m. by rewrite Hl. Qed.

Lemma logAddError_run env d w l :
  scrapingLog (scraper w) = Some l →
  logAddError env d w =
    (Ok tt, on_scraper (setLog (Some (ScrapingLog.addError d
                                        (clock env (ticks (calls w))) l)))
                       (on_calls tick w)).
Proof. intros Hl. unfold logAddError, withLog. unfold_m. by rewrite Hl. Qed.

Lemma attempt_denied env cfg url w w1 l :
  isAllowed env url (Some (robotsUserAgent cfg)) w = (Ok false, w1) →
  scrapingLog (scraper w1) = Some l →
  attempt env cfg url w =
    (Throw (Errors.APIError ("Robots disallowed: " +:+ url) 403 (Some "ROBOTS_DISALLOWED")),
     on_scraper (setLog (Some (ScrapingLog.addWarning "Robots blocked URL (skipped)"
                                 (Some url) (clock env (ticks (calls w1))) l)))
                (on_calls tick w1)).
Proof.
  intros Hrob Hl. unfold attempt. unfold bind at 1. rewrite Hrob. cbn [negb].
  unfold bind at 1. by rewrite (logAddWarning_run _ _ _ _ _ Hl).
Qed.

Lemma attempt_allowed env cfg url w w1 :
  isAllowed env url (Some (robotsUserAgent cfg)) w = (Ok true, w1) →
  attempt env cfg url w =
    match pageFails env (pageCalls (calls w1)) url with
    | Some e => (Throw e, afterFetch url w1)
    | None =>
        match pageHttp env (pageCalls (calls w1)) url with
        | Response _ body => (Ok body, on_scraper (markProcessed url) (afterFetch url w1))
        | NetworkError e => (Throw e, afterFetch url w1)
        end
    end.
Proof.
  intros Hrob. unfold attempt. unfold bind at 1. rewrite Hrob. cbn [negb].
  unfold axiosPage, pageFails, afterFetch. unfold_m. simpl.
  destruct (pageHttp env (pageCalls (calls w1)) url) as [st body|e]; [|done].
  by destruct ((200 <=? st) && (st <? 400)).
Qed.

Lemma isRobotsDisallowed_403 msg code :
  Errors.isRobotsDisallowed (Errors.APIError msg 403 code) = true.
Proof.
  unfold Errors.isRobotsDisallowed. apply orb_true_iff. right.
  by apply bool_decide_eq_true_2.
Qed.

Lemma isAllowed_frame env url ua w b w1 :
  isAllowed env url ua w = (Ok b, w1) → robotsFrame w w1.
Proof.
  intros H. destruct (isAllowed_spec env url ua w) as (e & w' & Hrun & Hfr & _).
  rewrite H in Hrun. by injection Hrun as _ <-.
Qed.

(** C4, as the code has it.  When the robots check of [request] denies
    the URL, a warning is appended to the run log and the robots-disallowed
    error is thrown at once: no page request is made, no backoff sleep is
    performed, nothing is drawn from the random source and the URL is
    added to [failedUrls].  The attempt is nevertheless counted: the
    stored attempt count of the URL goes up by one. *)
Theorem C4_robots_disallowed env cfg url opt w w1 l :
  default 0 (retryAttempts (scraper w) !! url) < effectiveMaxRetries cfg opt →
  isAllowed env url (Some (robotsUserAgent cfg)) w = (Ok false, w1) →
  scrapingLog (scraper w) = Some l →
  ∃ w',
    request env cfg url opt w =
      (Throw (Errors.APIError ("Robots disallowed: " +:+ url) 403
                (Some "ROBOTS_DISALLOWED")), w') ∧
    scrapingLog (scraper w') =
      Some (ScrapingLog.addWarning "Robots blocked URL (skipped)" (Some url)
              (clock env (ticks (calls w1))) l) ∧
    url ∈ failedUrls (scraper w') ∧
    retryAttempts (scraper w') !! url =
      Some (default 0 (retryAttempts (scraper w) !! url) + 1) ∧
    backoffs (trace w') = backoffs (trace w) ∧
    requests (trace w') = requests (trace w) ∧
    draws (calls w') = draws (calls w) ∧
    pageCalls (calls w') = pageCalls (calls w).
Proof.
  intros Ha Hrob Hl.
  destruct (isAllowed_frame _ _ _ _ _ _ Hrob) as (Hs&_&Hd&Hp&_&_&_&_&evs&Htr&Hevs).
  assert (Hl1 : scrapingLog (scraper w1) = Some l) by by rewrite Hs.
  unfold request. unfold bind at 1, get at 1.
  destruct (Z.to_nat _) as [|fuel] eqn:Hfuel; [lia|].
  cbn [requestLoop]. rewrite (proj2 (Z.ltb_lt _ _) Ha).
  unfold try_catch, bind at 1. rewrite (attempt_denied _ _ _ _ _ _ Hrob Hl1).
  rewrite isRobotsDisallowed_403. unfold_m. cbn.
  eexists. split; [reflexivity|]. cbn.
  destruct (robots_events_silent _ Hevs) as [Hb Hr].
  split_and!; try done.
  - set_solver.
  - by rewrite lookup_insert_eq.
  - by rewrite Htr; unfold backoffs; rewrite omap_app; fold (backoffs evs); rewrite Hb, app_nil_r.
  - by rewrite Htr; unfold requests; rewrite omap_app; fold (requests evs); rewrite Hr, app_nil_r.
Qed.

Lemma requestLoop_fail_step env cfg url max f a w l e :
  a < max →
  robotsPermits env url (Some (robotsUserAgent cfg)) w →
  scrapingLog (scraper w) = Some l →
  pageFails env (pageCalls (calls w)) url = Some e →
  Errors.isRobotsDisallowed e = false →
  ∃ w3,
    failedAttempt env url a e l w w3 ∧
    robotsPermits env url (Some (robotsUserAgent cfg)) w3 ∧
    requestLoop env cfg url max (S f) a w =
      if a + 1 >=? max then
        (Throw (Errors.ScrapingError
                  (fetchErrorMessage url max (Errors.message e)) (Some url)),
         on_scraper (markFailed url) w3)
      else requestLoop env cfg url max f (a + 1)
             (sleep (backoff (a + 1) (random env (draws (calls w3)))) (on_calls draw w3)).
Proof.
  intros Ha Hperm Hl Hpf He.
  destruct (isAllowed_permits _ _ _ _ Hperm) as (w1 & Hrun & Hfr & Hperm1).
  destruct Hfr as (Hs&Hst&Hd&Hp&_&_&_&_&evs&Htr&Hevs).
  destruct (robots_events_silent _ Hevs) as [Hb Hr].
  set (w2 := on_scraper (setAttempts url (a + 1)) (afterFetch url w1)).
  assert (Hl2 : scrapingLog (scraper w2) = Some l) by (cbn; by rewrite Hs).
  exists (on_scraper (setLog (Some (ScrapingLog.addError (errorData url e (a + 1))
                                      (clock env (ticks (calls w2))) l)))
                     (on_calls tick w2)).
  split_and!.
  - unfold failedAttempt. cbn. rewrite Hs, Hst, Hd, Hp. split_and!; eauto.
    exists (evs ++ [EvAcquire url; EvRequest url]). split_and!.
    + rewrite Htr. by rewrite <- !app_assoc.
    + unfold backoffs in *. by rewrite omap_app, Hb.
    + unfold requests in *. by rewrite omap_app, Hr.
  - destruct Hperm1 as [H1 H2]. split; [exact H1|exact H2].
  - cbn [requestLoop]. rewrite (proj2 (Z.ltb_lt _ _) Ha).
    unfold try_catch, bind at 1. rewrite (attempt_allowed _ _ _ _ _ Hrun), Hp, Hpf.
    unfold bind at 1, modify at 1. rewrite He.
    unfold bind at 1. fold w2. unfold errorData.
    rewrite (logAddError_run _ _ _ _ Hl2).
    destruct (a + 1 >=? max); [done|].
    by unfold_m.
Qed.

Lemma backoffs_app tr1 tr2 : backoffs (tr1 ++ tr2) = backoffs tr1 ++ backoffs tr2.
Proof. apply omap_app. Qed.

Lemma requests_app tr1 tr2 : requests (tr1 ++ tr2) = requests tr1 ++ requests tr2.
Proof. apply omap_app. Qed.

(** When every attempt fails, the loop runs until the attempt count
    reaches [max]. *)
Lemma requestLoop_exhausts env cfg url max :
  allFail env url →
  ∀ f a w l,
    f = Z.to_nat (max - a - 1) → a < max →
    robotsPermits env url (Some (robotsUserAgent cfg)) w →
    scrapingLog (scraper w) = Some l →
    ∃ w' l' e ents,
      requestLoop env cfg url max (S f) a w =
        (Throw (Errors.ScrapingError
                  (fetchErrorMessage url max (Errors.message e)) (Some url)), w') ∧
      pageFails env (pageCalls (calls w) + f)%nat url = Some e ∧
      pageCalls (calls w') = (pageCalls (calls w) + S f)%nat ∧
      draws (calls w') = (draws (calls w) + f)%nat ∧
      retryAttempts (scraper w') !! url = Some max ∧
      url ∈ failedUrls (scraper w') ∧
      scrapingLog (scraper w') = Some l' ∧
      ScrapingLog.status l' = ScrapingLog.status l ∧
      ScrapingLog.warnings l' = ScrapingLog.warnings l ∧
      ScrapingLog.errorLogs l' = ScrapingLog.errorLogs l ++ ents ∧
      ScrapingLog.e_retryCount <$> ents = countsFrom a (S f) ∧
      Forall (λ en, ScrapingLog.e_url en = Some url) ents ∧
      backoffs (trace w') =
        backoffs (trace w) ++ expectedBackoffs env a (draws (calls w)) f ∧
      requests (trace w') = requests (trace w) ++ replicate (S f) url.
Proof.
  intros Hall. induction f as [|f IH]; intros a w l Hf Ha Hperm Hl.
  - destruct (Hall (pageCalls (calls w))) as (e & Hpf & He).
    destruct (requestLoop_fail_step env cfg url max 0 a w l e Ha Hperm Hl Hpf He)
      as (w3 & Hfa & _ & ->).
    rewrite (proj2 (Z.geb_le _ _)) by lia.
    destruct Hfa as ((t & Hl3) & Hra & _ & _ & _ & _ & _ & Hpc & Hdr & evs & Htr & Hb & Hr).
    eexists _, _, e, [_]. split; [reflexivity|]. cbn.
    rewrite Hl3, Hra, Hpc, Hdr, lookup_insert_eq, Htr, backoffs_app, requests_app, Hb, Hr.
    rewrite !Nat.add_0_r. cbn.
    split_and!; try done; try lia; [f_equal; lia|set_solver|by repeat constructor].
  - destruct (Hall (pageCalls (calls w))) as (e & Hpf & He).
    destruct (requestLoop_fail_step env cfg url max (S f) a w l e Ha Hperm Hl Hpf He)
      as (w3 & Hfa & Hperm3 & ->).
    rewrite Z.geb_leb, (proj2 (Z.leb_gt _ _)) by lia.
    destruct Hfa as ((t & Hl3) & Hra & _ & _ & _ & _ & _ & Hpc & Hdr & evs & Htr & Hb & Hr).
    set (w4 := sleep _ _).
    destruct (IH (a + 1) w4 _ ltac:(lia) ltac:(lia) Hperm3 Hl3)
      as (w' & l' & e' & ents & -> & Hpf' & Hpc' & Hdr' & Hra' & Hfu' & Hl' & Hst' & Hw' &
          Hel' & Hrc' & Hurl' & Hb' & Hr').
    eexists w', l', e', (_ :: ents). split; [reflexivity|].
    cbn in Hpf', Hpc', Hdr', Hb', Hr', Hel'.
    rewrite Hpc in Hpf', Hpc'. rewrite Hdr in Hdr', Hb'.
    rewrite Htr, !backoffs_app, Hb in Hb'. rewrite Htr, !requests_app, Hr in Hr'.
    split_and!; try done.
    + by replace (pageCalls (calls w) + S f)%nat with (S (pageCalls (calls w)) + f)%nat by lia.
    + lia.
    + lia.
    + rewrite Hel'. by rewrite <- app_assoc.
    + cbn. by rewrite Hrc'.
    + by constructor.
    + cbn in Hb'. rewrite Hb'. cbn. by rewrite app_nil_r, <- !app_assoc.
    + cbn in Hr'. rewrite Hr'. cbn. by rewrite app_nil_r, <- !app_assoc.
Qed.

Lemma backoff_bounds (k : Z) (r : Q) :
  (0 <= r < 1)%Q → (2 ^ k * 1000 <= backoff k r < 2 ^ k * 1000 + 500)%Q.
Proof. unfold backoff. intros [??]. split; lra. Qed.

Lemma expectedBackoffs_bounds env a d n :
  (∀ k, 0 <= random env k < 1)%Q →
  Forall2 (λ ms k, (2 ^ k * 1000 <= ms < 2 ^ k * 1000 + 500)%Q)
          (expectedBackoffs env a d n) (countsFrom a n).
Proof.
  intros Hr. revert a d. induction n as [|n IH]; intros a d; cbn; constructor.
  - by apply backoff_bounds.
  - apply IH.
Qed.

Lemma request_unfold env cfg url opt w :
  request env cfg url opt w =
    requestLoop env cfg url (effectiveMaxRetries cfg opt)
      (Z.to_nat (effectiveMaxRetries cfg opt
                 - default 0 (retryAttempts (scraper w) !! url)))
      (default 0 (retryAttempts (scraper w) !! url)) w.
Proof. done. Qed.

(** C5, as the code has it.  A URL that robots allows and whose page
    requests all fail (with errors other than robots-disallowed) is
    attempted until the stored attempt count, raised by one per failure
    and logged as [retryCount], reaches max-retries.  After the failure
    that brings the count to [k < max-retries] the call sleeps exactly
    [2^k * 1000 + random * 500] ms, which lies in
    [2^k * 1000, 2^k * 1000 + 500): there is no cap.  At max-retries the URL
    is added to [failedUrls] and a ScrapingError is thrown whose source is
    the URL and whose message names the URL, max-retries and the message
    of the last error. *)
Theorem C5_retry_with_backoff env cfg url opt w l :
  default 0 (retryAttempts (scraper w) !! url) < effectiveMaxRetries cfg opt →
  robotsPermits env url (Some (robotsUserAgent cfg)) w →
  scrapingLog (scraper w) = Some l →
  allFail env url →
  (∀ k, 0 <= random env k < 1)%Q →
  let max := effectiveMaxRetries cfg opt in
  let a := default 0 (retryAttempts (scraper w) !! url) in
  let n := Z.to_nat (max - a - 1) in
  ∃ w' l' e ents,
    request env cfg url opt w =
      (Throw (Errors.ScrapingError (fetchErrorMessage url max (Errors.message e))
                (Some url)), w') ∧
    pageFails env (pageCalls (calls w) + n)%nat url = Some e ∧
    requests (trace w') = requests (trace w) ++ replicate (S n) url ∧
    retryAttempts (scraper w') !! url = Some max ∧
    url ∈ failedUrls (scraper w') ∧
    scrapingLog (scraper w') = Some l' ∧
    ScrapingLog.errorLogs l' = ScrapingLog.errorLogs l ++ ents ∧
    ScrapingLog.e_retryCount <$> ents = countsFrom a (S n) ∧
    Forall (λ en, ScrapingLog.e_url en = Some url) ents ∧
    backoffs (trace w') =
      backoffs (trace w) ++ expectedBackoffs env a (draws (calls w)) n ∧
    Forall2 (λ ms k, (2 ^ k * 1000 <= ms < 2 ^ k * 1000 + 500)%Q)
            (expectedBackoffs env a (draws (calls w)) n) (countsFrom a n).
Proof.
  intros Ha Hperm Hl Hall Hrand max a n.
  destruct (requestLoop_exhausts env cfg url max Hall n a w l eq_refl Ha Hperm Hl)
    as (w' & l' & e & ents & Hrun & Hpf & _ & _ & Hra & Hfu & Hl' & _ & _ & Hel & Hrc &
        Hurl & Hb & Hr).
  exists w', l', e, ents. rewrite request_unfold.
  replace (Z.to_nat _) with (S n) by (subst n max a; lia).
  split_and!; try done. by apply expectedBackoffs_bounds.
Qed.

Lemma expectedBackoffs_last env a d n :
  backoff (a + Z.of_nat (S n)) (random env (d + n)%nat)
    ∈ expectedBackoffs env a d (S n).
Proof.
  revert a d. induction n as [|n IH]; intros a d.
  - cbn. rewrite Nat.add_0_r. replace (a + 1) with (a + Z.of_nat 1) by lia. left.
  - cbn [expectedBackoffs]. right.
    replace (a + Z.of_nat (S (S n))) with ((a + 1) + Z.of_nat (S n)) by lia.
    replace (d + S n)%nat with (S d + n)%nat by lia. apply IH.
Qed.

Lemma pos_pow_1_l (p : positive) : (1 ^ p)%positive = 1%positive.
Proof.
  induction p as [|p IH] using Pos.peano_ind; [done|].
  by rewrite Pos.pow_succ_r, IH.
Qed.

Lemma Qpower_2_nat (n : nat) : (2 ^ Z.of_nat (S n) == inject_Z (2 ^ Z.of_nat (S n)))%Q.
Proof.
  change 2%Q with (2 # 1)%Q.
  destruct (Z.of_nat (S n)) as [|p|p] eqn:E; [lia| |lia].
  cbn [Qpower]. rewrite Qpower_decomp_positive.
  unfold inject_Z. by rewrite pos_pow_1_l.
Qed.

Lemma permits_envDown url ua s : robotsPermits Demo.envDown url ua (Demo.world s).
Proof. by split. Qed.

Lemma allFail_envDown url : allFail Demo.envDown url.
Proof. intros n. eexists. by split. Qed.

(** Counterexample to C5 as the specification states it: no cap bounds
    the sleeps.  Against a site whose pages always fail, for every bound
    there is a value of [options.maxRetries] with which [request] sleeps
    longer. *)
Lemma C5_counterexample :
  ¬ ∃ cap : Q, ∀ (opt : option Z) ms,
      ms ∈ backoffs (trace (request Demo.envDown Demo.cfg Demo.feed opt Demo.w0).2) →
      (ms <= cap)%Q.
Proof.
  intros [cap Hcap].
  set (N := Z.to_nat (Qceiling cap)).
  assert (Hmax : effectiveMaxRetries Demo.cfg (Some (Z.of_nat (S N) + 1)) = Z.of_nat (S N) + 1).
  { unfold effectiveMaxRetries. by rewrite (proj2 (Z.eqb_neq _ _)) by lia. }
  destruct (requestLoop_exhausts Demo.envDown Demo.cfg Demo.feed (Z.of_nat (S N) + 1)
              (allFail_envDown _) (S N) 0 Demo.w0 _ ltac:(lia) ltac:(lia)
              (permits_envDown _ _ _) eq_refl)
    as (w' & l' & e & ents & Hrun & _ & _ & _ & _ & _ & _ & _ & _ & _ & _ & _ & Hb & _).
  specialize (Hcap (Some (Z.of_nat (S N) + 1))
                   (backoff (0 + Z.of_nat (S N)) (random Demo.envDown (0 + N)%nat))).
  rewrite request_unfold, Hmax in Hcap.
  change (default 0 (retryAttempts (scraper Demo.w0) !! Demo.feed)) with 0 in Hcap.
  replace (Z.to_nat _) with (S (S N)) in Hcap by lia.
  rewrite Hrun in Hcap. cbn [snd] in Hcap. rewrite Hb in Hcap.
  specialize (Hcap ltac:(apply elem_of_app; right; apply expectedBackoffs_last)).
  unfold backoff in Hcap. rewrite Z.add_0_l, Qpower_2_nat in Hcap. cbn [random Demo.envDown] in Hcap.
  assert (Hlin : Z.of_nat (S N) < 2 ^ Z.of_nat (S N)) by (apply Z.pow_gt_lin_r; lia).
  pose proof (Qle_ceiling cap) as Hceil.
  assert (Hn : (inject_Z (Qceiling cap) <= inject_Z (Z.of_nat (S N)))%Q).
  { rewrite <- Zle_Qle. subst N. lia. }
  assert (Hp : (inject_Z (Z.of_nat (S N)) < inject_Z (2 ^ Z.of_nat (S N)))%Q)
    by by rewrite <- Zlt_Qlt.
  assert (0 <= inject_Z (Z.of_nat (S N)))%Q by (rewrite <- (Zle_Qle 0); lia).
  lra.
Qed.

Lemma construct_defaultMaxRetries pe nm ty src urls cfg s0 :
  construct pe nm ty src urls = Some (cfg, s0) →
  defaultMaxRetries cfg = MAX_RETRIES pe.
Proof. unfold construct. case_match; [|done]. by intros [= <- _]. Qed.

(** C6, as the code has it.  [MAX_RETRIES] is read with
    [parseInt(...) || 3]: the value 0 (like an unset or non-numeric value)
    yields the default 3.  With [m] the value read, [m > 0], a fresh URL
    that robots allows and whose page requests all fail is requested
    exactly [m] times before the failure is reported: three times for
    [MAX_RETRIES=0], once for [MAX_RETRIES=1]. *)
Theorem C6_zero_means_default pe nm ty src urls cfg s0 env url w l v :
  construct pe nm ty src urls = Some (cfg, s0) →
  env_MAX_RETRIES pe = Some v →
  retryAttempts (scraper w) !! url = None →
  robotsPermits env url (Some (robotsUserAgent cfg)) w →
  scrapingLog (scraper w) = Some l →
  allFail env url →
  let m := defaultMaxRetries cfg in
  m = JsNumber.envInt (Some v) 3 ∧
  (v = "0" → m = 3) ∧ (v = "1" → m = 1) ∧
  (0 < m →
   ∃ w' e,
     request env cfg url None w =
       (Throw (Errors.ScrapingError (fetchErrorMessage url m (Errors.message e))
                 (Some url)), w') ∧
     requests (trace w') = requests (trace w) ++ replicate (Z.to_nat m) url ∧
     length (backoffs (trace w')) = (length (backoffs (trace w)) + (Z.to_nat m - 1))%nat).
Proof.
  intros Hc Hv Hfresh Hperm Hl Hall m.
  assert (Hm : m = JsNumber.envInt (Some v) 3).
  { subst m. rewrite (construct_defaultMaxRetries _ _ _ _ _ _ _ Hc).
    unfold MAX_RETRIES. by rewrite Hv. }
  split_and!; [done|by intros ->; rewrite Hm|by intros ->; rewrite Hm|].
  intros Hpos.
  destruct (requestLoop_exhausts env cfg url m Hall (Z.to_nat (m - 0 - 1)) 0 w l
              eq_refl Hpos Hperm Hl)
    as (w' & l' & e & ents & Hrun & _ & _ & _ & _ & _ & _ & _ & _ & _ & _ & _ & Hb & Hr).
  exists w', e. rewrite request_unfold. cbn [effectiveMaxRetries]. fold m.
  rewrite Hfresh. cbn [default].
  replace (Z.to_nat (m - 0)) with (S (Z.to_nat (m - 0 - 1))) by lia.
  split_and!; [done| |].
  - rewrite Hr. do 2 f_equal. lia.
  - rewrite Hb, length_app. f_equal.
    assert (Hlen : ∀ n a d, length (expectedBackoffs env a d n) = n).
    { induction n as [|n IH]; intros a d; [done|]. cbn. by rewrite IH. }
    rewrite Hlen. lia.
Qed.

(** Counterexample to C6 as the specification states it: with
    [MAX_RETRIES=0] a URL whose page requests fail is requested three
    times. *)
Lemma C6_counterexample :
  construct Demo.pe0 "NewsScraper" "news" "News (RSS)" [Demo.feed]
    = Some (Demo.cfg, Demo.scraper0) ∧
  requests (trace (request Demo.envDown Demo.cfg Demo.feed None Demo.w0).2)
    = [Demo.feed; Demo.feed; Demo.feed].
Proof. split; by vm_compute. Qed.

(** Counterexample to C4 as the specification states it: a robots denial
    does consume an attempt.  After one denied request the stored attempt
    count of the URL is 1, and after three the next call does not even
    consult robots: the loop is not entered and [request] returns
    [undefined]. *)
Lemma C4_counterexample :
  let r1 := request Demo.envDenied Demo.cfg Demo.feed None Demo.w0 in
  let r2 := request Demo.envDenied Demo.cfg Demo.feed None r1.2 in
  let r3 := request Demo.envDenied Demo.cfg Demo.feed None r2.2 in
  let r4 := request Demo.envDenied Demo.cfg Demo.feed None r3.2 in
  retryAttempts (scraper Demo.w0) !! Demo.feed = None ∧
  r1.1 = Throw (Errors.APIError ("Robots disallowed: " +:+ Demo.feed) 403
                  (Some "ROBOTS_DISALLOWED")) ∧
  retryAttempts (scraper r1.2) !! Demo.feed = Some 1 ∧
  retryAttempts (scraper r3.2) !! Demo.feed = Some 3 ∧
  r4 = (Ok None, r3.2).
Proof. by vm_compute. Qed.
End RequestFacts.

(** ** The run *)

Section RunFacts.
Import Sys Robots BaseScraper Aux Aux.

Ltac unfold_m :=
  unfold try_catch, finally, bind, emit, modify, get, ret, throw, now, mathRandom.

Lemma keeps_ret {A} (a : A) : keepsItems (ret a).
Proof. by intros w r w' [= _ <-]. Qed.

Lemma keeps_throw {A} e : keepsItems (@throw A e).
Proof. by intros w r w' [= _ <-]. Qed.

Lemma keeps_get : keepsItems get.
Proof. by intros w r w' [= _ <-]. Qed.

Lemma keeps_modify f :
  (∀ w, scrapedItems (scraper (f w)) = scrapedItems (scraper w) ∧
        store (f w) = store w) →
  keepsItems (modify f).
Proof. intros Hf w r w' [= _ <-]. apply Hf. Qed.

Lemma keeps_bind {A B} (m : M A) (k : A → M B) :
  keepsItems m → (∀ a, keepsItems (k a)) → keepsItems (bind m k).
Proof.
  intros Hm Hk w r w'. unfold bind.
  destruct (m w) as [[a|e] w1] eqn:E; intros H.
  - destruct (Hk a _ _ _ H) as [-> ->]. by eapply Hm.
  - injection H as _ <-. by eapply Hm.
Qed.

Lemma keeps_try_catch {A} (m : M A) h :
  keepsItems m → (∀ e, keepsItems (h e)) → keepsItems (try_catch m h).
Proof.
  intros Hm Hh w r w'. unfold try_catch.
  destruct (m w) as [[a|e] w1] eqn:E; intros H.
  - injection H as _ <-. by eapply Hm.
  - destruct (Hh e _ _ _ H) as [-> ->]. by eapply Hm.
Qed.

Lemma keeps_now env : keepsItems (now env).
Proof. by intros w r w' [= _ <-]. Qed.

Lemma keeps_mathRandom env : keepsItems (mathRandom env).
Proof. by intros w r w' [= _ <-]. Qed.

Lemma keeps_emit ev : keepsItems (emit ev).
Proof. by apply keeps_modify. Qed.

Lemma keeps_isAllowed env url ua : keepsItems (isAllowed env url ua).
Proof.
  intros w r w' H.
  destruct (isAllowed_spec env url ua w) as (e & w1 & Hrun & (Hs & Hst & _) & _).
  rewrite H in Hrun. injection Hrun as _ <-. by rewrite Hs.
Qed.

Lemma keeps_withLog f : (∀ l, keepsItems (f l)) → keepsItems (withLog f).
Proof.
  intros Hf. unfold withLog. apply keeps_bind; [apply keeps_get|].
  intros w. destruct (scrapingLog (scraper w)); [|apply keeps_throw].
  apply keeps_bind; [apply Hf|]. intros l'. by apply keeps_modify.
Qed.

Ltac keeps :=
  repeat first
    [ apply keeps_ret | apply keeps_throw | apply keeps_get | apply keeps_now
    | apply keeps_mathRandom | apply keeps_emit | apply keeps_isAllowed
    | apply keeps_withLog
    | (apply keeps_modify; done)
    | apply keeps_bind | apply keeps_try_catch
    | lazymatch goal with |- keepsItems _ => fail | |- _ => intros ? end ].

Lemma keeps_logAddWarning env msg u : keepsItems (logAddWarning env msg u).
Proof. unfold logAddWarning. keeps. Qed.

Lemma keeps_logAddError env d : keepsItems (logAddError env d).
Proof. unfold logAddError. keeps. Qed.

Lemma keeps_axiosPage env url : keepsItems (axiosPage env url).
Proof.
  unfold axiosPage. keeps. destruct (pageHttp _ _ _); [|keeps].
  destruct (_ && _); keeps.
Qed.

Lemma keeps_attempt env cfg url : keepsItems (attempt env cfg url).
Proof.
  unfold attempt. apply keeps_bind; [keeps|]. intros [].
  - cbn [negb]. apply keeps_bind; [apply keeps_emit|]. intros _.
    apply keeps_bind; [apply keeps_axiosPage|]. keeps.
  - cbn [negb]. apply keeps_bind; [apply keeps_logAddWarning|]. keeps.
Qed.

Lemma keeps_requestLoop env cfg url max fuel : ∀ a,
  keepsItems (requestLoop env cfg url max fuel a).
Proof.
  induction fuel as [|fuel IH]; intros a; cbn [requestLoop]; [keeps|].
  destruct (a <? max); [|keeps].
  apply keeps_try_catch.
  - apply keeps_bind; [apply keeps_attempt|]. keeps.
  - intros e. apply keeps_bind; [keeps|]. intros _.
    destruct (Errors.isRobotsDisallowed e); [keeps|].
    apply keeps_bind; [apply keeps_logAddError|]. intros _.
    destruct (_ >=? _); [keeps|].
    apply keeps_bind; [keeps|]. intros r.
    apply keeps_bind; [keeps|]. intros _. apply IH.
Qed.

Lemma keeps_request env cfg url opt : keepsItems (request env cfg url opt).
Proof. unfold request. apply keeps_bind; [keeps|]. intros w. apply keeps_requestLoop. Qed.

Lemma keeps_precheck env cfg urls : keepsItems (precheck env cfg urls).
Proof.
  induction urls as [|u urls IH]; cbn [precheck]; [keeps|].
  apply keeps_bind; [keeps|]. intros [].
  - cbn [negb]. apply keeps_bind; [exact IH|]. keeps.
  - cbn [negb]. apply keeps_bind; [apply keeps_logAddWarning|]. intros _. exact IH.
Qed.

Lemma addItem_dropped cfg c : isRelevant cfg c = false → addItem cfg c = ret tt.
Proof. intros H. unfold addItem. rewrite H. by destruct (_ || _). Qed.

Lemma keeps_addItems cfg items :
  (∀ c, c ∈ items → isRelevant cfg c = false) → keepsItems (addItems cfg items).
Proof.
  induction items as [|c items IH]; intros H; cbn [addItems]; [keeps|].
  rewrite addItem_dropped by (apply H; left).
  apply keeps_bind; [keeps|]. intros _. apply IH. intros c' Hc'. apply H. by right.
Qed.

Lemma keeps_scrapeSources env cfg a srcs :
  (∀ src xml items c, candidates a src xml = Ok items → c ∈ items →
                      isRelevant cfg c = false) →
  keepsItems (scrapeSources env cfg a srcs).
Proof.
  intros H. induction srcs as [|src srcs IH]; cbn [scrapeSources]; [keeps|].
  apply keeps_bind; [apply keeps_request|]. intros xml.
  destruct (candidates a src xml) as [items|e] eqn:E; [|keeps].
  apply keeps_bind; [|intros _; exact IH].
  apply keeps_addItems. intros c Hc. by eapply H.
Qed.

Lemma run_success_inv env cfg ss trig w d w' :
  run env cfg ss trig w = (Ok (Success d), w') →
  ∃ wa allowed wb wc saved wd l,
    scrapedItems (scraper wa) = [] ∧ store wa = store w ∧
    precheck env cfg (initialUrls (scraper wa)) wa = (Ok allowed, wb) ∧
    ss (on_scraper (setInitialUrls allowed) wb) = (Ok tt, wc) ∧
    processAndSaveItems env cfg (scrapedItems (scraper wc)) wc = (Ok saved, wd) ∧
    scrapingLog (scraper wd) = Some l ∧
    scrapingLog (scraper w') =
      Some (ScrapingLog.complete
              {| ScrapingLog.a_found := Some (Z.of_nat (length (scrapedItems (scraper wd))));
                 ScrapingLog.a_inserted := Some (s_inserted saved);
                 ScrapingLog.a_updated := Some (s_modified saved);
                 ScrapingLog.a_duplicates :=
                   Some (s_total saved - s_inserted saved - s_modified saved);
                 ScrapingLog.a_failed := Some (s_failed saved);
                 ScrapingLog.a_urlsProcessed := Some (setSize (processedUrls (scraper wd)));
                 ScrapingLog.a_urlsFailed := Some (setSize (failedUrls (scraper wd))) |}
              (clock env (S (ticks (calls wd)))) l) ∧
    scrapedItems (scraper w') = scrapedItems (scraper wd) ∧
    store w' = store wd ∧
    itemsFound d = Z.of_nat (length (scrapedItems (scraper wd))) ∧
    itemsInserted d = s_inserted saved ∧ itemsUpdated d = s_modified saved ∧
    itemsSkipped d = s_total saved - s_inserted saved - s_modified saved.
Proof.
  unfold run, startSession, logComplete, logFail, withLog. unfold_m.
  cbn -[precheck processAndSaveItems].
  intros H.
  repeat (case_match; simplify_eq/=).
  all: try match goal with u : unit |- _ => destruct u end.
  all: match goal with H : precheck _ _ _ ?wa = _ |- _ => exists wa end.
  all: eexists _, _, _, _, _, _; split_and!; try eassumption; try reflexivity.
Qed.

Lemma iter_tick_scraper n w : scraper (Nat.iter n (on_calls tick) w) = scraper w.
Proof. induction n as [|n IH]; [done|]. cbn. exact IH. Qed.

Lemma iter_tick_store n w : store (Nat.iter n (on_calls tick) w) = store w.
Proof. induction n as [|n IH]; [done|]. cbn. exact IH. Qed.

Lemma processAndSaveItems_inv env cfg items w saved w' :
  processAndSaveItems env cfg items w = (Ok saved, w') →
  scraper w' = scraper w ∧
  ((items = [] ∧ store w' = store w ∧
    s_inserted saved = 0 ∧ s_modified saved = 0 ∧ s_total saved = 0) ∨
   (items ≠ [] ∧
    ∃ r, Content.bulkUpsert (clock env) (ticks (calls w))
           (JsNumber.slice0 items (maxItems cfg)) (store w) = Some (store w', r) ∧
         s_inserted saved = Content.inserted r ∧
         s_modified saved = Content.modified r ∧
         s_total saved = Content.total r)).
Proof.
  destruct items as [|c items].
  - intros [= <- <-]. split; [done|]. by left.
  - unfold processAndSaveItems, contentBulkUpsert. unfold_m.
    cbn -[JsNumber.slice0 Content.bulkUpsert Nat.iter Nat.mul].
    destruct (Content.bulkUpsert _ _ _ _) as [[s' r]|] eqn:E;
      cbn -[JsNumber.slice0 Content.bulkUpsert Nat.iter Nat.mul]; [|done].
    intros [= <- <-]. cbn -[JsNumber.slice0 Content.bulkUpsert Nat.iter Nat.mul].
    split; [apply iter_tick_scraper|]. right. split; [done|]. by exists r.
Qed.

Lemma bulkUpsert_total clk tick contents (s s' : Content.Store) r :
  Content.bulkUpsert clk tick contents s = Some (s', r) →
  Content.total r = Z.of_nat (length contents).
Proof. by intros (ops & _ & _ & ->)%bulkUpsert_inv. Qed.

(** C9, as the code has it.  When every candidate the adapter emits fails
    the relevance filter and the run succeeds, the log ends completed
    with [inserted = 0] and [found = 0]: [found] counts the items that
    passed the filter, and nothing is written to the store. *)
Theorem C9_all_candidates_filtered env cfg (a : Adapter) trig w d w' :
  (∀ src xml items c, candidates a src xml = Ok items → c ∈ items →
                      isRelevant cfg c = false) →
  run env cfg (scrapeSource env cfg a) trig w = (Ok (Success d), w') →
  ∃ l', scrapingLog (scraper w') = Some l' ∧
        ScrapingLog.status l' = ScrapingLog.Completed ∧
        ScrapingLog.inserted (ScrapingLog.results l') = 0 ∧
        ScrapingLog.found (ScrapingLog.results l') = 0 ∧
        itemsFound d = 0 ∧
        store w' = store w.
Proof.
  intros Hirr Hrun.
  destruct (run_success_inv _ _ _ _ _ _ _ Hrun)
    as (wa & allowed & wb & wc & saved & wd & l & Hnil & Hst & Hpre & Hss & Hsave & Hl &
        Hl' & Hitems & Hstore & Hd & _).
  destruct (keeps_precheck _ _ _ _ _ _ Hpre) as [Hb Hbs].
  destruct (keeps_scrapeSources _ _ _ _ Hirr _ _ _ Hss) as [Hc Hcs].
  cbn in Hc, Hcs. rewrite Hb, Hnil in Hc.
  rewrite Hc in Hsave.
  destruct (processAndSaveItems_inv _ _ _ _ _ _ Hsave) as [Hsc [(_ & Hs & Hi & _)|(? & _)]];
    [|done].
  eexists. split; [exact Hl'|].
  rewrite Hd, Hsc, Hc, Hi. cbn. split_and!; try done.
  by rewrite Hstore, Hs, Hcs, Hbs.
Qed.

End RunFacts.

(** ** Examples on concrete inputs *)

Section Witnesses.
Import Sys Robots BaseScraper Aux.

Lemma okSome_eta {A B} (x : option (A * B)) d1 d2 :
  Demo.okSome x = true → x = Some (default d1 (fst <$> x), default d2 (snd <$> x)).
Proof. by destruct x as [[??]|]. Qed.

Lemma succeeded_eta r :
  Demo.succeeded r = true → r = (Ok (Success (Demo.detailsOf r)), r.2).
Proof. unfold Demo.succeeded, Demo.detailsOf. by destruct r as [[[d|e]|e] w]. Qed.

Lemma upserted_eq :
  Content.bulkUpsert Demo.ticks0 0 [Demo.itemA; Demo.itemB] ∅
    = Some (Demo.storeAfter, Demo.resultAfter).
Proof. apply okSome_eta. by vm_compute. Qed.

Lemma random_half (env : Env) :
  (∀ k, random env k = (1 # 2)%Q) → (∀ k, 0 <= random env k < 1)%Q.
Proof. intros H k. rewrite H. by split. Qed.



Lemma C4_witness :
  ∃ w', request Demo.envDenied Demo.cfg Demo.feed None Demo.w0 =
          (Throw (Errors.APIError ("Robots disallowed: " +:+ Demo.feed) 403
                    (Some "ROBOTS_DISALLOWED")), w') ∧
        Demo.feed ∈ failedUrls (scraper w') ∧
        backoffs (trace w') = backoffs (trace Demo.w0) ∧
        requests (trace w') = requests (trace Demo.w0).
Proof.
  destruct (C4_robots_disallowed Demo.envDenied Demo.cfg Demo.feed None Demo.w0
              Demo.wDenied (ScrapingLog.startSession Demo.session 0))
    as (w' & H1 & _ & H3 & _ & H5 & H6 & _).
  - by vm_compute.
  - by vm_compute.
  - reflexivity.
  - exists w'. split; [exact H1|]. split; [exact H3|]. split; [exact H5|exact H6].
Defined.

Lemma C5_witness :
  ∃ w' e, request Demo.envDown Demo.cfg Demo.feed None Demo.w0 =
            (Throw (Errors.ScrapingError
                      (fetchErrorMessage Demo.feed 3 (Errors.message e))
                      (Some Demo.feed)), w') ∧
          Demo.feed ∈ failedUrls (scraper w') ∧
          retryAttempts (scraper w') !! Demo.feed = Some 3.
Proof.
  destruct (C5_retry_with_backoff Demo.envDown Demo.cfg Demo.feed None Demo.w0
              (ScrapingLog.startSession Demo.session 0))
    as (w' & l' & e & ents & H1 & _ & _ & H4 & H5 & _).
  - by vm_compute.
  - apply permits_envDown.
  - reflexivity.
  - apply allFail_envDown.
  - by apply random_half.
  - exists w', e. split; [exact H1|]. split; [exact H5|exact H4].
Defined.

Lemma C6_witness :
  defaultMaxRetries Demo.cfg = 3 ∧
  ∃ w' e, request Demo.envDown Demo.cfg Demo.feed None Demo.w0 =
            (Throw (Errors.ScrapingError
                      (fetchErrorMessage Demo.feed 3 (Errors.message e))
                      (Some Demo.feed)), w') ∧
          requests (trace w') = requests (trace Demo.w0) ++ replicate 3 Demo.feed.
Proof.
  destruct (C6_zero_means_default Demo.pe0 "NewsScraper" "news" "News (RSS)" [Demo.feed]
              Demo.cfg Demo.scraper0 Demo.envDown Demo.feed Demo.w0
              (ScrapingLog.startSession Demo.session 0) "0")
    as (_ & H0 & _ & Hrun).
  - by vm_compute.
  - reflexivity.
  - reflexivity.
  - apply permits_envDown.
  - reflexivity.
  - apply allFail_envDown.
  - split; [exact (H0 eq_refl)|].
    destruct Hrun as (w' & e & H1 & H2 & _); [by vm_compute|].
    exists w', e. split; [exact H1|exact H2].
Defined.

Lemma C7_witness :
  ∃ w1 e, isAllowed Demo.envRobotsDown Demo.feed None (Demo.world Demo.scraper0)
            = (Ok true, w1) ∧
          fetchErrors (stats (robotsCache w1)) = 0 + 1 ∧
          permissive e.
Proof.
  destruct (C7_allow_on_robots_error Demo.envRobotsDown Demo.feed None
              (Demo.world Demo.scraper0))
    as (w1 & e & H1 & H2 & _ & H4 & _).
  - reflexivity.
  - by vm_compute.
  - exists w1, e. split; [exact H1|]. split; [exact H2|exact H4].
Defined.

Lemma C9_witness :
  ∃ l', scrapingLog (scraper Demo.runFiltered.2) = Some l' ∧
        ScrapingLog.status l' = ScrapingLog.Completed ∧
        ScrapingLog.inserted (ScrapingLog.results l') = 0 ∧
        ScrapingLog.found (ScrapingLog.results l') = 0.
Proof.
  destruct (C9_all_candidates_filtered Demo.envUp Demo.cfg (Demo.adapterOf [Demo.itemB])
              "manual" (Demo.world Demo.scraper0)
              (Demo.detailsOf Demo.runFiltered) Demo.runFiltered.2)
    as (l' & H1 & H2 & H3 & H4 & _).
  - intros src xml items c [= <-] ->%list_elem_of_singleton. by vm_compute.
  - apply succeeded_eta. by vm_compute.
  - exists l'. split; [exact H1|]. split; [exact H2|]. split; [exact H3|exact H4].
Defined.


(** Counterexample to C9 as the specification states it: in a completed
    run whose only candidate fails the relevance filter, [found] is 0, not
    positive. *)
Lemma C9_counterexample :
  isRelevant Demo.cfg Demo.itemB = false ∧
  Demo.succeeded Demo.runFiltered = true ∧
  ∃ l', scrapingLog (scraper Demo.runFiltered.2) = Some l' ∧
        ScrapingLog.status l' = ScrapingLog.Completed ∧
        ¬ (0 < ScrapingLog.found (ScrapingLog.results l')).
Proof.
  split; [by vm_compute|]. split; [by vm_compute|].
  eexists. split; [by vm_compute|]. split; [done|]. by vm_compute.
Qed.
End Witnesses.

(** ** Run log: invariants *)

Section LogInvariants.
Import ScrapingLog LogView.

Lemma apply_coherent (l : Log) (c : Call) : coherent l → coherent (apply l c).
Proof.
  unfold coherent. destruct c; cbn; try done.
  all: intros _; split; [set_solver|done].
Qed.

(** X1.  From [startSession] on, whatever methods are called on a run log
    and in whatever order, its [status], [endedAt] and [duration] agree:
    while [endedAt] is unset the log is running with duration 0, and once
    it is set the status is completed, failed or cancelled and the
    duration is [endedAt - startedAt].  The log is never pending or
    partial. *)
Theorem log_stays_coherent (s : Session) (now : Z) (cs : list Call) :
  coherent (fold_left apply cs (startSession s now)).
Proof.
  assert (H : ∀ l, coherent l → coherent (fold_left apply cs l)).
  { induction cs as [|c cs IH]; intros l Hl; [done|].
    cbn. by apply IH, apply_coherent. }
  apply H. by split.
Qed.

Lemma apply_errorLogs (l : Log) (c : Call) :
  ∃ ents, errorLogs (apply l c) = errorLogs l ++ ents ∧
          length ents = (if logsError c then 1 else 0)%nat.
Proof.
  destruct c; cbn; first [by eexists [_] | exists []; by rewrite app_nil_r].
Qed.

Lemma apply_warnings (l : Log) (c : Call) :
  ∃ ents, warnings (apply l c) = warnings l ++ ents ∧
          length ents = (if logsWarning c then 1 else 0)%nat.
Proof.
  destruct c; cbn; first [by eexists [_] | exists []; by rewrite app_nil_r].
Qed.

(** X2.  The error and warning lists of a run log are append-only: after
    any sequence of calls the old entries are still there, in place, and
    [errorCount] has grown by the number of [addError] and [fail] calls,
    the warnings by the number of [addWarning] calls. *)
Theorem log_entries_append_only (l : Log) (cs : list Call) :
  let l' := fold_left apply cs l in
  errorLogs l `prefix_of` errorLogs l' ∧
  warnings l `prefix_of` warnings l' ∧
  errorCount l' = errorCount l + Z.of_nat (length (filter (λ c, logsError c = true) cs)) ∧
  Z.of_nat (length (warnings l')) =
    Z.of_nat (length (warnings l)) + Z.of_nat (length (filter (λ c, logsWarning c = true) cs)).
Proof.
  cbn zeta. unfold errorCount. revert l.
  induction cs as [|c cs IH]; intros l.
  - cbn. split_and!; try done; lia.
  - cbn [fold_left]. destruct (IH (apply l c)) as (He & Hw & Hec & Hwc).
    destruct (apply_errorLogs l c) as (es & Hes & Hel).
    destruct (apply_warnings l c) as (ws & Hws & Hwl).
    rewrite Hes in He, Hec. rewrite Hws in Hw, Hwc.
    rewrite length_app in Hec, Hwc.
    split_and!.
    + etrans; [|exact He]. by apply prefix_app_r.
    + etrans; [|exact Hw]. by apply prefix_app_r.
    + rewrite Hec, filter_cons. destruct (logsError c); cbn.
      * rewrite decide_True by done. cbn. lia.
      * rewrite decide_False by done. lia.
    + rewrite Hwc, filter_cons. destruct (logsWarning c); cbn.
      * rewrite decide_True by done. cbn. lia.
      * rewrite decide_False by done. lia.
Qed.

Lemma results_eta (r : Results) :
  {| found := found r; inserted := inserted r; updated := updated r;
     duplicates := duplicates r; failed := failed r;
     urlsProcessed := urlsProcessed r; urlsFailed := urlsFailed r |} = r.
Proof. by destruct r. Qed.

(** X3.  [updateResults] adds: two updates commute, an update whose
    counters are all absent or zero changes nothing, and over a sequence
    of calls without [complete] the [found] counter ends at its start
    value plus the sum of the [found] values passed to [updateResults]. *)
Theorem updateResults_accumulates (l : Log) :
  (∀ a b, updateResults a (updateResults b l) = updateResults b (updateResults a l)) ∧
  (∀ a, default 0 (a_found a) = 0 → default 0 (a_inserted a) = 0 →
        default 0 (a_updated a) = 0 → default 0 (a_duplicates a) = 0 →
        default 0 (a_failed a) = 0 → default 0 (a_urlsProcessed a) = 0 →
        default 0 (a_urlsFailed a) = 0 → updateResults a l = l) ∧
  (∀ cs, Forall (λ c, isComplete c = false) cs →
         found (results (fold_left apply cs l)) =
           found (results l) + foldr (λ c acc, foundDelta c + acc) 0 cs).
Proof.
  split_and!.
  - intros a b. unfold updateResults, bump. cbn. f_equal. f_equal; lia.
  - intros a H1 H2 H3 H4 H5 H6 H7. unfold updateResults, bump.
    rewrite H1, H2, H3, H4, H5, H6, H7, !Z.add_0_r, results_eta. by destruct l.
  - intros cs. revert l. induction cs as [|c cs IH]; intros l Hcs.
    + cbn. lia.
    + apply Forall_cons in Hcs as [Hc Hcs]. cbn [fold_left foldr].
      rewrite IH by done. destruct c; cbn in *; try done; try lia.
      unfold bump. lia.
Qed.

End LogInvariants.

(** ** Content: cleanup and upsert together *)

Section StoreFacts.
Import Content Aux StoreTerms.

Lemma cleanup_lookup maxAgeDays now (s : Store) k :
  (cleanup maxAgeDays now s).1 !! k =
    d ← s !! k; if doomed (now - maxAgeDays * msPerDay) d then None else Some d.
Proof.
  unfold cleanup. cbn [fst]. destruct (s !! k) as [d|] eqn:Hd; cbn.
  - destruct (doomed _ d) eqn:E.
    + apply map_lookup_filter_None. right. intros d' Hd'. simpl.
      rewrite Hd in Hd'. injection Hd' as <-. by rewrite E.
    + apply map_lookup_filter_Some. by split.
  - apply map_lookup_filter_None. by left.
Qed.

Lemma doomed_mono c c' (d : Doc) : c' ≤ c → doomed c' d = true → doomed c d = true.
Proof.
  unfold doomed, expired. intros Hc.
  destruct (d !! "scrapedAt") as [[]|]; try done.
  rewrite !andb_true_iff, !Z.ltb_lt. intros [??]. split; [lia|done].
Qed.

(** X4.  [cleanup] is idempotent: a second cleanup with the same or an
    earlier cutoff, run on the result of the first, deletes nothing and
    returns 0. *)
Theorem cleanup_idempotent maxAgeDays now maxAgeDays' now' (s : Store) :
  now' - maxAgeDays' * msPerDay ≤ now - maxAgeDays * msPerDay →
  cleanup maxAgeDays' now' (cleanup maxAgeDays now s).1 = ((cleanup maxAgeDays now s).1, 0).
Proof.
  intros Hc.
  set (s1 := (cleanup maxAgeDays now s).1).
  assert (Hkeep : ∀ k d, s1 !! k = Some d →
            doomed (now' - maxAgeDays' * msPerDay) d = false).
  { intros k d. unfold s1. rewrite cleanup_lookup.
    destruct (s !! k) as [d0|]; cbn; [|done].
    destruct (doomed (now - _) d0) eqn:E; [done|]. intros [= <-].
    destruct (doomed (now' - _) d0) eqn:E'; [|done].
    by rewrite (doomed_mono _ _ _ Hc E') in E. }
  unfold cleanup at 1. f_equal.
  - apply map_filter_id. intros k d Hd. simpl. by eapply Hkeep.
  - assert (filter (λ kd : string * Doc,
              doomed (now' - maxAgeDays' * msPerDay) kd.2 = true) s1 = ∅) as ->.
    { apply map_empty. intros k. apply map_lookup_filter_None. right.
      intros d Hd. simpl. by rewrite (Hkeep k d Hd). }
    by rewrite map_size_empty.
Qed.

Lemma fieldsOf_scrapedAt (c : Item) : fieldsOf c !! "scrapedAt" = None.
Proof. unfold fieldsOf. by rewrite !lookup_put_ne by done. Qed.

Lemma fieldsOf_status (c : Item) : fieldsOf c !! "status" = None.
Proof. unfold fieldsOf. by rewrite !lookup_put_ne by done. Qed.

Lemma operation_set_keys c t1 t2 op :
  operation c t1 t2 = Some op →
  set_ op !! "scrapedAt" = None ∧ set_ op !! "status" = None.
Proof.
  unfold operation. destruct (url c); [|done]. destruct (title c); [|done].
  cbn. intros [= <-]. cbn.
  by rewrite !lookup_insert_ne, fieldsOf_scrapedAt, fieldsOf_status by done.
Qed.

Lemma written_keys k ops f :
  Forall (λ op, set_ op !! f = None) ops → written k ops !! f = None.
Proof.
  induction 1 as [|op ops Hop _ IH]; [done|].
  cbn [written]. apply lookup_union_None. split; [done|].
  by destruct (decide _).
Qed.

(** X5.  [bulkUpsert] never deletes a record and never touches the
    [scrapedAt] or [status] of one that exists: scraping a record again
    does not make it any younger for [cleanup], which deletes it after the
    upsert exactly if it would have deleted it before. *)
Theorem bulkUpsert_keeps_scrapedAt clk tick contents (s s' : Store) r :
  bulkUpsert clk tick contents s = Some (s', r) →
  ∀ k d, s !! k = Some d →
    ∃ d', s' !! k = Some d' ∧
      d' !! "scrapedAt" = d !! "scrapedAt" ∧ d' !! "status" = d !! "status" ∧
      ∀ maxAgeDays now,
        (cleanup maxAgeDays now s').1 !! k = None ↔ (cleanup maxAgeDays now s).1 !! k = None.
Proof.
  intros (ops & Hops & -> & _)%bulkUpsert_inv k d Hd.
  pose proof (operations_Forall2 _ _ _ _ Hops) as HF.
  assert (Hk1 : Forall (λ op, set_ op !! "scrapedAt" = None) ops).
  { clear -HF. induction HF as [|???? (t1 & t2 & H)]; constructor; [|done].
    by apply operation_set_keys in H as [? _]. }
  assert (Hk2 : Forall (λ op, set_ op !! "status" = None) ops).
  { clear -HF. induction HF as [|???? (t1 & t2 & H)]; constructor; [|done].
    by apply operation_set_keys in H as [_ ?]. }
  exists (written k ops ∪ d).
  assert (Hsa : (written k ops ∪ d) !! "scrapedAt" = d !! "scrapedAt").
  { by rewrite lookup_union_r by by apply written_keys. }
  assert (Hst : (written k ops ∪ d) !! "status" = d !! "status").
  { by rewrite lookup_union_r by by apply written_keys. }
  split_and!; [by apply bulkWrite_lookup_Some|done..|].
  intros m now. rewrite !cleanup_lookup, Hd, (bulkWrite_lookup_Some ops s k d Hd). cbn.
  assert (doomed (now - m * msPerDay) (written k ops ∪ d) = doomed (now - m * msPerDay) d) as ->.
  { unfold doomed, expired, flagged. by rewrite Hsa, Hst. }
  by destruct (doomed _ d).
Qed.

Lemma operations_hashes clk : ∀ contents tick ops,
  operations clk tick contents = Some ops → filterHash <$> ops = hashes contents.
Proof.
  induction contents as [|c cs IH]; intros tick ops; cbn.
  - by intros [= <-].
  - destruct (operation c _ _) as [op|] eqn:Hop; [|done].
    destruct (operations clk _ cs) as [ops'|] eqn:Hops; [|done].
    cbn. intros [= <-].
    destruct (operation_Some _ _ _ _ Hop) as (u & t & Hu & Ht).
    unfold hashes. cbn. unfold hashOf at 1. rewrite Hu, Ht. cbn.
    rewrite (operation_hash _ _ _ _ _ _ Hop Hu Ht). f_equal. by eapply IH.
Qed.

Lemma updateOne_dom op (s : Store) : dom (updateOne op s).1 = {[filterHash op]} ∪ dom s.
Proof. rewrite updateOne_store. by rewrite dom_insert_L. Qed.

Lemma bulkWrite_dom ops : ∀ (s : Store),
  dom (bulkWrite ops s).1 = dom s ∪ list_to_set (filterHash <$> ops).
Proof.
  induction ops as [|op ops IH]; intros s.
  - cbn. by rewrite (right_id_L ∅ (∪)).
  - rewrite bulkWrite_cons. cbn [fst]. rewrite IH, updateOne_dom, fmap_cons, list_to_set_cons.
    rewrite (comm_L (∪) {[filterHash op]} (dom s)). by rewrite (assoc_L (∪)).
Qed.

Lemma size_add_fresh (h : string) (X Y : gset string) :
  h ∉ Y → size ({[h]} ∪ (X ∖ ({[h]} ∪ Y))) = S (size (X ∖ ({[h]} ∪ Y))).
Proof.
  intros. rewrite size_union; [by rewrite size_singleton|].
  intros x ->%elem_of_singleton [_ Hx]%elem_of_difference.
  apply Hx, elem_of_union. left. by apply elem_of_singleton.
Qed.

Lemma size_split (X Y : gset string) : size (Y ∪ X) = (size Y + size (X ∖ Y))%nat.
Proof.
  rewrite <- size_union.
  - f_equal. apply set_eq. intros x. rewrite !elem_of_union, !elem_of_difference.
    destruct (decide (x ∈ Y)); tauto.
  - intros x Hx [_ Hn]%elem_of_difference. done.
Qed.

Lemma bulkWrite_upserted ops : ∀ (s : Store),
  count Upserted (bulkWrite ops s).2 =
    Z.of_nat (size (list_to_set (filterHash <$> ops) ∖ dom s : gset string)).
Proof.
  induction ops as [|op ops IH]; intros s.
  - cbn. assert ((∅ : gset string) ∖ dom s = ∅) as ->; [|by rewrite size_empty].
    apply set_eq. intros x. rewrite elem_of_difference. split; [tauto|].
    by intros ?%elem_of_empty.
  - rewrite bulkWrite_cons. cbn [snd]. unfold count in *.
    specialize (IH (updateOne op s).1). rewrite updateOne_dom in IH.
    rewrite fmap_cons, list_to_set_cons.
    destruct (s !! filterHash op) as [d|] eqn:Hd.
    + assert (Ho : (updateOne op s).2 ≠ Upserted).
      { unfold updateOne. rewrite Hd. simpl. by case_decide. }
      rewrite filter_cons_False by done. rewrite IH. do 2 f_equal.
      apply elem_of_dom_2 in Hd. apply set_eq. intros x.
      rewrite !elem_of_difference, !elem_of_union, elem_of_singleton.
      destruct (decide (x = filterHash op)) as [->|]; tauto.
    + assert (Ho : (updateOne op s).2 = Upserted).
      { unfold updateOne. by rewrite Hd. }
      rewrite filter_cons_True by done. cbn [length]. rewrite Nat2Z.inj_succ, IH.
      apply not_elem_of_dom in Hd.
      replace (({[filterHash op]} ∪ list_to_set (filterHash <$> ops)) ∖ dom s)
        with ({[filterHash op]} ∪
              (list_to_set (filterHash <$> ops) ∖ ({[filterHash op]} ∪ dom s)) : gset string).
      * rewrite size_add_fresh by done. lia.
      * apply set_eq. intros x. rewrite !elem_of_union, !elem_of_difference, !elem_of_union,
          !elem_of_singleton.
        destruct (decide (x = filterHash op)) as [->|]; tauto.
Qed.


End StoreFacts.

(** ** Content: short description, age and paging *)

Section ViewFacts.
Import ContentView.

Lemma append_cons (c : ascii) (a b : string) : String c a +:+ b = String c (a +:+ b).
Proof. reflexivity. Qed.

Lemma append_nil (b : string) : "" +:+ b = b.
Proof. reflexivity. Qed.

Lemma length_append (a b : string) :
  String.length (a +:+ b) = (String.length a + String.length b)%nat.
Proof.
  induction a as [|c a IH]; [done|].
  rewrite append_cons. cbn. by rewrite IH.
Qed.

Lemma length_substring0 (n : nat) (s : string) :
  String.length (String.substring 0 n s) = (n `min` String.length s)%nat.
Proof.
  revert s. induction n as [|n IH]; intros [|c s]; cbn; try done.
  by rewrite IH.
Qed.

Lemma substring0_append (a b : string) :
  String.substring 0 (String.length a) (a +:+ b) = a.
Proof.
  induction a as [|c a IH].
  - rewrite append_nil. by destruct b.
  - rewrite append_cons. cbn. by rewrite IH.
Qed.

Lemma substring0_prefix (n : nat) (s : string) :
  String.prefix (String.substring 0 n s) s = true.
Proof.
  revert s. induction n as [|n IH]; intros [|c s]; cbn; try done.
  rewrite IH. by destruct (ascii_dec c c).
Qed.


(** X8.  The age label is decided by the whole days between publication
    and now: "Today" within the first 24 hours, "Yesterday" in the next
    24, then days (2 to 6), weeks (1 to 4), months (1 to 12) and years (1
    or more), each rounded down.  A publication date in the future gives a
    negative number of days, never "Today". *)
Theorem age_label (now published : Z) :
  let diff := now - published in
  let days := diff / 86400000 in
  ∃ label, age now (Some published) = Some label ∧
    ((label = "Today" ∧ 0 ≤ diff < 86400000) ∨
     (label = "Yesterday" ∧ 86400000 ≤ diff < 2 * 86400000) ∨
     (label = pretty days +:+ " days ago" ∧ 2 ≤ days < 7) ∨
     (label = pretty days +:+ " days ago" ∧ days < 0 ∧ now < published) ∨
     (∃ n, label = pretty n +:+ " weeks ago" ∧ 1 ≤ n ≤ 4 ∧ n = days / 7 ∧ 7 ≤ days < 30) ∨
     (∃ n, label = pretty n +:+ " months ago" ∧ 1 ≤ n ≤ 12 ∧ n = days / 30 ∧
           30 ≤ days < 365) ∨
     (∃ n, label = pretty n +:+ " years ago" ∧ 1 ≤ n ∧ n = days / 365 ∧ 365 ≤ days)).
Proof.
  cbn zeta. unfold age. change (1000 * 60 * 60 * 24) with 86400000.
  set (diff := now - published). set (days := diff / 86400000).
  assert (Hd : 86400000 * days ≤ diff < 86400000 * days + 86400000).
  { pose proof (Z.mod_pos_bound diff 86400000 ltac:(lia)).
    pose proof (Z.div_mod diff 86400000 ltac:(lia)). subst days. lia. }
  eexists. split; [reflexivity|].
  destruct (days =? 0) eqn:E0; [apply Z.eqb_eq in E0; left; split; [done|lia]|].
  apply Z.eqb_neq in E0.
  destruct (days =? 1) eqn:E1; [apply Z.eqb_eq in E1; right; left; split; [done|lia]|].
  apply Z.eqb_neq in E1.
  destruct (days <? 7) eqn:E7.
  { apply Z.ltb_lt in E7. destruct (decide (days < 0)).
    - right; right; right; left. split_and!; [done|done|subst diff; lia].
    - right; right; left. split; [done|lia]. }
  apply Z.ltb_ge in E7.
  destruct (days <? 30) eqn:E30.
  { apply Z.ltb_lt in E30. do 4 right. left. exists (days / 7).
    split_and!; try done; try lia.
    - apply Z.div_le_lower_bound; lia.
    - assert (days / 7 < 5) by (apply Z.div_lt_upper_bound; lia). lia. }
  apply Z.ltb_ge in E30.
  destruct (days <? 365) eqn:E365.
  { apply Z.ltb_lt in E365. do 5 right. left. exists (days / 30).
    split_and!; try done; try lia.
    - apply Z.div_le_lower_bound; lia.
    - assert (days / 30 < 13) by (apply Z.div_lt_upper_bound; lia). lia. }
  apply Z.ltb_ge in E365.
  do 6 right. exists (days / 365). split_and!; try done.
  apply Z.div_le_lower_bound; lia.
Qed.

Lemma ceilDiv_pos (total limit : Z) :
  1 ≤ limit →
  ∃ p, ceilDiv total limit = Num p ∧ (p - 1) * limit < total ≤ p * limit.
Proof.
  intros Hl. unfold ceilDiv. rewrite (proj2 (Z.eqb_neq _ _)) by lia.
  eexists. split; [reflexivity|].
  pose proof (Z.mod_pos_bound (- total) limit ltac:(lia)).
  pose proof (Z.div_mod (- total) limit ltac:(lia)). nia.
Qed.

Lemma window_length {A} (matches : list A) (page limit : Z) :
  1 ≤ page → 1 ≤ limit →
  Z.of_nat (length (window matches page limit)) =
    Z.min limit (Z.max 0 (Z.of_nat (length matches) - skipOf page limit)).
Proof.
  intros Hp Hl. unfold window, skipOf. rewrite length_take, length_drop. nia.
Qed.

(** X9.  For a page size of at least 1 and a page number of at least 1,
    [pages] is the least number of pages that hold [total] documents,
    [hasNext] says exactly that documents remain after this page, and
    [hasPrev] that some were skipped.  A page with [hasNext] is full; the
    page returned holds [min(limit, total - skip)] documents, none when
    [skip] reaches [total]. *)
Theorem pagination_spec {A} (matches : list A) (page limit : Z) :
  1 ≤ page → 1 ≤ limit →
  let total := Z.of_nat (length matches) in
  let p := pagination page limit total in
  let skip := skipOf page limit in
  (∃ n, pages p = Num n ∧ 0 ≤ n ∧ (n - 1) * limit < total ≤ n * limit) ∧
  (hasNext p = true ↔ skip + limit < total) ∧
  (hasPrev p = true ↔ 0 < skip) ∧
  Z.of_nat (length (window matches page limit)) = Z.min limit (Z.max 0 (total - skip)) ∧
  (hasNext p = true → Z.of_nat (length (window matches page limit)) = limit) ∧
  (hasNext p = false →
   drop (Z.to_nat (skip + limit)) matches = []).
Proof.
  intros Hp Hl. cbn zeta. unfold pagination. cbn [pages hasNext hasPrev].
  destruct (ceilDiv_pos (Z.of_nat (length matches)) limit Hl) as (n & -> & Hn).
  cbn [ltNum]. unfold skipOf.
  assert (Hnext : (page <? n) = true ↔ (page - 1) * limit + limit < Z.of_nat (length matches)).
  { rewrite Z.ltb_lt. split; intros; nia. }
  split_and!.
  - exists n. split; [done|]. split; [nia|done].
  - exact Hnext.
  - rewrite Z.ltb_lt. nia.
  - by apply window_length.
  - intros H%Hnext. rewrite window_length by done. unfold skipOf. lia.
  - intros H. apply drop_ge.
    destruct (decide ((page - 1) * limit + limit < Z.of_nat (length matches))) as [Hlt|Hge].
    + apply Hnext in Hlt. congruence.
    + lia.
Qed.

Lemma windows_cover {A} (limit : nat) : ∀ (n : nat) (l : list A),
  (0 < limit)%nat → (length l ≤ n * limit)%nat →
  concat ((λ i, take limit (drop (i * limit) l)) <$> seq 0 n) = l.
Proof.
  induction n as [|n IH]; intros l Hl Hlen.
  - destruct l; [done|]. cbn in Hlen. lia.
  - cbn [seq fmap list_fmap concat]. rewrite Nat.mul_0_l, drop_0.
    rewrite <- fmap_S_seq, <- list_fmap_compose.
    transitivity (take limit l ++ drop limit l); [|apply take_drop]. f_equal.
    etrans; [|apply (IH (drop limit l)); [done|rewrite length_drop; lia]].
    f_equal. apply list_fmap_ext. intros _ i _. cbn.
    by rewrite drop_drop.
Qed.

(** X10.  Paging loses and repeats nothing: for a page size of at least 1
    the pages 1, 2, ..., [pages], laid end to end, are the matching
    documents in order. *)
Theorem pages_cover {A} (matches : list A) (limit : Z) :
  1 ≤ limit →
  ∃ n, pages (pagination 1 limit (Z.of_nat (length matches))) = Num (Z.of_nat n) ∧
       concat ((λ i, window matches (Z.of_nat (S i)) limit) <$> seq 0 n) = matches.
Proof.
  intros Hl. unfold pagination. cbn [pages].
  destruct (ceilDiv_pos (Z.of_nat (length matches)) limit Hl) as (p & -> & Hp).
  exists (Z.to_nat p). rewrite Z2Nat.id by nia. split; [done|].
  etrans; [|apply (windows_cover (Z.to_nat limit) (Z.to_nat p) matches); [lia|nia]].
  f_equal. apply list_fmap_ext. intros _ i _. unfold window, skipOf.
  do 2 f_equal. lia.
Qed.

(** X11.  With a page size of 0 the page count is not a number:
    [Math.ceil(total / 0)] is [Infinity] when there are documents, so
    [hasNext] is true on every page, and NaN when there are none, so
    [hasNext] is false. *)
Theorem pagination_limit_zero (page total : Z) :
  (0 < total → pages (pagination page 0 total) = Infinity ∧
               hasNext (pagination page 0 total) = true) ∧
  (total = 0 → pages (pagination page 0 total) = NaN ∧
               hasNext (pagination page 0 total) = false).
Proof.
  unfold pagination, ceilDiv. cbn. split.
  - intros H. rewrite (proj2 (Z.eqb_neq _ _)), (proj2 (Z.ltb_lt _ _)) by lia. done.
  - by intros ->.
Qed.

End ViewFacts.

(** ** Examples for the content store, its views and paging *)

Section StoreExamples.
Import Content StoreTerms ContentView.

Lemma okSome_default {A} (x : option A) d : Demo.okSome x = true → x = Some (default d x).
Proof. by destruct x. Qed.

Lemma upsertedAgain_eq :
  bulkUpsert Demo.ticks0 7 [Demo.itemA; Demo.itemB] Demo.storeAfter
    = Some (StoreDemo.storeAgain, StoreDemo.resultAgain).
Proof. apply okSome_eta. by vm_compute. Qed.

Lemma docA_eq : Demo.storeAfter !! StoreDemo.hashA = Some StoreDemo.docA.
Proof. apply okSome_default. by vm_compute. Qed.

Lemma cleanup_idempotent_witness :
  cleanup 90 5000000000 (cleanup 30 5000000000 Demo.storeAfter).1
    = ((cleanup 30 5000000000 Demo.storeAfter).1, 0).
Proof. apply cleanup_idempotent. unfold msPerDay. lia. Defined.

Lemma bulkUpsert_keeps_scrapedAt_witness :
  ∃ d', StoreDemo.storeAgain !! StoreDemo.hashA = Some d' ∧
        d' !! "scrapedAt" = StoreDemo.docA !! "scrapedAt".
Proof.
  destruct (bulkUpsert_keeps_scrapedAt Demo.ticks0 7 [Demo.itemA; Demo.itemB]
              Demo.storeAfter StoreDemo.storeAgain StoreDemo.resultAgain
              upsertedAgain_eq StoreDemo.hashA StoreDemo.docA docA_eq)
    as (d' & H1 & H2 & _).
  exists d'. split; [exact H1|exact H2].
Defined.


Lemma pagination_spec_witness :
  hasNext (pagination 2 2 (Z.of_nat (length [1; 2; 3; 4; 5]))) = true ↔
  skipOf 2 2 + 2 < Z.of_nat (length [1; 2; 3; 4; 5]).
Proof.
  destruct (pagination_spec [1; 2; 3; 4; 5] 2 2) as (_ & H & _); [lia|lia|exact H].
Defined.

Lemma pages_cover_witness :
  ∃ n, pages (pagination 1 2 (Z.of_nat (length [1; 2; 3; 4; 5]))) = Num (Z.of_nat n) ∧
       concat ((λ i, window [1; 2; 3; 4; 5] (Z.of_nat (S i)) 2) <$> seq 0 n)
         = [1; 2; 3; 4; 5].
Proof. apply (pages_cover [1; 2; 3; 4; 5] 2). lia. Defined.

End StoreExamples.

(** ** The relevance filter *)

Section FilterFacts.
Import JsString Sys BaseScraper.

Lemma lower_ascii_idem (c : ascii) : lower_ascii (lower_ascii c) = lower_ascii c.
Proof. by destruct c as [[] [] [] [] [] [] [] []]. Qed.

Lemma toLowerCase_idem (s : string) : toLowerCase (toLowerCase s) = toLowerCase s.
Proof. induction s as [|c s IH]; cbn; [done|]. by rewrite lower_ascii_idem, IH. Qed.

Lemma toLowerCase_append (a b : string) :
  toLowerCase (a +:+ b) = toLowerCase a +:+ toLowerCase b.
Proof.
  induction a as [|c a IH]; [reflexivity|].
  rewrite append_cons. cbn. by rewrite IH, append_cons.
Qed.

Lemma append_assoc (a b c : string) : (a +:+ b) +:+ c = a +:+ b +:+ c.
Proof.
  induction a as [|x a IH]; [reflexivity|]. by rewrite !append_cons, IH.
Qed.

Lemma append_empty_r (a : string) : a +:+ "" = a.
Proof. induction a as [|x a IH]; [reflexivity|]. by rewrite append_cons, IH. Qed.

Lemma prefix_append (k b : string) : String.prefix k (k +:+ b) = true.
Proof.
  induction k as [|c k IH]; [by destruct b|].
  rewrite append_cons. cbn. by destruct (ascii_dec c c).
Qed.

Lemma includes_unfold (haystack needle : string) :
  includes haystack needle =
    String.prefix needle haystack ||
    match haystack with
    | EmptyString => false
    | String _ r => includes r needle
    end.
Proof. by destruct haystack. Qed.

Lemma includes_append (a k b : string) : includes (a +:+ k +:+ b) k = true.
Proof.
  induction a as [|c a IH].
  - rewrite append_nil, includes_unfold. by rewrite prefix_append.
  - rewrite append_cons. cbn. rewrite IH. apply orb_true_r.
Qed.

Lemma join_member (sep k : string) (parts : list string) :
  k ∈ parts → ∃ a b, join sep parts = a +:+ k +:+ b.
Proof.
  induction parts as [|p parts IH]; intros Hk.
  - by apply elem_of_nil in Hk.
  - apply elem_of_cons in Hk as [->|Hk].
    + destruct parts as [|q parts].
      * exists "", "". cbn. by rewrite append_nil, append_empty_r.
      * exists "", (sep +:+ join sep (q :: parts)). by rewrite append_nil.
    + destruct (IH Hk) as (a & b & Hab). destruct parts as [|q parts].
      * by apply elem_of_nil in Hk.
      * exists (p +:+ sep +:+ a), b.
        change (join sep (p :: q :: parts)) with (p +:+ sep +:+ join sep (q :: parts)).
        rewrite Hab. by rewrite !append_assoc.
Qed.

(** A lower-case, non-empty keyword carried by the item is found in the
    text the filter scans. *)
Lemma corpus_includes_keyword (item : Content.Item) (k : string) :
  k ∈ Content.keywords item → truthy k = true → toLowerCase k = k →
  includes (corpus item) k = true.
Proof.
  intros Hk Ht Hl. unfold corpus.
  match goal with |- context [join " " ?parts] =>
    destruct (join_member " " k parts) as (a & b & ->)
  end.
  - apply list_elem_of_filter. split; [done|].
    do 2 apply list_elem_of_further. rewrite !elem_of_app. right. by left.
  - rewrite !toLowerCase_append, Hl. apply includes_append.
Qed.

Lemma SEARCH_KEYWORDS_lower (pe : ProcessEnv) :
  Forall (λ k, truthy k = true ∧ toLowerCase k = k) (SEARCH_KEYWORDS pe).
Proof.
  unfold SEARCH_KEYWORDS.
  assert (Hdef : Forall (λ k, truthy k = true ∧ toLowerCase k = k) ["webmethods"])
    by by repeat constructor.
  destruct (env_SEARCH_KEYWORDS pe) as [s|]; [|done].
  destruct (truthy s); [|done].
  apply Forall_forall. intros k [Hk Hin]%list_elem_of_filter. split; [done|].
  apply list_elem_of_fmap in Hin as (x & -> & _). apply toLowerCase_idem.
Qed.

Lemma construct_keywords pe nm ty src urls cfg s0 :
  construct pe nm ty src urls = Some (cfg, s0) → keywords cfg = SEARCH_KEYWORDS pe.
Proof. unfold construct. case_match; [|done]. by intros [= <- _]. Qed.

(** X12.  The relevance filter scans the item's own [keywords] field.  An
    item that carries the scraper's configured keywords there, as the
    news, job and blog adapters attach them, is relevant whatever its
    title and description say, provided one keyword is configured; if it
    has a title and a url, [addItem] stores it. *)
Theorem keyworded_item_passes_filter pe nm ty src urls cfg s0 (item : Content.Item) :
  construct pe nm ty src urls = Some (cfg, s0) →
  keywords cfg ≠ [] →
  Content.keywords item = keywords cfg →
  isRelevant cfg item = true ∧
  (truthyOpt (Content.title item) = true → truthyOpt (Content.url item) = true →
   ∀ w, addItem cfg item w = (Ok tt, on_scraper (pushItem (stamp cfg item)) w)).
Proof.
  intros Hc Hne Hkw.
  assert (Hrel : isRelevant cfg item = true).
  { unfold isRelevant. pose proof (SEARCH_KEYWORDS_lower pe) as Hlow.
    rewrite <- (construct_keywords _ _ _ _ _ _ _ Hc) in Hlow.
    destruct (keywords cfg) as [|k ks] eqn:E; [done|].
    apply Forall_cons in Hlow as [[Ht Hl] _]. cbn [existsb].
    rewrite corpus_includes_keyword; [done| |done..].
    rewrite Hkw. left. }
  split; [done|]. intros Ht Hu w. unfold addItem. by rewrite Ht, Hu, Hrel.
Qed.

(** X13.  A [SEARCH_KEYWORDS] value made of commas and blanks only leaves
    the scraper without any keyword, and then [addItem] drops every
    item. *)
Theorem blank_keywords_drop_everything pe nm ty src urls cfg s0 s :
  construct pe nm ty src urls = Some (cfg, s0) →
  env_SEARCH_KEYWORDS pe = Some s → truthy s = true →
  (∀ piece, piece ∈ splitComma "" s → trim piece = "") →
  keywords cfg = [] ∧ ∀ item w, addItem cfg item w = (Ok tt, w).
Proof.
  intros Hc Hs Ht Hblank.
  assert (Hk : keywords cfg = []).
  { rewrite (construct_keywords _ _ _ _ _ _ _ Hc). unfold SEARCH_KEYWORDS. rewrite Hs, Ht.
    generalize (splitComma "" s) Hblank. intros pieces Hp.
    induction pieces as [|x pieces IH]; [done|].
    rewrite fmap_cons, filter_cons_False.
    - apply IH. intros piece Hin. apply Hp. by right.
    - rewrite (Hp x) by left. done. }
  split; [done|]. intros item w. unfold addItem, isRelevant. rewrite Hk. cbn.
  by destruct (_ || _).
Qed.

Lemma keyworded_item_passes_filter_witness :
  isRelevant Demo.cfg FilterDemo.itemU = true.
Proof.
  destruct (keyworded_item_passes_filter Demo.pe0 "NewsScraper" "news" "News (RSS)"
              [Demo.feed] Demo.cfg Demo.scraper0 FilterDemo.itemU) as [H _].
  - by vm_compute.
  - done.
  - reflexivity.
  - exact H.
Defined.

Lemma blank_keywords_drop_everything_witness :
  keywords FilterDemo.cfgBlank = [] ∧
  ∀ item w, addItem FilterDemo.cfgBlank item w = (Ok tt, w).
Proof.
  apply (blank_keywords_drop_everything FilterDemo.peBlank "NewsScraper" "news" "News (RSS)"
           [Demo.feed] FilterDemo.cfgBlank Demo.scraper0 " , ,").
  - by vm_compute.
  - reflexivity.
  - reflexivity.
  - intros piece Hp. vm_compute in Hp.
    repeat (apply elem_of_cons in Hp as [->|Hp]; [by vm_compute|]).
    by apply elem_of_nil in Hp.
Defined.

End FilterFacts.

(** ** The request loop: recovery, and what is left behind *)

Section RetryFacts.
Import Sys Robots BaseScraper Aux RetryTerms.

Lemma requestLoop_success_step env cfg url max f a w body :
  a < max →
  robotsPermits env url (Some (robotsUserAgent cfg)) w →
  succeedsAt env url (pageCalls (calls w)) body →
  ∃ w1, robotsFrame w w1 ∧
    requestLoop env cfg url max (S f) a w =
      (Ok (Some body), on_scraper (markProcessed url) (afterFetch url w1)).
Proof.
  intros Ha Hperm (st & Hhttp & Hst).
  destruct (isAllowed_permits _ _ _ _ Hperm) as (w1 & Hrun & Hfr & _).
  exists w1. split; [done|].
  destruct Hfr as (_&_&_&Hp&_).
  cbn [requestLoop]. rewrite (proj2 (Z.ltb_lt _ _) Ha).
  unfold try_catch, bind at 1. rewrite (attempt_allowed _ _ _ _ _ Hrun), Hp.
  unfold pageFails. rewrite Hhttp.
  assert ((200 <=? st) && (st <? 400) = true) as ->; [|reflexivity].
  apply andb_true_iff. split; [apply Z.leb_le|apply Z.ltb_lt]; lia.
Qed.

Lemma failsFrom_S env url p k :
  failsFrom env url p (S k) →
  (∃ e, pageFails env p url = Some e ∧ Errors.isRobotsDisallowed e = false) ∧
  failsFrom env url (S p) k.
Proof.
  intros H. split.
  - destruct (H 0%nat ltac:(lia)) as (e & He & ?). rewrite Nat.add_0_r in He. eauto.
  - intros i Hi. destruct (H (S i) ltac:(lia)) as (e & He & ?).
    replace (p + S i)%nat with (S p + i)%nat in He by lia. eauto.
Qed.

(** After [k] failed attempts the next one succeeds. *)
Lemma requestLoop_recovers env cfg url max body :
  ∀ k f a w l,
    a + Z.of_nat k < max →
    robotsPermits env url (Some (robotsUserAgent cfg)) w →
    scrapingLog (scraper w) = Some l →
    failsFrom env url (pageCalls (calls w)) k →
    succeedsAt env url (pageCalls (calls w) + k)%nat body →
    ∃ w' l' ents,
      requestLoop env cfg url max (S (k + f)) a w = (Ok (Some body), w') ∧
      retryAttempts (scraper w') !! url = None ∧
      url ∈ processedUrls (scraper w') ∧
      failedUrls (scraper w') = failedUrls (scraper w) ∧
      scrapedItems (scraper w') = scrapedItems (scraper w) ∧
      scrapingLog (scraper w') = Some l' ∧
      ScrapingLog.errorLogs l' = ScrapingLog.errorLogs l ++ ents ∧
      ScrapingLog.e_retryCount <$> ents = countsFrom a k ∧
      pageCalls (calls w') = (pageCalls (calls w) + S k)%nat ∧
      backoffs (trace w') =
        backoffs (trace w) ++ expectedBackoffs env a (draws (calls w)) k ∧
      requests (trace w') = requests (trace w) ++ replicate (S k) url.
Proof.
  induction k as [|k IH]; intros f a w l Ha Hperm Hl Hfail Hok.
  - rewrite Nat.add_0_r in Hok.
    destruct (requestLoop_success_step env cfg url max (0 + f) a w body
                ltac:(lia) Hperm Hok) as (w1 & Hfr & ->).
    destruct Hfr as (Hs&_&_&Hp&_&_&_&_&evs&Htr&Hevs).
    destruct (robots_events_silent _ Hevs) as [Hb Hr].
    exists (on_scraper (markProcessed url) (afterFetch url w1)), l, [].
    split; [done|]. cbn. rewrite Hs, Hp, Htr.
    rewrite !backoffs_app, !requests_app, Hb, Hr. cbn.
    rewrite lookup_delete_eq, !app_nil_r.
    split_and!; try done; [set_solver|lia].
  - apply failsFrom_S in Hfail as [(e & Hpf & He) Hrest].
    destruct (requestLoop_fail_step env cfg url max (S (k + f)) a w l e
                ltac:(lia) Hperm Hl Hpf He) as (w3 & Hfa & Hperm3 & Hstep).
    cbn [Nat.add]. rewrite Hstep.
    rewrite Z.geb_leb, (proj2 (Z.leb_gt _ _)) by lia.
    destruct Hfa as ((t & Hl3) & Hra & Hfu & Hpu & Hit & _ & _ & Hpc & Hdr & evs & Htr & Hb & Hr).
    set (w4 := sleep _ _).
    assert (Hpc4 : pageCalls (calls w4) = S (pageCalls (calls w))) by exact Hpc.
    destruct (IH f (a + 1) w4 _ ltac:(lia) Hperm3 Hl3) as
      (w' & l' & ents & Hrun & Hra' & Hpr' & Hfu' & Hit' & Hl' & Hel' & Hrc' & Hpc' & Hb' & Hr').
    { by rewrite Hpc4. }
    { rewrite Hpc4. by replace (S (pageCalls (calls w)) + k)%nat
        with (pageCalls (calls w) + S k)%nat by lia. }
    eexists w', l', (_ :: ents). split; [exact Hrun|].
    cbn in Hfu', Hit', Hb', Hr', Hel', Hpc'.
    rewrite Hpc in Hpc'. rewrite Hdr in Hb'.
    rewrite Htr, !backoffs_app, Hb in Hb'. rewrite Htr, !requests_app, Hr in Hr'.
    split_and!; try done; try congruence.
    + rewrite Hel'. by rewrite <- app_assoc.
    + cbn. by rewrite Hrc'.
    + lia.
    + cbn in Hb'. rewrite Hb'. cbn. by rewrite app_nil_r, <- !app_assoc.
    + cbn in Hr'. rewrite Hr'. cbn. by rewrite app_nil_r, <- !app_assoc.
Qed.

(** X14.  When the first [k] attempts on a URL fail and the next one is
    served, with [k] below the attempts that remain, [request] returns the
    body after exactly [k + 1] page requests and [k] backoff sleeps.  The
    [k] failures are logged with their retry counts, the URL goes to
    [processedUrls] and not to [failedUrls], and its stored attempt count
    is deleted. *)
Theorem request_recovers env cfg url opt w l (k : nat) body :
  default 0 (retryAttempts (scraper w) !! url) + Z.of_nat k < effectiveMaxRetries cfg opt →
  robotsPermits env url (Some (robotsUserAgent cfg)) w →
  scrapingLog (scraper w) = Some l →
  failsFrom env url (pageCalls (calls w)) k →
  succeedsAt env url (pageCalls (calls w) + k)%nat body →
  let a := default 0 (retryAttempts (scraper w) !! url) in
  ∃ w' l' ents,
    request env cfg url opt w = (Ok (Some body), w') ∧
    requests (trace w') = requests (trace w) ++ replicate (S k) url ∧
    backoffs (trace w') = backoffs (trace w) ++ expectedBackoffs env a (draws (calls w)) k ∧
    retryAttempts (scraper w') !! url = None ∧
    url ∈ processedUrls (scraper w') ∧
    failedUrls (scraper w') = failedUrls (scraper w) ∧
    scrapingLog (scraper w') = Some l' ∧
    ScrapingLog.errorLogs l' = ScrapingLog.errorLogs l ++ ents ∧
    ScrapingLog.e_retryCount <$> ents = countsFrom a k.
Proof.
  intros Ha Hperm Hl Hfail Hok a.
  rewrite request_unfold. fold a.
  set (max := effectiveMaxRetries cfg opt) in *.
  destruct (requestLoop_recovers env cfg url max body k
              (Z.to_nat (max - a) - S k) a w l Ha Hperm Hl Hfail Hok)
    as (w' & l' & ents & Hrun & Hra & Hpr & Hfu & _ & Hl' & Hel & Hrc & _ & Hb & Hr).
  exists w', l', ents.
  replace (Z.to_nat (max - a)) with (S (k + (Z.to_nat (max - a) - S k))) by lia.
  by split_and!.
Qed.

(** X15.  The attempt count of a URL outlives the call that exhausted it.
    After [request] has given up on a URL (all attempts failed), a further
    [request] for it returns [undefined] at once: no robots check, no page
    request, no log entry, no error.  [run] does not clear the count
    either. *)
Theorem request_after_exhaustion env cfg url opt w l :
  default 0 (retryAttempts (scraper w) !! url) < effectiveMaxRetries cfg opt →
  robotsPermits env url (Some (robotsUserAgent cfg)) w →
  scrapingLog (scraper w) = Some l →
  allFail env url →
  ∃ w' e,
    request env cfg url opt w =
      (Throw (Errors.ScrapingError
                (fetchErrorMessage url (effectiveMaxRetries cfg opt) (Errors.message e))
                (Some url)), w') ∧
    request env cfg url opt w' = (Ok None, w') ∧
    request env cfg url opt (on_scraper resetRun w') = (Ok None, on_scraper resetRun w').
Proof.
  intros Ha Hperm Hl Hall.
  set (max := effectiveMaxRetries cfg opt) in *.
  set (a := default 0 (retryAttempts (scraper w) !! url)) in *.
  destruct (requestLoop_exhausts env cfg url max Hall (Z.to_nat (max - a - 1)) a w l
              eq_refl Ha Hperm Hl)
    as (w' & l' & e & ents & Hrun & _ & _ & _ & Hra & _).
  exists w', e. rewrite request_unfold. fold max a.
  replace (Z.to_nat (max - a)) with (S (Z.to_nat (max - a - 1))) by lia.
  split_and!; [done| |].
  - rewrite request_unfold. fold max. rewrite Hra. cbn [default].
    by rewrite Z.sub_diag.
  - rewrite request_unfold. fold max. cbn [on_scraper scraper resetRun retryAttempts].
    rewrite Hra. cbn [default]. by rewrite Z.sub_diag.
Qed.

Lemma permits_envFlaky url ua s : robotsPermits RetryDemo.envFlaky url ua (Demo.world s).
Proof. by split. Qed.

Lemma request_recovers_witness :
  ∃ w', request RetryDemo.envFlaky Demo.cfg Demo.feed None Demo.w0 = (Ok (Some "<rss/>"), w') ∧
        requests (trace w') = requests (trace Demo.w0) ++ replicate 3 Demo.feed ∧
        retryAttempts (scraper w') !! Demo.feed = None.
Proof.
  destruct (request_recovers RetryDemo.envFlaky Demo.cfg Demo.feed None Demo.w0
              (ScrapingLog.startSession Demo.session 0) 2 "<rss/>")
    as (w' & l' & ents & H1 & H2 & _ & H4 & _).
  - by vm_compute.
  - apply permits_envFlaky.
  - reflexivity.
  - intros i Hi. exists (Errors.plainError "AxiosError" "Request failed with status code 503").
    destruct i as [|[|i]]; [by vm_compute..|lia].
  - exists 200. split; [reflexivity|lia].
  - exists w'. split; [exact H1|]. split; [exact H2|exact H4].
Defined.

Lemma request_after_exhaustion_witness :
  ∃ w' e,
    request Demo.envDown Demo.cfg Demo.feed None Demo.w0 =
      (Throw (Errors.ScrapingError (fetchErrorMessage Demo.feed 3 (Errors.message e))
                (Some Demo.feed)), w') ∧
    request Demo.envDown Demo.cfg Demo.feed None w' = (Ok None, w').
Proof.
  destruct (request_after_exhaustion Demo.envDown Demo.cfg Demo.feed None Demo.w0
              (ScrapingLog.startSession Demo.session 0))
    as (w' & e & H1 & H2 & _).
  - by vm_compute.
  - apply permits_envDown.
  - reflexivity.
  - apply allFail_envDown.
  - exists w', e. split; [exact H1|exact H2].
Defined.

End RetryFacts.

(** ** Robots cache: counters, capacity and the URL filter *)

Section RobotsUsage.
Import Sys Robots Aux RobotsTerms RobotsFilter.

Ltac unfold_m :=
  unfold try_catch, finally, bind, emit, modify, get, ret, throw, now, mathRandom.

Lemma fetch_usage env url w r w' :
  fetch env url w = (r, w') →
  stats (robotsCache w') = stats (robotsCache w) ∨
  (hits (stats (robotsCache w')) = hits (stats (robotsCache w)) ∧
   misses (stats (robotsCache w')) = misses (stats (robotsCache w)) ∧
   urlsChecked (stats (robotsCache w')) = urlsChecked (stats (robotsCache w))).
Proof.
  unfold fetch, axiosGetRobots, robotsParser. unfold_m. simpl.
  destruct (robotsHttp env (robotsCalls (calls w)) (getRobotsUrl env url)) as [st body|err].
  - destruct (st <? 500); simpl.
    + destruct (st =? 200); simpl.
      * destruct (robots_parses env (getRobotsUrl env url) body); simpl;
          intros [= _ <-]; simpl; auto.
      * intros [= _ <-]; simpl; auto.
    + intros [= _ <-]; simpl; auto.
  - intros [= _ <-]; simpl; auto.
Qed.

Lemma fetch_trace env url w r w' :
  fetch env url w = (r, w') →
  trace w' = trace w ++ [EvRobotsFetch (getRobotsUrl env url)].
Proof.
  unfold fetch, axiosGetRobots, robotsParser. unfold_m. simpl.
  destruct (robotsHttp env (robotsCalls (calls w)) (getRobotsUrl env url)) as [st body|err].
  - destruct (st <? 500); simpl.
    + destruct (st =? 200); simpl.
      * destruct (robots_parses env (getRobotsUrl env url) body); simpl;
          by intros [= _ <-].
      * by intros [= _ <-].
    + by intros [= _ <-].
  - by intros [= _ <-].
Qed.

Lemma fetch_counters env url w :
  ∃ e w', fetch env url w = (Ok e, w') ∧
    cache (robotsCache w') = cache (robotsCache w) ∧
    maxSize (robotsCache w') = maxSize (robotsCache w) ∧
    hits (stats (robotsCache w')) = hits (stats (robotsCache w)) ∧
    misses (stats (robotsCache w')) = misses (stats (robotsCache w)) ∧
    urlsChecked (stats (robotsCache w')) = urlsChecked (stats (robotsCache w)) ∧
    robotsCalls (calls w') = S (robotsCalls (calls w)) ∧
    trace w' = trace w ++ [EvRobotsFetch (getRobotsUrl env url)].
Proof.
  destruct (fetch_spec env url w) as (e & w' & errs & Hrun & Hfr & Hc & Hrc & _).
  exists e, w'. split; [done|].
  destruct Hfr as (_&_&_&_&_&_&Hmax&_).
  pose proof (fetch_trace _ _ _ _ _ Hrun) as Htr.
  destruct (fetch_usage _ _ _ _ _ Hrun) as [Hst|(?&?&?)].
  - rewrite Hst. by split_and!.
  - by split_and!.
Qed.

Lemma length_mapDelete {V} k (m : list (string * V)) :
  (length (mapDelete k m) ≤ length m)%nat.
Proof. apply length_filter. Qed.

Lemma length_mapDelete_head {V} k (v : V) (m : list (string * V)) :
  (length (mapDelete k ((k, v) :: m)) ≤ length m)%nat.
Proof.
  unfold mapDelete. rewrite filter_cons_False by (cbn; tauto). apply length_filter.
Qed.

Lemma length_mapSet {V} k (v : V) (m : list (string * V)) :
  (length (mapSet k v m) ≤ S (length m))%nat.
Proof.
  unfold mapSet. destruct (list_find _ m) as [[i ?]|].
  - rewrite length_insert. lia.
  - rewrite length_app. cbn. lia.
Qed.

Lemma getMiss_usage env url w :
  ∃ e w', getMiss env url (getCacheKey env url) w = (Ok e, w') ∧
    usage false (getRobotsUrl env url) w w' ∧
    cacheSize (robotsCache w') ≤
      Z.max (capacity (robotsCache w)) (cacheSize (robotsCache w)) ∧
    (cacheSize (robotsCache w) < maxSize (robotsCache w) →
     cacheSize (robotsCache w') ≤ cacheSize (robotsCache w) + 1).
Proof.
  unfold getMiss. unfold_m. cbn -[fetch mapSet mapDelete].
  set (key := getCacheKey env url).
  assert (Hgen : ∀ w1,
    hits (stats (robotsCache w1)) = hits (stats (robotsCache w)) →
    misses (stats (robotsCache w1)) = misses (stats (robotsCache w)) + 1 →
    urlsChecked (stats (robotsCache w1)) = urlsChecked (stats (robotsCache w)) →
    robotsCalls (calls w1) = robotsCalls (calls w) →
    trace w1 = trace w → maxSize (robotsCache w1) = maxSize (robotsCache w) →
    cacheSize (robotsCache w1) + 1 ≤
      Z.max (capacity (robotsCache w)) (cacheSize (robotsCache w)) →
    cacheSize (robotsCache w1) ≤ cacheSize (robotsCache w) →
    ∃ e w',
      match fetch env url w1 with
      | (Ok a, w'0) => (Ok a, on_robots (onCache (mapSet key a)) w'0)
      | (Throw e, w'0) => (Throw e, w'0)
      end = (Ok e, w') ∧ usage false (getRobotsUrl env url) w w' ∧
      cacheSize (robotsCache w') ≤
        Z.max (capacity (robotsCache w)) (cacheSize (robotsCache w)) ∧
      (cacheSize (robotsCache w) < maxSize (robotsCache w) →
       cacheSize (robotsCache w') ≤ cacheSize (robotsCache w) + 1)).
  { intros w1 Hh Hm Hu Hrc Htr Hmax Hsize Hle.
    destruct (fetch_counters env url w1)
      as (e & w' & -> & Hc & Hmax' & Hh' & Hm' & Hu' & Hrc' & Htr').
    exists e, (on_robots (onCache (mapSet key e)) w'). split; [done|].
    assert (Hlen : cacheSize (onCache (mapSet key e) (robotsCache w')) ≤
                   cacheSize (robotsCache w1) + 1).
    { unfold cacheSize. cbn. rewrite Hc. pose proof (length_mapSet key e (cache (robotsCache w1))).
      lia. }
    split_and!.
    - unfold usage. cbn. rewrite Hh', Hm', Hu', Hrc', Htr', Hmax', Hh, Hm, Hu, Hrc, Htr, Hmax.
      split_and!; try done; lia.
    - cbn [on_robots robotsCache]. lia.
    - intros _. cbn [on_robots robotsCache]. lia. }
  unfold capacity, cacheSize in *.
  destruct (Z.of_nat (length (cache (robotsCache w))) >=? maxSize (robotsCache w)) eqn:Hfull.
  - apply Z.geb_le in Hfull.
    destruct (cache (robotsCache w)) as [|[k0 e0] rest] eqn:Hc.
    + apply Hgen; cbn; rewrite ?Hc; cbn; try done; lia.
    + apply Hgen; cbn -[mapDelete]; rewrite ?Hc; try done.
      * pose proof (length_mapDelete_head k0 e0 rest). cbn [length]. lia.
      * pose proof (length_mapDelete k0 ((k0, e0) :: rest)) as H. cbn [length] in *. lia.
  - rewrite Z.geb_leb in Hfull. apply Z.leb_gt in Hfull. apply Hgen; cbn; try done; lia.
Qed.

Lemma get_usage env url w :
  ∃ e w' hit, get_ env url w = (Ok e, w') ∧
    hit = bool_decide (is_Some (freshEntry env url w)) ∧
    usage hit (getRobotsUrl env url) w w' ∧
    cacheSize (robotsCache w') ≤
      Z.max (capacity (robotsCache w)) (cacheSize (robotsCache w)).
Proof.
  unfold get_, freshEntry. unfold_m. cbn -[getMiss mapDelete mapGet].
  destruct (mapGet (getCacheKey env url) (cache (robotsCache w))) as [cached|] eqn:Hget.
  - cbn -[getMiss mapDelete mapGet].
    destruct (clock env (ticks (calls w)) - fetchedAt cached <? ttl (robotsCache w)) eqn:Hfresh.
    + eexists _, _, true. split; [reflexivity|]. split; [by rewrite bool_decide_eq_true_2|].
      unfold usage, cacheSize, capacity. cbn. rewrite app_nil_r.
      split_and!; try done; lia.
    + match goal with |- context [getMiss env url _ ?w1] =>
        destruct (getMiss_usage env url w1) as (e & w' & -> & Hu & Hsize & Hroom)
      end.
      exists e, w', false. split; [done|].
      split; [by rewrite bool_decide_eq_false_2 by by intros [? [=]]|].
      unfold usage, cacheSize, capacity in *. cbn -[mapDelete] in Hu, Hsize, Hroom.
      pose proof (length_mapDelete (getCacheKey env url) (cache (robotsCache w))).
      destruct Hu as (?&?&?&?&?&?). split_and!; try done. lia.
  - destruct (getMiss_usage env url w) as (e & w' & -> & Hu & Hsize & _).
    exists e, w', false. split; [done|].
    split; [by rewrite bool_decide_eq_false_2 by by intros [? [=]]|]. done.
Qed.

(** X16.  Every call of [isAllowed] returns (nothing is thrown), counts
    the URL in [urlsChecked] and is either a hit or a miss: a hit, counted
    in [hits], when the origin has a cached entry younger than the TTL,
    and then no request is made; a miss, counted in [misses], otherwise,
    and then exactly one robots.txt request is made, for the origin's
    /robots.txt.  On a hit the verdict is that of the cached entry and the
    cache is left as it is.  The scraper and the content store are not
    touched. *)
Theorem isAllowed_counts env url ua w :
  ∃ b w' hit,
    isAllowed env url ua w = (Ok b, w') ∧
    hit = bool_decide (is_Some (freshEntry env url w)) ∧
    urlsChecked (stats (robotsCache w')) = urlsChecked (stats (robotsCache w)) + 1 ∧
    hits (stats (robotsCache w')) = hits (stats (robotsCache w)) + (if hit then 1 else 0) ∧
    misses (stats (robotsCache w')) = misses (stats (robotsCache w)) + (if hit then 0 else 1) ∧
    robotsCalls (calls w') = (robotsCalls (calls w) + (if hit then 0 else 1))%nat ∧
    trace w' = trace w ++ (if hit then [] else [EvRobotsFetch (getRobotsUrl env url)]) ∧
    (∀ e, freshEntry env url w = Some e →
          b = entryAllows env url (effectiveUA ua (robotsCache w)) e ∧
          cache (robotsCache w') = cache (robotsCache w)) ∧
    scraper w' = scraper w ∧ store w' = store w.
Proof.
  destruct (isAllowed_spec env url ua w) as (e & w' & Hrun & Hfr & Hout).
  destruct Hfr as (Hs & Hst & _).
  pose proof Hrun as Hrun0.
  unfold isAllowed in Hrun.
  unfold try_catch, bind, modify, get, ret in Hrun. cbn -[get_] in Hrun.
  match type of Hrun with context [get_ env url ?w1] =>
    destruct (get_usage env url w1) as (e1 & w1' & hit & Hget & Hhit & Hu & _)
  end.
  rewrite Hget in Hrun.
  assert (Hw : w1' = w').
  { destruct (exists_ e1); [destruct (parser e1) as [[??]|]|]; by injection Hrun. }
  exists (entryAllows env url (effectiveUA ua (robotsCache w)) e), w', hit.
  split; [exact Hrun0|].
  destruct Hu as (Hh & Hm & Huc & Hrc & Htr & _). cbn in Hh, Hm, Huc, Hrc, Htr.
  rewrite Hw in *. split_and!; try done.
  intros e0 He0. destruct Hout as [(Hf & Hc & _)|(Hf & _)]; [|congruence].
  assert (e0 = e) as -> by congruence. done.
Qed.

(** X17.  The robots cache respects its capacity: if it holds at most
    [max(1, maxSize)] entries before a call of [isAllowed], it does so
    afterwards, and the capacity itself is unchanged. *)
Theorem robots_cache_bounded env url ua w :
  cacheSize (robotsCache w) ≤ capacity (robotsCache w) →
  ∀ b w', isAllowed env url ua w = (b, w') →
    capacity (robotsCache w') = capacity (robotsCache w) ∧
    cacheSize (robotsCache w') ≤ capacity (robotsCache w').
Proof.
  intros Hcap b w' Hrun. unfold isAllowed in Hrun.
  unfold try_catch, bind, modify, get, ret in Hrun. cbn -[get_] in Hrun.
  match type of Hrun with context [get_ env url ?w1] =>
    destruct (get_usage env url w1) as (e1 & w1' & hit & Hget & _ & Hu & Hsize)
  end.
  rewrite Hget in Hrun.
  destruct Hu as (_ & _ & _ & _ & _ & Hmax).
  unfold capacity, cacheSize in *. cbn in Hsize, Hmax.
  assert (Hw : w1' = w').
  { destruct (exists_ e1); [destruct (parser e1) as [[??]|]|]; by injection Hrun. }
  rewrite <- Hw, Hmax. lia.
Qed.

Lemma isAllowed_checked env url ua w :
  ∃ b w', isAllowed env url ua w = (Ok b, w') ∧
    urlsChecked (stats (robotsCache w')) = urlsChecked (stats (robotsCache w)) + 1 ∧
    scraper w' = scraper w ∧ store w' = store w.
Proof.
  destruct (isAllowed_spec env url ua w) as (e & w' & Hrun & (Hs & Hst & _) & _).
  pose proof Hrun as Hrun0.
  unfold isAllowed in Hrun.
  unfold try_catch, bind, modify, get, ret in Hrun. cbn -[get_] in Hrun.
  match type of Hrun with context [get_ env url ?w1] =>
    destruct (get_usage env url w1) as (e1 & w1' & hit & Hget & _ & Hu & _)
  end.
  rewrite Hget in Hrun.
  assert (Hw : w1' = w').
  { destruct (exists_ e1); [destruct (parser e1) as [[??]|]|]; by injection Hrun. }
  destruct Hu as (_ & _ & Huc & _). cbn in Huc. rewrite Hw in Huc.
  eexists _, w'. split; [exact Hrun0|]. done.
Qed.

Lemma filterLoop_spec env ua : ∀ urls allowed disallowed w,
  ∃ allowed' disallowed' w',
    filterLoop env ua urls allowed disallowed w =
      (Ok (allowed ++ allowed', disallowed ++ disallowed'), w') ∧
    allowed' ++ disallowed' ≡ₚ urls ∧
    allowed' `sublist_of` urls ∧ disallowed' `sublist_of` urls ∧
    scraper w' = scraper w ∧ store w' = store w ∧
    urlsChecked (stats (robotsCache w')) =
      urlsChecked (stats (robotsCache w)) + Z.of_nat (length urls).
Proof.
  induction urls as [|url urls IH]; intros allowed disallowed w.
  - exists [], [], w. cbn. rewrite !app_nil_r. split_and!; try done. lia.
  - cbn [filterLoop]. unfold bind at 1, try_catch, bind at 1.
    destruct (isAllowed_checked env url ua w) as (b & w1 & -> & Huc & Hs & Hst).
    destruct b; unfold ret; cbn [fst snd].
    + destruct (IH (allowed ++ [url]) disallowed w1)
        as (al & dl & w' & -> & Hperm & Hsa & Hsd & Hs' & Hst' & Huc').
      exists (url :: al), dl, w'. rewrite <- app_assoc. split; [done|].
      split_and!; try congruence.
      * cbn. by constructor.
      * by constructor.
      * by constructor.
      * rewrite Huc', Huc. cbn [length]. lia.
    + destruct (IH allowed (disallowed ++ [url]) w1)
        as (al & dl & w' & -> & Hperm & Hsa & Hsd & Hs' & Hst' & Huc').
      exists al, (url :: dl), w'. rewrite <- app_assoc. split; [done|].
      split_and!; try congruence.
      * rewrite <- Hperm. symmetry. apply Permutation_middle.
      * by constructor.
      * by constructor.
      * rewrite Huc', Huc. cbn [length]. lia.
Qed.

(** X18.  [filterUrlsByRobots] never throws and sorts every URL into
    exactly one of its two lists, keeping the order of the input in each:
    the two lists together are a permutation of the input.  It makes one
    robots check per URL and touches neither the scraper nor the content
    store. *)
Theorem filterUrlsByRobots_partitions env urls ua w :
  ∃ allowed disallowed w',
    filterUrlsByRobots env urls ua w = (Ok (allowed, disallowed), w') ∧
    allowed ++ disallowed ≡ₚ urls ∧
    allowed `sublist_of` urls ∧ disallowed `sublist_of` urls ∧
    scraper w' = scraper w ∧ store w' = store w ∧
    urlsChecked (stats (robotsCache w')) =
      urlsChecked (stats (robotsCache w)) + Z.of_nat (length urls).
Proof. apply (filterLoop_spec env ua urls [] [] w). Qed.

Lemma robots_cache_bounded_witness :
  cacheSize (robotsCache (isAllowed Demo.envUp Demo.feed None (Demo.world Demo.scraper0)).2)
    ≤ capacity (robotsCache (isAllowed Demo.envUp Demo.feed None (Demo.world Demo.scraper0)).2).
Proof.
  destruct (robots_cache_bounded Demo.envUp Demo.feed None (Demo.world Demo.scraper0))
    with (b := (isAllowed Demo.envUp Demo.feed None (Demo.world Demo.scraper0)).1)
         (w' := (isAllowed Demo.envUp Demo.feed None (Demo.world Demo.scraper0)).2)
    as [_ H].
  - by vm_compute.
  - apply surjective_pairing.
  - exact H.
Defined.

End RobotsUsage.

(** ** The robots.txt reader *)

Section RobotsTxtFacts.
Import JsString RobotsTxt RobotsTxtTerms.
Context {F : Type} (parseFloat : string → F).

Lemma trimEnd_idem (s : string) : trimEnd (trimEnd s) = trimEnd s.
Proof.
  induction s as [|c r IH]; [done|].
  cbn. destruct (trimEnd r) as [|c' r'] eqn:E.
  - destruct (is_ws c) eqn:Ec; [done|]. cbn. by rewrite Ec.
  - cbn [trimEnd] in *. rewrite IH. done.
Qed.

Lemma trimStart_trimEnd (s : string) :
  trimStart s = s → trimStart (trimEnd s) = trimEnd s.
Proof.
  destruct s as [|c r]; [done|]. cbn.
  destruct (is_ws c) eqn:Ec.
  - intros H. exfalso.
    assert (Hlen : ∀ t, (String.length (trimStart t) ≤ String.length t)%nat).
    { induction t as [|x t IH]; cbn; [lia|]. destruct (is_ws x); cbn; lia. }
    specialize (Hlen r). rewrite H in Hlen. cbn in Hlen. lia.
  - intros _. destruct (trimEnd r); cbn; by rewrite Ec.
Qed.

Lemma trim_idem (s : string) : trim (trim s) = trim s.
Proof.
  unfold trim. rewrite (trimStart_trimEnd (trimStart s)) by apply trimStart_idem.
  apply trimEnd_idem.
Qed.

Lemma splitAt_cur (c : ascii) (cur s : string) :
  splitAt c cur s =
    match splitAt c "" s with
    | p :: rest => (cur +:+ p) :: rest
    | [] => []
    end.
Proof.
  revert cur. induction s as [|x r IH]; intros cur; cbn.
  - by rewrite append_empty_r.
  - destruct (Ascii.eqb x c); [by rewrite append_empty_r|].
    rewrite (IH (cur +:+ String x "")), (IH ("" +:+ String x "")).
    destruct (splitAt c "" r); [done|]. by rewrite append_nil, append_assoc.
Qed.

Lemma splitAt_cons (c : ascii) (s : string) : ∀ cur, ∃ p rest, splitAt c cur s = p :: rest.
Proof.
  induction s as [|x r IH]; intros cur; cbn; [eauto|].
  destruct (Ascii.eqb x c); eauto.
Qed.

Lemma firstPiece_cons (c x : ascii) (s : string) :
  firstPiece c (String x s) = if Ascii.eqb x c then "" else String x (firstPiece c s).
Proof.
  unfold firstPiece. cbn. destruct (Ascii.eqb x c); [done|].
  rewrite splitAt_cur. by destruct (splitAt_cons c s "") as (p & rest & ->).
Qed.

(** A comment never changes what is read before it. *)
Lemma firstPiece_comment (line comment : string) :
  firstPiece "#" (line +:+ "#" +:+ comment) = firstPiece "#" line.
Proof.
  induction line as [|x line IH].
  - change ("" +:+ "#" +:+ comment) with (String "#" comment).
    by rewrite firstPiece_cons.
  - rewrite append_cons, !firstPiece_cons, IH. done.
Qed.

(** X19.  The reader ignores comments: whatever follows a "#" on a line,
    the line is read as if it ended before the "#". *)
Theorem robots_txt_comments_ignored (st : Rules F * option string)
    (lines : list (string * string)) :
  readLines parseFloat st ((λ lc, lc.1 +:+ "#" +:+ lc.2) <$> lines) =
  readLines parseFloat st (fst <$> lines).
Proof.
  revert st. induction lines as [|[line comment] lines IH]; intros st; [done|].
  cbn [fmap list_fmap readLines fst snd].
  assert (step parseFloat st (line +:+ "#" +:+ comment) = step parseFloat st line) as ->.
  { unfold step, clean. by rewrite firstPiece_comment. }
  destruct (step parseFloat st line); [apply IH|done].
Qed.

Lemma fields_value line directive value :
  fields line = Some (directive, value) → trim value = value.
Proof.
  unfold fields. destruct (indexOf ":" line); [|done].
  intros [= _ <-]. apply trim_idem.
Qed.

Lemma recorded_value line directive value :
  fields line = Some (directive, value) → truthy value = true → recorded value.
Proof. intros H Ht. split; [done|]. by eapply fields_value. Qed.

Lemma inherited_false agent :
  inherited agent = false → agent ≠ "constructor" ∧ agent ≠ "__proto__".
Proof.
  unfold inherited. rewrite orb_false_iff, !bool_decide_eq_false. done.
Qed.

Lemma pushRule_tidy allow agent value (r r' : Rules F) :
  tidy r → recorded value → pushRule allow agent value r = Sys.Ok r' →
  tidy r' ∧ ∀ k, is_Some (userAgents r !! k) → is_Some (userAgents r' !! k).
Proof.
  intros (Ha & Hc & Hs) Hv. unfold pushRule.
  destruct (userAgents r !! agent) as [[al dl]|] eqn:E; [|done].
  intros [= <-]. destruct (Ha _ _ _ E) as (Hl & Hi & Hal & Hdl). split.
  - split_and!; try done. cbn. intros k al' dl'.
    destruct (decide (agent = k)) as [<-|Hne].
    + rewrite lookup_insert_eq. destruct allow; intros [= <- <-]; split_and!; try done.
      * apply Forall_app. split; [done|]. by constructor.
      * apply Forall_app. split; [done|]. by constructor.
    + rewrite lookup_insert_ne by done. apply Ha.
  - intros k Hk. cbn. destruct (decide (agent = k)) as [<-|Hne].
    + rewrite lookup_insert_eq. eauto.
    + by rewrite lookup_insert_ne.
Qed.

Lemma step_tidy (st st' : Rules F * option string) raw :
  tidy st.1 → agentKnown st → step parseFloat st raw = Sys.Ok st' →
  tidy st'.1 ∧ agentKnown st'.
Proof.
  destruct st as [r current]. intros Ht Hk. unfold step.
  destruct (negb (truthy (clean raw))); [by intros [= <-]|].
  destruct (fields (clean raw)) as [[directive value]|] eqn:Hf; [|by intros [= <-]].
  destruct (String.eqb directive "user-agent").
  { intros [= <-]. cbn [fst snd]. unfold agentKnown. cbn [fst snd].
    destruct (inherited (toLowerCase value)) eqn:Hi; cbn [orb].
    - split; [done|]. split; [apply toLowerCase_idem|done].
    - case_bool_decide as Hin.
      + split; [done|]. split; [apply toLowerCase_idem|done].
      + split.
        * destruct Ht as (Ha & Hc & Hs). split_and!; try done. cbn. intros k al dl.
          destruct (decide (toLowerCase value = k)) as [<-|Hne].
          -- rewrite lookup_insert_eq. intros [= <- <-].
             split_and!; [apply toLowerCase_idem|done|constructor|constructor].
          -- rewrite lookup_insert_ne by done. apply Ha.
        * split; [apply toLowerCase_idem|]. intros _. cbn. rewrite lookup_insert_eq. eauto. }
  assert (Hpush : ∀ allow agent,
    current = Some agent → truthy value = true →
    ∀ r', pushRule allow agent value r = Sys.Ok r' →
    tidy r' ∧ agentKnown (r', current)).
  { intros allow agent -> Hv r' Hp.
    destruct (pushRule_tidy _ _ _ _ _ Ht (recorded_value _ _ _ Hf Hv) Hp) as [Ht' Hkeep].
    split; [done|]. unfold agentKnown in *. cbn [fst snd] in *.
    destruct Hk as [Hl Hs]. split; [done|]. intros Hi. by apply Hkeep, Hs. }
  destruct (String.eqb directive "disallow").
  { destruct current as [agent|]; [|by intros [= <-]].
    destruct (truthy agent && truthy value) eqn:E; [|by intros [= <-]].
    apply andb_true_iff in E as [_ Hv].
    destruct (pushRule false agent value r) as [r'|] eqn:Hp; [|done].
    intros [= <-]. by eapply Hpush. }
  destruct (String.eqb directive "allow").
  { destruct current as [agent|]; [|by intros [= <-]].
    destruct (truthy agent && truthy value) eqn:E; [|by intros [= <-]].
    apply andb_true_iff in E as [_ Hv].
    destruct (pushRule true agent value r) as [r'|] eqn:Hp; [|done].
    intros [= <-]. by eapply Hpush. }
  destruct (String.eqb directive "sitemap").
  { destruct (truthy value) eqn:Hv; [|by intros [= <-]].
    intros [= <-]. split; [|done]. destruct Ht as (Ha & Hc & Hs).
    split_and!; try done. cbn. apply Forall_app. split; [done|].
    constructor; [|done]. by eapply recorded_value. }
  destruct (String.eqb directive "host").
  { intros [= <-]. split; [|done]. by destruct Ht as (Ha & Hc & Hs). }
  destruct (String.eqb directive "crawl-delay"); [|by intros [= <-]].
  destruct current as [agent|]; [|by intros [= <-]].
  destruct (truthy agent) eqn:Hag; [|by intros [= <-]].
  intros [= <-]. split; [|done]. destruct Ht as (Ha & Hc & Hs).
  split_and!; try done. cbn. intros k.
  case_bool_decide as Hp; [apply Hc|].
  destruct (decide (agent = k)) as [<-|Hne].
  - intros _. destruct Hk as [Hl _]. done.
  - rewrite lookup_insert_ne by done. apply Hc.
Qed.

Lemma readLines_tidy lines : ∀ (st st' : Rules F * option string),
  tidy st.1 → agentKnown st → readLines parseFloat st lines = Sys.Ok st' →
  tidy st'.1.
Proof.
  induction lines as [|raw lines IH]; intros st st' Ht Hk; cbn.
  - by intros [= <-].
  - destruct (step parseFloat st raw) as [st1|] eqn:E; [|done].
    destruct (step_tidy _ _ _ Ht Hk E). by apply IH.
Qed.

Lemma tidy_noRules : tidy (@noRules F).
Proof.
  split_and!.
  - intros agent al dl H. cbn in H. by rewrite lookup_empty in H.
  - intros agent [x H]. cbn in H. by rewrite lookup_empty in H.
  - constructor.
Qed.

Lemma parsed_rules_tidy (content : option string) (r : Rules F) :
  parseRobotsTxtContent parseFloat content = Sys.Ok (Some r) → tidy r.
Proof.
  unfold parseRobotsTxtContent.
  destruct content as [text|]; [|done].
  destruct (negb (truthy text)); [done|].
  destruct (readLines _ _ _) as [[r' cur]|] eqn:E; [|done].
  intros [= <-].
  apply (readLines_tidy _ (noRules, None) (r', cur) tidy_noRules I E).
Qed.


Lemma step_throws (st : Rules F * option string) raw e :
  tidy st.1 → agentKnown st → step parseFloat st raw = Sys.Throw e →
  ∃ agent, st.2 = Some agent ∧ inherited agent = true.
Proof.
  destruct st as [r current]. intros Ht Hk. unfold step.
  destruct (negb (truthy (clean raw))); [done|].
  destruct (fields (clean raw)) as [[directive value]|] eqn:Hf; [|done].
  destruct (String.eqb directive "user-agent"); [done|].
  assert (Hpush : ∀ allow agent, current = Some agent →
    pushRule allow agent value r = Sys.Throw e →
    ∃ agent, (r, current).2 = Some agent ∧ inherited agent = true).
  { intros allow agent -> Hp. exists agent. split; [done|].
    destruct (inherited agent) eqn:Hi; [done|]. exfalso.
    destruct Hk as [_ Hs]. destruct (Hs Hi) as [[al dl] Hl]. cbn in Hl.
    unfold pushRule in Hp. by rewrite Hl in Hp. }
  destruct (String.eqb directive "disallow").
  { destruct current as [agent|]; [|done].
    destruct (truthy agent && truthy value); [|done].
    destruct (pushRule false agent value r) eqn:Hp; [done|].
    intros [= <-]. by eapply Hpush. }
  destruct (String.eqb directive "allow").
  { destruct current as [agent|]; [|done].
    destruct (truthy agent && truthy value); [|done].
    destruct (pushRule true agent value r) eqn:Hp; [done|].
    intros [= <-]. by eapply Hpush. }
  destruct (String.eqb directive "sitemap"); [by destruct (truthy value)|].
  destruct (String.eqb directive "host"); [done|].
  destruct (String.eqb directive "crawl-delay"); [|done].
  destruct current as [agent|]; [|done]. by destruct (truthy agent).
Qed.

Lemma step_current (st st' : Rules F * option string) raw agent :
  step parseFloat st raw = Sys.Ok st' → st'.2 = Some agent →
  st.2 = Some agent ∨ agentOf raw = Some agent.
Proof.
  destruct st as [r current]. unfold step, agentOf.
  destruct (truthy (clean raw)); cbn [negb andb]; [|intros [= <-]; by left].
  destruct (fields (clean raw)) as [[directive value]|]; [|intros [= <-]; by left].
  destruct (String.eqb directive "user-agent"); [intros [= <-] [= <-]; by right|].
  destruct (String.eqb directive "disallow").
  { destruct current as [a|]; [|intros [= <-]; by left].
    destruct (truthy a && truthy value); [|intros [= <-]; by left].
    destruct (pushRule false a value r); [|done]. intros [= <-]. by left. }
  destruct (String.eqb directive "allow").
  { destruct current as [a|]; [|intros [= <-]; by left].
    destruct (truthy a && truthy value); [|intros [= <-]; by left].
    destruct (pushRule true a value r); [|done]. intros [= <-]. by left. }
  destruct (String.eqb directive "sitemap").
  { destruct (truthy value); intros [= <-]; by left. }
  destruct (String.eqb directive "host"); [intros [= <-]; by left|].
  destruct (String.eqb directive "crawl-delay"); [|intros [= <-]; by left].
  destruct current as [a|]; [|intros [= <-]; by left].
  destruct (truthy a); intros [= <-]; by left.
Qed.

Lemma readLines_throws lines : ∀ (st : Rules F * option string) e,
  tidy st.1 → agentKnown st → readLines parseFloat st lines = Sys.Throw e →
  (∃ agent, st.2 = Some agent ∧ inherited agent = true) ∨
  (∃ raw agent, raw ∈ lines ∧ agentOf raw = Some agent ∧ inherited agent = true).
Proof.
  induction lines as [|raw lines IH]; intros st e Ht Hk; cbn; [done|].
  destruct (step parseFloat st raw) as [st1|e1] eqn:E.
  - destruct (step_tidy _ _ _ Ht Hk E) as [Ht1 Hk1]. intros Hrest.
    destruct (IH _ _ Ht1 Hk1 Hrest) as [(agent & Hc & Hi)|(raw' & agent & Hin & Ha & Hi)].
    + destruct (step_current _ _ _ _ E Hc) as [?|?].
      * left. eauto.
      * right. exists raw, agent. split_and!; [left|done..].
    + right. exists raw', agent. split_and!; [by right|done..].
  - intros _. left. by eapply step_throws.
Qed.


End RobotsTxtFacts.

Section RobotsTxtExamples.
Import JsString RobotsTxt RobotsTxtTerms.


(** The sample is read as one group for "*" with one disallow rule, the
    comment gone, and one sitemap; the hostile text makes the reader
    throw. *)
Example robots_txt_samples :
  (∃ r, parseRobotsTxtContent (λ v : string, v) (Some sample) = Sys.Ok (Some r) ∧
        userAgents r !! "*" = Some ([], ["/private"]) ∧
        sitemaps r = ["https://ex.com/sitemap.xml"]) ∧
  ∃ e, parseRobotsTxtContent (λ v : string, v) (Some hostile) = Sys.Throw e.
Proof. split; [eexists; split; [by vm_compute|by vm_compute]|eexists; by vm_compute]. Qed.

End RobotsTxtExamples.

(** ** The concurrency gate *)

Section GateFacts.
Import ConcurrentLimiter.

Lemma step_maxConcurrent st op : maxConcurrent (step st op).1 = maxConcurrent st.1.
Proof.
  destruct st as [l hs], op as [who|who]; cbn.
  - unfold acquire. by destruct (_ <? _).
  - unfold release. by destruct (queue l).
Qed.

Lemma filter_ne_fresh (who : nat) (hs : list nat) :
  who ∉ hs → filter (λ h, h ≠ who) hs = hs.
Proof.
  induction hs as [|h hs IH]; [done|].
  intros [Hne Hin]%not_elem_of_cons.
  rewrite filter_cons_True by congruence. by rewrite IH.
Qed.

Lemma length_filter_ne (who : nat) (hs : list nat) :
  NoDup hs → who ∈ hs → S (length (filter (λ h, h ≠ who) hs)) = length hs.
Proof.
  induction hs as [|h hs IH]; intros Hnd Hin; [by apply elem_of_nil in Hin|].
  apply NoDup_cons in Hnd as [Hh Hnd].
  destruct (decide (h = who)) as [->|Hne].
  - rewrite filter_cons_False by (intros ?; congruence).
    by rewrite filter_ne_fresh.
  - apply elem_of_cons in Hin as [?|Hin]; [congruence|].
    rewrite filter_cons_True by done. cbn. by rewrite IH.
Qed.

Lemma safe_step st op :
  0 ≤ maxConcurrent st.1 → safe st → disciplined [op] st → safe (step st op).
Proof.
  destruct st as [l hs]. intros Hmax (Hc & Hle & Hq & Hnd) [Hok _]. cbn [fst snd] in *.
  destruct op as [who|who]; cbn [step fst snd].
  - destruct Hok as [Hh Hw]. unfold acquire.
    destruct (currentCount l <? maxConcurrent l) eqn:E.
    + apply Z.ltb_lt in E. unfold safe. cbn. rewrite length_app. cbn.
      assert (queue l = []) as Hnil.
      { destruct (queue l) eqn:Eq; [done|]. specialize (Hq ltac:(done)). lia. }
      split_and!; try lia.
      * intros Hne. by rewrite Hnil in Hne.
      * rewrite Hnil, app_nil_r in *. apply NoDup_app.
        split_and!; [done| |apply NoDup_singleton].
        intros x Hx ->%list_elem_of_singleton. done.
    + apply Z.ltb_ge in E. unfold safe. cbn. split_and!; try lia.
      rewrite app_assoc. apply NoDup_app. split_and!; [done| |apply NoDup_singleton].
      intros x Hx ->%list_elem_of_singleton. apply elem_of_app in Hx as [?|?]; done.
  - unfold release. destruct (queue l) as [|next rest] eqn:Eq.
    + unfold safe. cbn. rewrite !app_nil_r in *.
      pose proof (length_filter_ne who hs Hnd Hok) as Hlen.
      split_and!; try lia; [done|]. by apply NoDup_filter.
    + specialize (Hq ltac:(done)). unfold safe. cbn.
      apply NoDup_app in Hnd as (Hnh & Hdis & Hnq).
      pose proof (length_filter_ne who hs Hnh Hok) as Hlen.
      apply NoDup_cons in Hnq as [Hnext Hrest].
      rewrite length_app. cbn. split_and!; try lia.
      rewrite <- app_assoc. cbn. apply NoDup_app. split_and!.
      * by apply NoDup_filter.
      * intros x [_ Hx]%list_elem_of_filter. apply (Hdis x Hx).
      * by apply NoDup_cons.
Qed.

(** X22.  The gate holds.  From a fresh limiter with a non-negative
    [maxConcurrent], as long as callers release only slots they hold and
    never ask twice, [currentCount] is the number of callers that hold a
    slot, it never exceeds [maxConcurrent], and callers wait only while
    the gate is full. *)
Theorem gate_is_safe (maxC : Z) (ops : list Op) :
  0 ≤ maxC →
  disciplined ops (fresh maxC, []) →
  safe (fold_left step ops (fresh maxC, [])) ∧
  maxConcurrent (fold_left step ops (fresh maxC, [])).1 = maxC.
Proof.
  intros Hmax.
  assert (Hgen : ∀ st, maxConcurrent st.1 = maxC → safe st → disciplined ops st →
            safe (fold_left step ops st) ∧ maxConcurrent (fold_left step ops st).1 = maxC).
  { induction ops as [|op ops IH]; intros st Hm Hs Hd; [done|].
    destruct Hd as [Hok Hrest]. cbn [fold_left]. apply IH.
    - by rewrite step_maxConcurrent.
    - apply safe_step; [lia|done|]. by split.
    - done. }
  apply Hgen; [done|].
  unfold safe. cbn. split_and!; try done; try lia. constructor.
Qed.

Lemma grants_queue ops : ∀ st,
  0 ≤ maxConcurrent st.1 → safe st → disciplined ops st →
  grants ops st ++ queue (fold_left step ops st).1 = queue st.1 ++ asked ops.
Proof.
  induction ops as [|op ops IH]; intros st Hmax Hs Hd.
  - cbn. by rewrite app_nil_r.
  - destruct Hd as [Hok Hrest]. cbn [grants fold_left].
    assert (Hs' : safe (step st op)) by (apply safe_step; [done|done|by split]).
    rewrite <- app_assoc, IH; [|by rewrite step_maxConcurrent|done|done].
    destruct Hs as (Hc & Hle & Hq & Hnd). destruct st as [l hs]. cbn [fst snd] in *.
    destruct op as [who|who]; cbn [grantedBy step asked omap fst snd].
    + unfold acquire. destruct (currentCount l <? maxConcurrent l) eqn:E; cbn.
      * apply Z.ltb_lt in E.
        assert (queue l = []) as ->.
        { destruct (queue l) eqn:Eq; [done|]. specialize (Hq ltac:(done)). lia. }
        done.
      * by rewrite <- app_assoc.
    + unfold release. destruct (queue l) as [|next rest]; by cbn.
Qed.

(** X23.  Nobody overtakes.  From a fresh limiter, under the protocol of
    [execute], the slots are given out in exactly the order in which they
    were asked for: the callers served so far, followed by those still
    waiting, are the callers that asked, in order. *)
Theorem gate_is_first_come_first_served (maxC : Z) (ops : list Op) :
  0 ≤ maxC →
  disciplined ops (fresh maxC, []) →
  grants ops (fresh maxC, []) ++ queue (fold_left step ops (fresh maxC, [])).1 = asked ops.
Proof.
  intros Hmax Hd. rewrite grants_queue; [done|done| |done].
  unfold safe. cbn. split_and!; try done; try lia. constructor.
Qed.

Lemma gate_is_safe_witness :
  safe (fold_left step [Acquire 1; Acquire 2; Acquire 3; Release 1; Release 3]
          (fresh 2, [])).
Proof.
  apply (gate_is_safe 2 [Acquire 1; Acquire 2; Acquire 3; Release 1; Release 3]); [lia|].
  cbn. split_and!; compute_done.
Defined.

Lemma gate_is_first_come_first_served_witness :
  grants [Acquire 1; Acquire 2; Acquire 3; Release 1; Release 3] (fresh 2, []) ++
  queue (fold_left step [Acquire 1; Acquire 2; Acquire 3; Release 1; Release 3]
           (fresh 2, [])).1 = [1; 2; 3]%nat.
Proof.
  apply (gate_is_first_come_first_served 2
           [Acquire 1; Acquire 2; Acquire 3; Release 1; Release 3]); [lia|].
  cbn. split_and!; compute_done.
Defined.

End GateFacts.

(** ** The request pacer *)

Section PacerFacts.
Import RateLimiter.

(** X24.  The random pause lies between the two bounds: with a random
    number in [0, 1) and [minDelay <= maxDelay] (each taken from the bucket,
    or from the limiter when the bucket's is 0), [getRandomDelay] returns a
    whole number of milliseconds from [minDelay] to [maxDelay], both
    included. *)
Theorem getRandomDelay_bounds (l : Limiter) (b : Bucket) (rnd : Q) :
  (0 <= rnd < 1)%Q →
  let lo := if minDelay b =? 0 then l_minDelay l else minDelay b in
  let hi := if maxDelay b =? 0 then l_maxDelay l else maxDelay b in
  lo ≤ hi →
  lo ≤ getRandomDelay l b rnd ≤ hi.
Proof.
  intros [Hr0 Hr1] lo hi Hle. unfold getRandomDelay. fold lo hi.
  set (n := hi - lo + 1).
  assert (Hn : (0 < inject_Z n)%Q) by (rewrite <- (Zlt_Qlt 0); lia).
  assert (H0 : 0 ≤ Qfloor (rnd * inject_Z n)).
  { rewrite <- (Qfloor_Z 0). apply Qfloor_resp_le. change (inject_Z 0) with 0%Q. nra. }
  assert (H1 : Qfloor (rnd * inject_Z n) < n).
  { rewrite Zlt_Qlt. eapply Qle_lt_trans; [apply Qfloor_le|]. nra. }
  lia.
Qed.

Lemma qmin_le_l (a b : Q) : (qmin a b <= a)%Q.
Proof.
  unfold qmin. destruct (Qle_bool a b) eqn:E; [apply Qle_refl|].
  destruct (Qlt_le_dec a b) as [H|H]; [|done].
  apply Qlt_le_weak, Qle_bool_iff in H. congruence.
Qed.

Lemma domainTotal_insert (m : gmap string Z) (d : string) (n : Z) :
  domainTotal (<[d := n]> m) = domainTotal m - default 0 (m !! d) + n.
Proof.
  unfold domainTotal.
  assert (Hcomm : ∀ (m' : gmap string Z) (j1 j2 : string) (z1 z2 y : Z),
            j1 ≠ j2 → m' !! j1 = Some z1 → m' !! j2 = Some z2 →
            z1 + (z2 + y) = z2 + (z1 + y)) by (intros; lia).
  destruct (m !! d) as [c|] eqn:E; cbn.
  - rewrite <- insert_delete_eq.
    rewrite (map_fold_insert_L _ _ _ _ _ (Hcomm _)) by by rewrite lookup_delete_eq.
    rewrite (map_fold_delete_L _ _ d c m (Hcomm _) E). lia.
  - rewrite (map_fold_insert_L _ _ _ _ _ (Hcomm _) E). lia.
Qed.

Lemma mapGet_elem {V} (k : string) (m : list (string * V)) (v : V) :
  Robots.mapGet k m = Some v → v ∈ m.*2.
Proof.
  unfold Robots.mapGet. destruct (list_find _ m) as [[i [k' v']]|] eqn:E; [|done].
  intros [= <-]. apply list_find_Some in E as (Hl & _).
  apply list_elem_of_fmap. exists (k', v'). split; [done|]. by eapply list_elem_of_lookup_2.
Qed.

Lemma configFor_rate (baseDomain : string) (cfg : BucketConfig) :
  configFor baseDomain = Some cfg →
  (0 < c_refillRate cfg)%Q ∧ (c_maxTokens cfg <= c_maxTokens cfg)%Q.
Proof.
  unfold configFor. case_bool_decide; [done|]. intros [= <-].
  split; [|apply Qle_refl].
  destruct (Robots.mapGet baseDomain domainConfig) as [cfg|] eqn:E; [|done].
  apply mapGet_elem in E. cbn in E.
  repeat (apply elem_of_cons in E as [->|E]; [done|]).
  by apply elem_of_nil in E.
Qed.

Lemma getDomainBucket_spec c domain r :
  extractBaseDomain c domain ∉ objectPrototypeNames →
  capped (limiter r) →
  ∃ b r', getDomainBucket c domain r = Some (extractBaseDomain c domain, b, r') ∧
    (0 < refillRate b)%Q ∧ (tokens b <= maxTokens b)%Q ∧
    stats (limiter r') = stats (limiter r) ∧
    domainBuckets (limiter r') =
      <[extractBaseDomain c domain := b]> (domainBuckets (limiter r)) ∧
    sleeps r' = sleeps r ∧ draws r' = draws r.
Proof.
  unfold getDomainBucket. intros Hname Hcap.
  destruct (domainBuckets (limiter r) !! extractBaseDomain c domain) as [b0|] eqn:E.
  - eexists _, _. split; [reflexivity|]. cbn.
    destruct (Hcap _ _ E) as [Hrate _].
    split_and!; try done. apply qmin_le_l.
  - destruct (configFor (extractBaseDomain c domain)) as [cfg|] eqn:Ec.
    + cbn. eexists _, _. split; [reflexivity|]. cbn.
      destruct (configFor_rate _ _ Ec) as [Hrate _].
      split_and!; try done. apply qmin_le_l.
    + unfold configFor in Ec. by rewrite bool_decide_eq_false_2 in Ec.
Qed.



Lemma getRandomDelay_bounds_witness :
  3000 ≤ getRandomDelay LimiterDemo.limiter0 LimiterDemo.indeedBucket (1 # 2) ≤ 7000.
Proof. apply (getRandomDelay_bounds LimiterDemo.limiter0 LimiterDemo.indeedBucket (1 # 2)); done. Defined.

End PacerFacts.

(** ** The error middleware *)

Section ErrorHandlerFacts.
Import JsString ErrorHandler.

Lemma orText_truthy (a : option string) (d : string) :
  truthy d = true → truthy (orText a d) = true.
Proof.
  intros Hd. unfold orText. destruct a as [s|]; [|done].
  by destruct (truthy s) eqn:E.
Qed.

Lemma orNum_nonzero (n : option Z) (d : Z) : d ≠ 0 → orNum n d ≠ 0.
Proof.
  intros Hd. unfold orNum. destruct n as [k|]; [|done].
  destruct (k =? 0) eqn:E; [done|]. by apply Z.eqb_neq.
Qed.

(** X26.  Whatever reaches the middleware, the answer is well formed: the
    status in the body is the HTTP status sent, and it is never 0; the
    message and the code are never empty; and a stack trace is sent only
    when [NODE_ENV] is "development". *)
Theorem errorHandler_answer_well_formed (env : Env) (err : Err) :
  b_status (errorHandler env err).2 = (errorHandler env err).1 ∧
  (errorHandler env err).1 ≠ 0 ∧
  truthy (b_message (errorHandler env err).2) = true ∧
  truthy (b_code (errorHandler env err).2) = true ∧
  (is_Some (b_stack (errorHandler env err).2) ↔ NODE_ENV env = Some "development").
Proof.
  unfold errorHandler. cbn [fst snd].
  set (error := translate env err).
  set (masked := (orNum (statusCode error) 500 =? 500) && _ && _).
  assert (Hst : b_status (formatErrorResponse env
                  (if masked then APIError env (Some "An unexpected error occurred") 500 None
                   else error)
                  (bool_decide (NODE_ENV env = Some "development")))
                = orNum (statusCode error) 500).
  { destruct masked eqn:Hm; [|done]. cbn.
    unfold masked in Hm. apply andb_true_iff in Hm as [Hm _].
    apply andb_true_iff in Hm as [Hm _]. apply Z.eqb_eq in Hm. by rewrite Hm. }
  split_and!.
  - exact Hst.
  - by apply orNum_nonzero.
  - by apply orText_truthy.
  - by apply orText_truthy.
  - unfold formatErrorResponse. cbn. rewrite andb_diag.
    case_bool_decide as Hd; split; try done.
    all: first [intros _; by eexists | by intros [? ?]].
Qed.

(** X27.  In production an error that none of the translations applies
    to, that is not marked operational and that carries no status other
    than 500, is answered with status 500 and the bland body: neither its
    message, nor its code, details, source or stack are sent. *)
Theorem production_hides_foreign_errors (env : Env) (err : Err) :
  NODE_ENV env = Some "production" →
  foreign err →
  isOperational err = false →
  orNum (statusCode err) 500 = 500 →
  errorHandler env err = (500, blandBody).
Proof.
  intros Hprod (Hm & Ha & Hj & Hn) Hop Hst.
  unfold errorHandler, translate.
  rewrite Hm, Ha, Hj, (bool_decide_eq_false_2 _ Hn), Hst, Hop.
  rewrite (bool_decide_eq_true_2 _ Hprod). cbn [Z.eqb andb negb Pos.eqb].
  unfold formatErrorResponse, blandBody. cbn.
  rewrite Hprod. done.
Qed.

(** X28.  The masking of production does not cover the errors the
    middleware builds itself, which are operational.  So a driver error
    (named [MongoError] or [MongoServerError], no duplicate key) with a
    message is turned into an operational error and answered, in every
    environment, with status 500, code DATABASE_ERROR and the driver's own
    message. *)
Theorem driver_message_is_sent (env : Env) (err : Err) (m : string) :
  name err = Some "MongoError" ∨ name err = Some "MongoServerError" →
  code err ≠ Some 11000 →
  isAxiosError err = false → isBadJson err = false →
  message err = Some m → truthy m = true →
  isOperational (translate env err) = true ∧
  (errorHandler env err).1 = 500 ∧
  b_message (errorHandler env err).2 = m ∧
  b_code (errorHandler env err).2 = "DATABASE_ERROR".
Proof.
  intros Hname Hcode Ha Hj Hmsg Hm.
  assert (Ht : translate env err = DatabaseError env (Some m)).
  { unfold translate. rewrite Ha, Hj.
    assert (isMongo err = true) as ->.
    { unfold isMongo. destruct Hname as [->| ->]; by vm_compute. }
    rewrite bool_decide_eq_false_2 by (destruct Hname as [->| ->]; done).
    unfold handleMongoDBError.
    rewrite (bool_decide_eq_false_2 _ Hcode).
    rewrite !bool_decide_eq_false_2 by (destruct Hname as [->| ->]; done).
    by rewrite Hmsg. }
  split; [by rewrite Ht|].
  unfold errorHandler. rewrite Ht. cbn [fst snd].
  change (orNum (statusCode (DatabaseError env (Some m))) 500) with 500.
  change (isOperational (DatabaseError env (Some m))) with true.
  rewrite andb_false_r. cbn. by rewrite Hm.
Qed.

Lemma production_hides_foreign_errors_witness :
  errorHandler ErrorDemo.production ErrorDemo.typeError = (500, blandBody).
Proof.
  apply production_hides_foreign_errors; [done| |done|done].
  unfold foreign. split_and!; done.
Defined.

Lemma driver_message_is_sent_witness :
  b_message (errorHandler ErrorDemo.production ErrorDemo.mongoError).2 =
    "user is not allowed to do action [find] on [scraper.contents]".
Proof.
  destruct (driver_message_is_sent ErrorDemo.production ErrorDemo.mongoError
              "user is not allowed to do action [find] on [scraper.contents]")
    as (_ & _ & H & _); [by right|done..|exact H].
Defined.

End ErrorHandlerFacts.

(** ** The job adapter *)

Section JobTitleFacts.
Import JsString JobScraper.

Lemma includes_cons_false (c : ascii) (s needle : string) :
  includes (String c s) needle = false →
  String.prefix needle (String c s) = false ∧ includes s needle = false.
Proof. rewrite includes_unfold. by intros [? ?]%orb_false_iff. Qed.

Lemma splitOn_no_match sep (s : string) : ∀ cur,
  includes s sep = false → splitOn sep 0 cur s = [cur +:+ s].
Proof.
  induction s as [|c s IH]; intros cur H.
  - by rewrite append_empty_r.
  - apply includes_cons_false in H as [Hp Hi]. cbn [splitOn]. rewrite Hp.
    rewrite IH by done. by rewrite append_assoc.
Qed.

Lemma prefix_cons (x : ascii) (p : string) (c : ascii) (s : string) :
  String.prefix (String x p) (String c s) =
    if ascii_dec x c then String.prefix p s else false.
Proof. reflexivity. Qed.

Lemma includes_shorter (s : string) :
  includes s " -" = false → includes s " - " = false.
Proof.
  induction s as [|c s IH]; [done|].
  intros [Hp Hi]%includes_cons_false. rewrite includes_unfold.
  rewrite (IH Hi), orb_false_r.
  rewrite prefix_cons in Hp |- *. destruct (ascii_dec " " c); [|done].
  destruct s as [|d s]; [done|].
  rewrite prefix_cons in Hp |- *.
  destruct (ascii_dec "-" d); [|done]. by destruct s.
Qed.

Lemma splitOn_joint (a : string) : ∀ cur rest,
  includes a " -" = false →
  splitOn " - " 0 cur (a +:+ " - " +:+ rest) = (cur +:+ a) :: splitOn " - " 0 "" rest.
Proof.
  induction a as [|c a IH]; intros cur rest H.
  - rewrite append_nil, append_empty_r.
    change (" - " +:+ rest) with (String " " ("- " +:+ rest)).
    cbn [splitOn].
    assert (String.prefix " - " (String " " ("- " +:+ rest)) = true) as ->
      by apply (prefix_append " - " rest).
    reflexivity.
  - apply includes_cons_false in H as [Hp Hi].
    rewrite append_cons. cbn [splitOn].
    assert (String.prefix " - " (String c (a +:+ " - " +:+ rest)) = false) as ->.
    { rewrite prefix_cons in Hp |- *. destruct (ascii_dec " " c) as [<-|]; [|done].
      destruct a as [|d a].
      - rewrite append_nil. reflexivity.
      - rewrite append_cons. rewrite prefix_cons in Hp |- *.
        destruct (ascii_dec "-" d) as [<-|]; [|done]. by destruct a. }
    rewrite IH by done. by rewrite append_assoc.
Qed.


Lemma parts_neat (l : list string) :
  Forall neat (filter (λ s, truthy s = true) (trim <$> l)).
Proof.
  apply Forall_forall. intros s [Ht Hin]%list_elem_of_filter.
  apply list_elem_of_fmap in Hin as (x & -> & _). split; [done|apply trim_idem].
Qed.

(** X30.  Whatever the title, the parts the parser returns are neat: the
    company and the location, when given, are not empty and have no blank
    at either end, and so has the role unless it is the whole title; a
    title that is not empty gives a role that is not empty; and there is
    no location without a company. *)
Theorem parseJobTitle_parts_neat (title : string) :
  let j := parseJobTitle title in
  (role j = title ∨ neat (role j)) ∧
  (truthy title = true → truthy (role j) = true) ∧
  (∀ c, company j = Some c → neat c) ∧
  (∀ l, location j = Some l → neat l) ∧
  (is_Some (location j) → is_Some (company j)).
Proof.
  cbn zeta. unfold parseJobTitle. cbn [role company location].
  set (parts := filter _ _).
  assert (Hn : Forall neat parts) by apply parts_neat.
  assert (Hk : ∀ i s, parts !! i = Some s → neat s).
  { intros i s Hs. eapply Forall_forall; [exact Hn|]. by eapply list_elem_of_lookup_2. }
  assert (Ho : ∀ i s, orNull (parts !! i) = Some s → parts !! i = Some s).
  { intros i s. unfold orNull. destruct (parts !! i) as [p|]; [|done].
    by destruct (truthy p). }
  split_and!.
  - destruct (parts !! 0%nat) as [p|] eqn:E; [|by left].
    destruct (Hk _ _ E) as [Ht Htr]. rewrite Ht. by right.
  - intros Ht. destruct (parts !! 0%nat) as [p|] eqn:E; [|done].
    destruct (Hk _ _ E) as [Hp _]. by rewrite Hp.
  - intros c Hc. by eapply Hk, Ho.
  - intros l Hl. by eapply Hk, Ho.
  - intros [l Hl]. apply Ho in Hl. apply lookup_lt_Some in Hl.
    destruct (lookup_lt_is_Some_2 parts 1%nat ltac:(lia)) as [c Hc].
    exists c. unfold orNull. rewrite Hc. by destruct (Hk _ _ Hc) as [-> _].
Qed.


End JobTitleFacts.
